(** * code_Agent: a shallow embedding of the step-driven task executor

    The development follows the Python sources:
    - [src/agent/agent.py]   (class [Agent]: response extraction, dispatch,
      chunked writes, the step executor and the task loop),
    - [src/tools/terminal.py] (class [Terminal_for_agent]: commands,
      background processes, files),
    - [src/tools/Tools.py]   (the tool registry and handler binding),
    - [src/utils/formatter.py] (only [print_result], which mutates the
      result it is given).

    Python [str] is embedded as [string]; a character is a code point below
    256.  Python [int] is [Z].  A [dict] is an insertion-ordered association
    list with unique keys.  Everything the program obtains from outside (the
    model client, the operating system, the clock) is read from an
    environment record of oracles indexed by a logical clock, so that every
    theorem quantifies over all behaviours of the outside world. *)

From Stdlib Require Import String Ascii List ZArith NArith Lia Bool Arith.
From Stdlib Require Import Numbers.DecimalString.
Import ListNotations.
Open Scope list_scope.
Open Scope string_scope.

Set Implicit Arguments.
Set Warnings "-register-all".

(* ================================================================== *)
(** * Python strings *)
(* ================================================================== *)

Module PyStr.

(** [str.isspace] and the regex class [\s] agree below 256. *)
Definition is_space (c : ascii) : bool :=
  let n := N_of_ascii c in
  ((9 <=? n) && (n <=? 13) || (28 <=? n) && (n <=? 32)
   || (n =? 133) || (n =? 160))%N.

(** The regex class [\w] of a [str] pattern, below 256. *)
Definition is_word (c : ascii) : bool :=
  let n := N_of_ascii c in
  ((48 <=? n) && (n <=? 57) || (65 <=? n) && (n <=? 90) || (n =? 95)
   || (97 <=? n) && (n <=? 122) || (n =? 170) || (178 <=? n) && (n <=? 179)
   || (n =? 181) || (185 <=? n) && (n <=? 186) || (188 <=? n) && (n <=? 190)
   || (192 <=? n) && (n <=? 214) || (216 <=? n) && (n <=? 246)
   || (248 <=? n) && (n <=? 255))%N.

Definition lower_char (c : ascii) : ascii :=
  let n := N_of_ascii c in
  if ((65 <=? n) && (n <=? 90) || (192 <=? n) && (n <=? 214)
      || (216 <=? n) && (n <=? 222))%N
  then ascii_of_N (n + 32) else c.

Definition newline : ascii := ascii_of_nat 10.
Definition nl : string := String newline "".

Fixpoint lower (s : string) : string :=
  match s with
  | "" => ""
  | String c r => String (lower_char c) (lower r)
  end.

Fixpoint lstrip (s : string) : string :=
  match s with
  | "" => ""
  | String c r => if is_space c then lstrip r else s
  end.

Fixpoint rstrip (s : string) : string :=
  match s with
  | "" => ""
  | String c r =>
      match rstrip r with
      | "" => if is_space c then "" else String c ""
      | r' => String c r'
      end
  end.

(** [s.strip()] *)
Definition strip (s : string) : string := lstrip (rstrip s).

Fixpoint take (n : nat) (s : string) : string :=
  match n, s with
  | S n', String c r => String c (take n' r)
  | _, _ => ""
  end.

Fixpoint drop (n : nat) (s : string) : string :=
  match n, s with
  | S n', String _ r => drop n' r
  | _, _ => s
  end.

Definition len (s : string) : Z := Z.of_nat (String.length s).

(** Python's normalisation of one slice bound. *)
Definition clamp (n i : Z) : Z :=
  if (i <? 0)%Z then Z.max 0 (i + n) else Z.min i n.

(** [s[lo:hi]] *)
Definition slice (s : string) (lo hi : Z) : string :=
  let a := clamp (len s) lo in
  let b := clamp (len s) hi in
  take (Z.to_nat (b - a)) (drop (Z.to_nat a) s).

(** [s.startswith(p)] *)
Definition startswith (p s : string) : bool := String.prefix p s.

(** [s.find(sub)], [None] for -1. *)
Definition find (sub s : string) : option nat := String.index 0 sub s.

(** [sub in s] *)
Definition contains (sub s : string) : bool :=
  match find sub s with Some _ => true | None => false end.

(** [s.endswith(p)] *)
Definition endswith (p s : string) : bool :=
  (String.length p <=? String.length s)%nat
  && String.eqb (drop (String.length s - String.length p) s) p.

(** [s.split(sep)] for a one-character separator. *)
Fixpoint split_char (sep : ascii) (s : string) : list string :=
  match s with
  | "" => [""]
  | String c r =>
      if Ascii.eqb c sep then "" :: split_char sep r
      else match split_char sep r with
           | [] => [String c ""]
           | w :: ws => String c w :: ws
           end
  end.

(** [s.split(sep, 1)] for a one-character separator: at most one cut. *)
Fixpoint split_once (sep : ascii) (s : string) : list string :=
  match s with
  | "" => [""]
  | String c r =>
      if Ascii.eqb c sep then [""; r]
      else match split_once sep r with
           | [] => [String c ""]
           | w :: ws => String c w :: ws
           end
  end.

(** [sep.join(parts)] *)
Definition join (sep : string) (parts : list string) : string :=
  String.concat sep parts.

(** [str(n)] for an [int]. *)
Definition of_Z (z : Z) : string := NilEmpty.string_of_int (Z.to_int z).

Definition truthy (s : string) : bool := negb (String.eqb s "").

End PyStr.

(* ================================================================== *)
(** * Python values, dictionaries, exceptions *)
(* ================================================================== *)

(** The values that tool results are made of. *)
Inductive pyval : Type :=
| VNone
| VBool (b : bool)
| VInt (z : Z)
| VStr (s : string)
| VList (l : list pyval)
| VDict (d : list (string * pyval)).

(** A [dict] with [str] keys: insertion-ordered, [set] overwrites in place. *)
Module Dict.

Definition t (V : Type) : Type := list (string * V).

Definition empty {V} : t V := [].

Fixpoint get {V} (k : string) (d : t V) : option V :=
  match d with
  | [] => None
  | (k', v) :: r => if String.eqb k k' then Some v else get k r
  end.

(** [k in d] *)
Definition mem {V} (k : string) (d : t V) : bool :=
  match get k d with Some _ => true | None => false end.

(** [d[k] = v] *)
Fixpoint set {V} (k : string) (v : V) (d : t V) : t V :=
  match d with
  | [] => [(k, v)]
  | (k', v') :: r =>
      if String.eqb k k' then (k', v) :: r else (k', v') :: set k v r
  end.

(** [del d[k]] (the caller has checked [k in d]) *)
Fixpoint del {V} (k : string) (d : t V) : t V :=
  match d with
  | [] => []
  | (k', v') :: r =>
      if String.eqb k k' then del k r else (k', v') :: del k r
  end.

Definition keys {V} (d : t V) : list string := map fst d.

(** The representation invariant of a [dict]: keys are unique. *)
Definition wf {V} (d : t V) : Prop := NoDup (keys d).

End Dict.

(** A raised exception: its class name and [str(e)]. *)
Record exc : Type := Exc { exc_class : string; exc_str : string }.

(** How a call ends: it returns, it raises, or the model's loop bound was
    too small to see the end. *)
Inductive outcome (A : Type) : Type :=
| Ok (a : A)
| Raise (e : exc)
| OutOfFuel.
Arguments Ok {A} a.
Arguments Raise {A} e.
Arguments OutOfFuel {A}.

(** [isinstance(v, str) and len(v) > n] *)
Definition is_str_longer (n : Z) (v : option pyval) : bool :=
  match v with
  | Some (VStr s) => (n <? PyStr.len s)%Z
  | _ => false
  end.

(** Truth value of a Python object. *)
Definition truth (v : pyval) : bool :=
  match v with
  | VNone => false
  | VBool b => b
  | VInt z => negb (z =? 0)%Z
  | VStr s => PyStr.truthy s
  | VList l => match l with [] => false | _ => true end
  | VDict d => match d with [] => false | _ => true end
  end.

(* ================================================================== *)
(** * The response extractor ([Agent.extract_response_from_tags]) *)
(* ================================================================== *)

Module Extractor.
Import PyStr.

(** [re.search(r'<tag>(.*?)</tag>', text, re.DOTALL)], as [group(1)].
    The search succeeds at the leftmost opening tag that has a closing tag
    after it; if the first opening tag has none, no later one has; the lazy
    group then stops at the first closing tag. *)
Definition re_search_tag (opening closing text : string) : option string :=
  match find opening text with
  | None => None
  | Some i =>
      let rest := drop (i + String.length opening) text in
      match find closing rest with
      | None => None
      | Some j => Some (take j rest)
      end
  end.

(** The lazy group [(.*?)] before [(?:\n|$)], without DOTALL: the
    characters up to the first newline or the end. *)
Fixpoint line_prefix (s : string) : string :=
  match s with
  | "" => ""
  | String c r => if Ascii.eqb c newline then "" else String c (line_prefix r)
  end.

(** [re.search(r'path:\s*(.*?)(?:\n|$)', text)], as [group(1)]. *)
Definition re_search_path (text : string) : option string :=
  match find "path:" text with
  | None => None
  | Some i => Some (line_prefix (lstrip (drop (i + 5) text)))
  end.

(** [\w+:] at the start of [s]; [seen] tells that one word character has
    been read. *)
Fixpoint field_marker (seen : bool) (s : string) : bool :=
  match s with
  | "" => false
  | String c r =>
      if is_word c then field_marker true r
      else seen && Ascii.eqb c ":"
  end.

(** The lookahead [(?=\n\w+:|$)]: [$] holds at the end and before a final
    newline. *)
Definition at_field_or_end (s : string) : bool :=
  match s with
  | "" => true
  | String c r =>
      Ascii.eqb c newline && (field_marker false r || String.eqb r "")
  end.

(** The lazy group [(.*?)] before that lookahead, with DOTALL. *)
Fixpoint lazy_content (s : string) : string :=
  match s with
  | "" => ""
  | String c r =>
      if at_field_or_end s then "" else String c (lazy_content r)
  end.

(** [re.search(r'content:\s*(.*?)(?=\n\w+:|$)', text, re.DOTALL)], as
    [group(1)]. *)
Definition re_search_content (text : string) : option string :=
  match find "content:" text with
  | None => None
  | Some i => Some (lazy_content (lstrip (drop (i + 8) text)))
  end.

(** The [result] dict of the extractor; [None] is an absent key.  The value
    under ['function'] may itself be Python's [None]. *)
Record decision : Type := Decision {
  thought : option string;
  function : option (option string);
  task_complete : option bool;
  parameters : option (Dict.t string)
}.

Definition empty_decision : decision := Decision None None None None.

(** [decision.get("function")] *)
Definition get_function (d : decision) : option string :=
  match function d with Some (Some f) => Some f | _ => None end.

(** Truth value of [decision.get("function")]. *)
Definition has_function (d : decision) : bool :=
  match get_function d with Some f => truthy f | None => false end.

(** [decision.get("task_complete", False)] *)
Definition get_task_complete (d : decision) : bool :=
  match task_complete d with Some b => b | None => false end.

(** [decision.get("thought", "")] *)
Definition get_thought (d : decision) : string :=
  match thought d with Some t => t | None => "" end.

(** [decision.get("parameters", {})] *)
Definition get_parameters (d : decision) : Dict.t string :=
  match parameters d with Some p => p | None => Dict.empty end.

(** Truth value of the dict itself: [not decision] holds when no key is
    set. *)
Definition nonempty (d : decision) : bool :=
  match thought d, function d, task_complete d, parameters d with
  | None, None, None, None => false
  | _, _, _, _ => true
  end.

(** [key, value = parts]: unpacking raises unless there are two parts. *)
Definition unpack2 (parts : list string) : outcome (string * string) :=
  match parts with
  | [k; v] => Ok (k, v)
  | [] | [_] =>
      Raise (Exc "ValueError" "not enough values to unpack (expected 2)")
  | _ => Raise (Exc "ValueError" "too many values to unpack (expected 2)")
  end.

(** The loop over [param_lines]. *)
Fixpoint parse_param_lines (lines : list string) (acc : Dict.t string)
  : outcome (Dict.t string) :=
  match lines with
  | [] => Ok acc
  | line :: rest =>
      if contains ":" line then
        match unpack2 (split_once ":" line) with
        | Ok (key, value) =>
            parse_param_lines rest (Dict.set (strip key) (strip value) acc)
        | Raise e => Raise e
        | OutOfFuel => OutOfFuel
        end
      else parse_param_lines rest acc
  end.

Definition success_diagnostic : string :=
  "Successfully extracted response from tags".

Definition default_thought : string := "No thought provided".

Definition extract_response_from_tags (text : string)
  : outcome (decision * string) :=
  let result := empty_decision in
  let result :=
    match re_search_tag "<thought>" "</thought>" text with
    | Some g => Decision (Some (strip g)) (function result)
                         (task_complete result) (parameters result)
    | None => result
    end in
  let result :=
    match re_search_tag "<function>" "</function>" text with
    | Some g =>
        let function_value := strip g in
        Decision (thought result)
                 (Some (if String.eqb (lower function_value) "null"
                        then None else Some function_value))
                 (task_complete result) (parameters result)
    | None => result
    end in
  let result :=
    match re_search_tag "<task_complete>" "</task_complete>" text with
    | Some g =>
        Decision (thought result) (function result)
                 (Some (String.eqb (lower (strip g)) "true"))
                 (parameters result)
    | None => result
    end in
  let with_parameters (p : Dict.t string) : outcome (decision * string) :=
    let result := Decision (thought result) (function result)
                           (task_complete result) (Some p) in
    let result :=
      match thought result with
      | Some _ => result
      | None => Decision (Some default_thought) (function result)
                         (task_complete result) (parameters result)
      end in
    let result :=
      match task_complete result with
      | Some _ => result
      | None => Decision (thought result) (function result)
                         (Some false) (parameters result)
      end in
    Ok (result, success_diagnostic) in
  match re_search_tag "<parameters>" "</parameters>" text,
        has_function result with
  | Some g, true =>
      let parameters_text := strip g in
      let fname := match get_function result with
                   | Some f => f | None => "" end in
      if contains "write_file" fname || contains "append_to_file" fname
      then
        let path := match re_search_path parameters_text with
                    | Some p => strip p
                    | None => "unknown_path.txt"
                    end in
        let content := match re_search_content parameters_text with
                       | Some c => strip c
                       | None => ""
                       end in
        let content := if startswith nl content
                       then slice content 1 (len content) else content in
        with_parameters [("path", path); ("content", content)]
      else
        match parse_param_lines (split_char newline parameters_text)
                                Dict.empty with
        | Ok p => with_parameters p
        | Raise e => Raise e
        | OutOfFuel => OutOfFuel
        end
  | _, _ => with_parameters Dict.empty
  end.

End Extractor.

(* ================================================================== *)
(** * Stateful code: state passing with exceptions *)
(* ================================================================== *)

(** A method body: it reads and updates the object's state and returns,
    raises, or runs out of loop bound.  A raise keeps the state reached. *)
Definition M (St A : Type) : Type := St -> outcome A * St.

Definition ret {St A} (a : A) : M St A := fun s => (Ok a, s).

Definition bind {St A B} (c : M St A) (k : A -> M St B) : M St B :=
  fun s =>
    match c s with
    | (Ok a, s') => k a s'
    | (Raise e, s') => (Raise e, s')
    | (OutOfFuel, s') => (OutOfFuel, s')
    end.

Definition raise {St A} (e : exc) : M St A := fun s => (Raise e, s).

Definition out_of_fuel {St A} : M St A := fun s => (OutOfFuel, s).

Definition gets {St A} (f : St -> A) : M St A := fun s => (Ok (f s), s).

Definition modify {St} (f : St -> St) : M St unit := fun s => (Ok tt, f s).

(** [try: body / except Exception as e: handler] *)
Definition try_except {St A} (body : M St A) (handler : exc -> M St A)
  : M St A :=
  fun s =>
    match body s with
    | (Raise e, s') => handler e s'
    | r => r
    end.

(** [try: body / finally: cleanup]: the cleanup runs however the body ends;
    the body's outcome stands unless the cleanup does not return. *)
Definition try_finally {St A} (body : M St A) (cleanup : M St unit)
  : M St A :=
  fun s =>
    let (r, s') := body s in
    match cleanup s' with
    | (Ok _, s'') => (r, s'')
    | (Raise e, s'') => (Raise e, s'')
    | (OutOfFuel, s'') => (OutOfFuel, s'')
    end.

(** Run a method of a component held in a field of the enclosing object. *)
Definition lift {St Sub A} (proj : St -> Sub) (upd : Sub -> St -> St)
  (c : M Sub A) : M St A :=
  fun s => let (r, sub') := c (proj s) in (r, upd sub' s).

Declare Scope py_scope.
Delimit Scope py_scope with py.
Notation "x <- c ;; k" := (bind c (fun x => k))
  (at level 61, c at next level, right associativity) : py_scope.
Notation "c ;;; k" := (bind c (fun _ => k))
  (at level 61, right associativity) : py_scope.

(** [for x in xs: body x] *)
Fixpoint for_each {St X} (xs : list X) (body : X -> M St unit) : M St unit :=
  match xs with
  | [] => ret tt
  | x :: r => bind (body x) (fun _ => for_each r body)
  end.

(** [d[k]]: raises [KeyError] on a missing key. *)
Definition getitem {St V} (k : string) (d : Dict.t V) : M St V :=
  match Dict.get k d with
  | Some v => ret v
  | None => raise (Exc "KeyError" k)
  end.

(** [del d[k]]: raises [KeyError] on a missing key. *)
Definition delitem {St V} (k : string) (d : Dict.t V) : M St (Dict.t V) :=
  if Dict.mem k d then ret (Dict.del k d) else raise (Exc "KeyError" k).

(* ================================================================== *)
(** * The outside world *)
(* ================================================================== *)

Module World.

Inductive stream : Type := Stdout | Stderr.
Inductive signal : Type := SIGTERM | SIGKILL.

(** How [process.communicate(timeout=...)] ends.  [TimeoutExpired] is the
    exception of that name; its two attributes are what [communicate] had
    read from the pipes when the timeout expired. *)
Inductive communicate_outcome : Type :=
| Completed (out err : string) (returncode : Z)
| TimeoutExpired (output stderr_ : string)
| CommunicateRaises (e : exc).

(** One turn of the loop of [_read_nonblocking] on a pipe of a command
    that timed out: [select] does not report the pipe; or it does and
    [pipe.read(1024)] returns [data] (empty at the end of the output); or
    one of the two raises, as [select] does with [ValueError] on a pipe
    that [communicate] closed when it read the end of the output. *)
Inductive pipe_turn : Type :=
| NotReady
| Chunk (data : string)
| PipeRaises (e : exc).

(** How [with open(path, mode) as file: file.write(content)] ends. *)
Inductive io_fault : Type :=
| NoFault
| OpenFails (e : exc)
| WriteFails (e : exc).

(** One round trip to the model client: the text of the reply, or the
    exception raised by the request or while the text is taken out of the
    response object. *)
Inductive reply : Type :=
| ReplyText (text : string)
| ReplyRaises (e : exc).

(** Everything the program reads from outside.  The first argument of
    each oracle is the logical clock at the moment of the call; a process
    handle is the clock value at which it was spawned. *)
Record Env : Type := Environment {
  llm : nat -> string -> reply;
  popen_error : nat -> string -> option exc;
  communicate : nat -> string -> communicate_outcome;
  pipe_reads : nat -> stream -> list pipe_turn;
  proc_poll : nat -> nat -> option Z;
  killpg_error : nat -> nat -> signal -> option exc;
  stdin_error : nat -> nat -> option exc;
  uuid4 : nat -> string;
  captured : nat -> nat -> stream -> string;
  io : nat -> string -> io_fault;
  time_time : nat -> Z;
  fs_query : nat -> string -> list string -> pyval;
  json_dumps : pyval -> string;
  py_str : pyval -> string
}.

(** What the program did to the outside world, oldest first. *)
Inductive event : Type :=
| EvPopen (handle : nat) (command : string)
| EvPoll (handle : nat) (result : option Z)
| EvKillpg (handle : nat) (sig : signal) (raised : bool)
| EvStdin (handle : nat) (text : string)
| EvWriteFile (path content : string)
| EvAppendFile (path content : string).

End World.

(* ================================================================== *)
(** * The process manager and file tools ([Terminal_for_agent]) *)
(* ================================================================== *)

Module Terminal.
Import PyStr World.
Local Open Scope py_scope.

(** One entry of [self.background_processes]. *)
Record process_info : Type := ProcessInfo {
  process : nat;
  command : string;
  start_time : Z;
  stdout : string;
  stderr : string
}.

(** The object's attributes, followed by the part of the operating system
    its methods act on: the logical clock, the files, and the log of what
    was done. *)
Record term : Type := Terminal_for_agent {
  cwd : string;
  background_processes : Dict.t process_info;
  clock : nat;
  files : Dict.t string;
  trace : list event
}.

Definition set_background_processes (r : Dict.t process_info)
  (s : term) : term :=
  Terminal_for_agent (cwd s) r (clock s) (files s) (trace s).

Definition set_files (f : Dict.t string) (s : term) : term :=
  Terminal_for_agent (cwd s) (background_processes s) (clock s) f (trace s).

(** Read the clock and advance it. *)
Definition tick : M term nat :=
  fun s => (Ok (clock s),
            Terminal_for_agent (cwd s) (background_processes s)
                               (S (clock s)) (files s) (trace s)).

Definition log (e : event) : M term unit :=
  modify (fun s => Terminal_for_agent (cwd s) (background_processes s)
                     (clock s) (files s) (trace s ++ [e])).

Definition error_result (msg : string) : pyval :=
  VDict [("error", VStr msg)].

Definition not_found (process_id : string) : pyval :=
  error_result ("Process with ID " ++ process_id ++ " not found").

(** ** [run_command] *)

(** The [timeout] argument is the default [10] or a [str] taken from the
    reply's parameter block. *)
Inductive timeout_arg : Type :=
| TimeoutInt (z : Z)
| TimeoutStr (s : string).

Definition timeout_str (t : timeout_arg) : string :=
  match t with TimeoutInt z => of_Z z | TimeoutStr s => s end.

(** [_read_nonblocking]: [turns] lists what the turns of its loop meet on
    the pipe, which holds only what the command wrote after [communicate]
    stopped reading; after the last listed turn the pipe is not ready. *)
Fixpoint read_nonblocking (turns : list pipe_turn) (output : string)
  : M term string :=
  match turns with
  | [] => ret output
  | NotReady :: _ => ret output
  | Chunk data :: rest =>
      if PyStr.truthy data then read_nonblocking rest (output ++ data)
      else ret output
  | PipeRaises e :: _ => raise e
  end.

Definition run_command (env : Env) (command_ : string)
  (timeout : timeout_arg) : M term pyval :=
  try_except
    (t <- tick ;;
     match popen_error env t command_ with
     | Some e => raise e
     | None =>
         log (EvPopen t command_) ;;;
         match timeout with
         | TimeoutStr _ =>
             raise (Exc "TypeError"
               "unsupported operand type(s) for +: 'float' and 'str'")
         | TimeoutInt _ =>
             match communicate env t command_ with
             | Completed out err rc =>
                 ret (VDict [("stdout", VStr out); ("stderr", VStr err);
                             ("returncode", VInt rc)])
             | TimeoutExpired _ _ =>
                 stdout_ <- read_nonblocking (pipe_reads env t Stdout) "" ;;
                 stderr_ <- read_nonblocking (pipe_reads env t Stderr) "" ;;
                 ret (VDict
                   [("stdout", VStr stdout_);
                    ("stderr", VStr stderr_);
                    ("returncode", VNone);
                    ("status", VStr "running");
                    ("message",
                     VStr ("Command still running after "
                           ++ timeout_str timeout
                           ++ " seconds. Continuing in background."))])
             | CommunicateRaises e => raise e
             end
         end
     end)
    (fun e => ret (error_result (exc_str e))).

(** ** Background processes *)

(** The two output-capture threads of a record append what the process
    wrote since they last ran. *)
Definition collect_output (env : Env) (t : nat) (info : process_info)
  : process_info :=
  ProcessInfo (process info) (command info) (start_time info)
    (stdout info ++ captured env t (process info) Stdout)
    (stderr info ++ captured env t (process info) Stderr).

(** The registry after the capture threads of all its records ran at clock
    [t]. *)
Definition capture_all (env : Env) (t : nat) (d : Dict.t process_info)
  : Dict.t process_info :=
  map (fun kv => (fst kv, collect_output env t (snd kv))) d.

(** The capture threads run while the caller sleeps or before it reads a
    buffer. *)
Definition capture_threads (env : Env) : M term unit :=
  t <- tick ;;
  modify (fun s =>
    set_background_processes
      (capture_all env t (background_processes s)) s).

(** [process.poll()] *)
Definition poll (env : Env) (handle : nat) : M term (option Z) :=
  t <- tick ;;
  let r := proc_poll env t handle in
  log (EvPoll handle r) ;;; ret r.

(** [os.killpg(os.getpgid(process.pid), sig)] *)
Definition killpg (env : Env) (handle : nat) (sig : signal)
  : M term unit :=
  t <- tick ;;
  match killpg_error env t handle sig with
  | Some e => log (EvKillpg handle sig true) ;;; raise e
  | None => log (EvKillpg handle sig false)
  end.

Definition start_background_process (env : Env) (command_ : string)
  : M term pyval :=
  try_except
    (t <- tick ;;
     match popen_error env t command_ with
     | Some e => raise e
     | None =>
         log (EvPopen t command_) ;;;
         let process_id := uuid4 env t in
         modify (fun s =>
           set_background_processes
             (Dict.set process_id
                (ProcessInfo t command_ (time_time env t) "" "")
                (background_processes s)) s) ;;;
         capture_threads env ;;;
         reg <- gets background_processes ;;
         info <- getitem process_id reg ;;
         ret (VDict [("process_id", VStr process_id);
                     ("status", VStr "started");
                     ("stdout", VStr (stdout info));
                     ("stderr", VStr (stderr info))])
     end)
    (fun e => ret (error_result (exc_str e))).

Definition status_of (r : option Z) : string :=
  match r with None => "running" | Some _ => "terminated" end.

(** The body of the loop of [list_background_processes]. *)
Definition list_entry (env : Env) (entry : string * process_info)
  (result : Dict.t pyval) : M term (Dict.t pyval) :=
  let (process_id, info) := entry in
  r <- poll env (process info) ;;
  reg <- gets background_processes ;;
  (match r with
   | Some _ =>
       if Dict.mem process_id reg
       then reg' <- delitem process_id reg ;;
            modify (set_background_processes reg')
       else ret tt
   | None => ret tt
   end) ;;;
  t <- tick ;;
  ret (Dict.set process_id
         (VDict [("command", VStr (command info));
                 ("status", VStr (status_of r));
                 ("runtime", VInt (time_time env t - start_time info))])
         result).

Fixpoint list_loop (env : Env) (snapshot : list (string * process_info))
  (result : Dict.t pyval) : M term (Dict.t pyval) :=
  match snapshot with
  | [] => ret result
  | entry :: rest =>
      result' <- list_entry env entry result ;;
      list_loop env rest result'
  end.

Definition list_background_processes (env : Env)
  : M term (Dict.t pyval) :=
  snapshot <- gets background_processes ;;
  list_loop env snapshot Dict.empty.

Definition get_process_output (env : Env) (process_id : string)
  : M term pyval :=
  capture_threads env ;;;
  reg <- gets background_processes ;;
  if negb (Dict.mem process_id reg) then ret (not_found process_id)
  else
    process_info <- getitem process_id reg ;;
    r <- poll env (process process_info) ;;
    let result := [("status", VStr (status_of r));
                   ("stdout", VStr (stdout process_info));
                   ("stderr", VStr (stderr process_info))] in
    match r with
    | Some returncode =>
        reg' <- delitem process_id reg ;;
        modify (set_background_processes reg') ;;;
        ret (VDict (Dict.set "returncode" (VInt returncode) result))
    | None => ret (VDict result)
    end.

Definition stop_background_process (env : Env) (process_id : string)
  : M term pyval :=
  capture_threads env ;;;
  reg <- gets background_processes ;;
  if negb (Dict.mem process_id reg) then ret (not_found process_id)
  else
    process_info <- getitem process_id reg ;;
    let handle := process process_info in
    r <- poll env handle ;;
    result <-
      match r with
      | None =>
          try_except
            (killpg env handle SIGTERM ;;;
             capture_threads env ;;;
             r2 <- poll env handle ;;
             match r2 with
             | None => killpg env handle SIGKILL
             | Some _ => ret tt
             end ;;;
             reg1 <- gets background_processes ;;
             info <- getitem process_id reg1 ;;
             ret (VDict [("success", VBool true);
                         ("message",
                          VStr ("Process " ++ process_id ++ " stopped"));
                         ("stdout", VStr (stdout info));
                         ("stderr", VStr (stderr info))]))
            (fun e => ret (error_result (exc_str e)))
      | Some _ =>
          ret (VDict [("message",
                       VStr ("Process " ++ process_id
                             ++ " was already terminated"))])
      end ;;
    reg2 <- gets background_processes ;;
    (if Dict.mem process_id reg2
     then reg' <- delitem process_id reg2 ;;
          modify (set_background_processes reg')
     else ret tt) ;;;
    ret result.

(** [process.stdin]: the processes are spawned without a pipe for their
    input ([Popen] is given [stdout] and [stderr] only), so the attribute
    is [None]. *)
Definition stdin (handle : nat) : option nat := None.

Definition send_input_to_process (env : Env) (process_id input_text : string)
  : M term pyval :=
  capture_threads env ;;;
  reg <- gets background_processes ;;
  if negb (Dict.mem process_id reg) then ret (not_found process_id)
  else
    process_info <- getitem process_id reg ;;
    let handle := process process_info in
    r <- poll env handle ;;
    match r with
    | None =>
        try_except
          (match stdin handle with
           | None =>
               raise (Exc "AttributeError"
                          "'NoneType' object has no attribute 'write'")
           | Some pipe =>
               t <- tick ;;
               match stdin_error env t pipe with
               | Some e => raise e
               | None =>
                   log (EvStdin pipe (input_text ++ nl)) ;;;
                   capture_threads env ;;;
                   reg1 <- gets background_processes ;;
                   info <- getitem process_id reg1 ;;
                   ret (VDict [("success", VBool true);
                               ("message",
                                VStr ("Input sent to process "
                                      ++ process_id));
                               ("stdout", VStr (stdout info));
                               ("stderr", VStr (stderr info))])
               end
           end)
          (fun e => ret (error_result (exc_str e)))
    | Some _ =>
        ret (error_result ("Process " ++ process_id ++ " is not running"))
    end.

(** ** Files *)

Definition file_content (path : string) (s : term) : string :=
  match Dict.get path (files s) with Some c => c | None => "" end.

Definition write_file (env : Env) (path content : string)
  : M term pyval :=
  try_except
    (log (EvWriteFile path content) ;;;
     t <- tick ;;
     match io env t path with
     | OpenFails e => raise e
     | WriteFails e =>
         modify (fun s => set_files (Dict.set path "" (files s)) s) ;;;
         raise e
     | NoFault =>
         modify (fun s => set_files (Dict.set path content (files s)) s) ;;;
         ret (VDict [("success", VBool true);
                     ("message",
                      VStr ("File " ++ path ++ " written successfully"))])
     end)
    (fun e => ret (error_result (exc_str e))).

Definition append_to_file (env : Env) (path content : string)
  : M term pyval :=
  try_except
    (log (EvAppendFile path content) ;;;
     t <- tick ;;
     match io env t path with
     | OpenFails e => raise e
     | WriteFails e =>
         modify (fun s =>
           set_files (Dict.set path (file_content path s) (files s)) s) ;;;
         raise e
     | NoFault =>
         modify (fun s =>
           set_files (Dict.set path (file_content path s ++ content)
                               (files s)) s) ;;;
         ret (VDict [("success", VBool true);
                     ("message",
                      VStr ("Content appended to " ++ path
                            ++ " successfully"))])
     end)
    (fun e => ret (error_result (exc_str e))).

Definition get_file_contents (env : Env) (path : string)
  : M term pyval :=
  try_except
    (t <- tick ;;
     match io env t path with
     | OpenFails e | WriteFails e => raise e
     | NoFault =>
         s <- gets files ;;
         match Dict.get path s with
         | Some c => ret (VStr c)
         | None =>
             raise (Exc "FileNotFoundError"
                      ("[Errno 2] No such file or directory: '"
                       ++ path ++ "'"))
         end
     end)
    (fun e => ret (error_result (exc_str e))).

(** The tools that only walk directories and read files
    ([get_files_and_dirs_at_path], [get_functions_and_classes],
    [get_function_content], [get_file_contents_of_type]) catch every
    exception themselves and change nothing; their value is read from the
    environment. *)
Definition read_only_tool (env : Env) (method : string)
  (args : list string) : M term pyval :=
  t <- tick ;;
  ret (fs_query env t method args).

End Terminal.

(* ================================================================== *)
(** * The tool registry ([Tools]) *)
(* ================================================================== *)

Module Tools.
Import PyStr World Terminal.
Local Open Scope py_scope.

(** A registered handler: the method's name, and its parameters with
    [true] for a required one. *)
Definition available_tools : Dict.t (string * list (string * bool)) :=
  [("terminal.run_command",
    ("run_command", [("command", true); ("timeout", false)]));
   ("terminal.start_background_process",
    ("start_background_process", [("command", true)]));
   ("terminal.list_background_processes",
    ("list_background_processes", []));
   ("terminal.get_process_output",
    ("get_process_output", [("process_id", true)]));
   ("terminal.stop_background_process",
    ("stop_background_process", [("process_id", true)]));
   ("terminal.send_input_to_process",
    ("send_input_to_process", [("process_id", true); ("input_text", true)]));
   ("terminal.get_files_and_dirs_at_path",
    ("get_files_and_dirs_at_path", [("path", true)]));
   ("terminal.get_functions_and_classes",
    ("get_functions_and_classes",
     [("path", true); ("file_extension", false)]));
   ("terminal.get_function_content",
    ("get_function_content", [("path", true); ("function_name", true)]));
   ("terminal.get_file_contents",
    ("get_file_contents", [("path", true)]));
   ("terminal.get_file_contents_of_type",
    ("get_file_contents_of_type", [("path", true); ("file_type", true)]));
   ("terminal.write_file",
    ("write_file", [("path", true); ("content", true)]));
   ("terminal.append_to_file",
    ("append_to_file", [("path", true); ("content", true)]))].

Definition type_error (method what : string) : exc :=
  Exc "TypeError" ("Terminal_for_agent." ++ method ++ "() " ++ what).

(** The names in the message of a call with missing arguments. *)
Definition missing_names (names : list string) : string :=
  match names with
  | [a] => "1 required positional argument: '" ++ a ++ "'"
  | [a; b] =>
      "2 required positional arguments: '" ++ a ++ "' and '" ++ b ++ "'"
  | _ =>
      PyStr.of_Z (Z.of_nat (List.length names))
      ++ " required positional arguments: '"
      ++ PyStr.join "', '" names ++ "'"
  end.

(** Calling the handler with the parameters as keyword arguments: binding
    fails on a keyword the method does not have and on required
    parameters that are not given. *)
Definition bind_arguments {St} (method : string)
  (signature : list (string * bool)) (parameters : Dict.t string)
  : M St unit :=
  match filter (fun k => negb (Dict.mem k signature)) (Dict.keys parameters)
  with
  | k :: _ =>
      raise (type_error method
               ("got an unexpected keyword argument '" ++ k ++ "'"))
  | [] =>
      match filter (fun p => snd p && negb (Dict.mem (fst p) parameters))
                   signature with
      | [] => ret tt
      | missing =>
          raise (type_error method
                   ("missing " ++ missing_names (map fst missing)))
      end
  end.

Definition arg (k : string) (parameters : Dict.t string) : string :=
  match Dict.get k parameters with Some v => v | None => "" end.

(** The bound method behind each registry entry. *)
Definition handler (env : Env) (method : string)
  (parameters : Dict.t string) : M term pyval :=
  let a k := arg k parameters in
  if String.eqb method "run_command" then
    run_command env (a "command")
      (match Dict.get "timeout" parameters with
       | Some s => TimeoutStr s
       | None => TimeoutInt 10
       end)
  else if String.eqb method "start_background_process" then
    start_background_process env (a "command")
  else if String.eqb method "list_background_processes" then
    r <- list_background_processes env ;; ret (VDict r)
  else if String.eqb method "get_process_output" then
    get_process_output env (a "process_id")
  else if String.eqb method "stop_background_process" then
    stop_background_process env (a "process_id")
  else if String.eqb method "send_input_to_process" then
    send_input_to_process env (a "process_id") (a "input_text")
  else if String.eqb method "get_file_contents" then
    get_file_contents env (a "path")
  else if String.eqb method "write_file" then
    write_file env (a "path") (a "content")
  else if String.eqb method "append_to_file" then
    append_to_file env (a "path") (a "content")
  else if String.eqb method "get_functions_and_classes" then
    read_only_tool env method
      [a "path";
       match Dict.get "file_extension" parameters with
       | Some e => e
       | None => ".py"
       end]
  else if String.eqb method "get_function_content" then
    read_only_tool env method [a "path"; a "function_name"]
  else if String.eqb method "get_file_contents_of_type" then
    read_only_tool env method [a "path"; a "file_type"]
  else
    read_only_tool env method [a "path"].

(** The loop of [run_tool] that completes a name without a dot. *)
Fixpoint complete_name (names : list string) (function_name : string)
  : string :=
  match names with
  | [] => function_name
  | full_name :: rest =>
      if endswith ("." ++ function_name) full_name then full_name
      else complete_name rest function_name
  end.

Definition unknown_function (function_name : string) : pyval :=
  error_result ("Unknown function: " ++ function_name).

Definition run_tool (env : Env) (function_name : string)
  (parameters : Dict.t string) : M term pyval :=
  let function_name :=
    if negb (contains "." function_name)
    then complete_name (Dict.keys available_tools) function_name
    else function_name in
  match Dict.get function_name available_tools with
  | Some (method, signature) =>
      bind_arguments method signature parameters ;;;
      handler env method parameters
  | None => ret (unknown_function function_name)
  end.

End Tools.


(* ================================================================== *)
(** * The agent ([Agent]) *)
(* ================================================================== *)

Module Agent.
Import PyStr World Terminal Extractor.
Local Open Scope py_scope.

(** ** Objects and the history *)

(** A result as a Python variable holds it: a reference to a [dict] object
    in the store, or a value that nothing mutates ([None], a [str], the
    list of a directory). *)
Inductive obj : Type :=
| Ref (l : nat)
| Val (v : pyval).

(** The store of [dict] objects; a reference is an index into it. *)
Definition store : Type := list (Dict.t pyval).

Definition load (l : nat) : M store (Dict.t pyval) :=
  gets (fun h => nth l h Dict.empty).

(** A new object, as made by [d.copy()] or by a dict display. *)
Definition alloc (d : Dict.t pyval) : M store nat :=
  fun h => (Ok (List.length h), (h ++ [d])%list).

Fixpoint update (l : nat) (d : Dict.t pyval) (h : store) : store :=
  match h, l with
  | [], _ => []
  | _ :: r, O => d :: r
  | x :: r, S l' => x :: update l' d r
  end.

(** [result[key] = v] on the object behind a reference. *)
Definition setitem (l : nat) (key : string) (v : pyval) : M store unit :=
  modify (fun h => update l (Dict.set key v (nth l h Dict.empty)) h).

(** [del result[key]] on the object behind a reference. *)
Definition delkey (l : nat) (key : string) : M store unit :=
  modify (fun h => update l (Dict.del key (nth l h Dict.empty)) h).

Record response_error : Type := ResponseError {
  step : Z;
  error : string;
  response : option string
}.

(** The attributes of an [Agent]; [start_time] is [None] while the
    attribute is not set, and [round_trips] counts the requests made to the
    model client. *)
Record agent : Type := Agent_ {
  terminal : term;
  history : list (string * obj);
  response_errors : list response_error;
  heap : store;
  start_time : option Z;
  round_trips : nat
}.

Definition on_terminal {A} (c : M term A) : M agent A :=
  lift terminal
    (fun t a => Agent_ t (history a) (response_errors a) (heap a)
                       (start_time a) (round_trips a)) c.

Definition on_heap {A} (c : M store A) : M agent A :=
  lift heap
    (fun h a => Agent_ (terminal a) (history a) (response_errors a) h
                       (start_time a) (round_trips a)) c.

(** ** Building the prompt (the history replay of [execute_step]) *)

Definition truncation_marker : string := "... [output truncated]".

(** One of the two [if] statements of the replay loop, for [key] one of
    ["stdout"] and ["stderr"]: the local variable [result] is rebound to a
    copy, and the copy is updated. *)
Definition truncate_field (key : string) (result : obj) : M store obj :=
  match result with
  | Ref l =>
      d <- load l ;;
      if is_str_longer 500 (Dict.get key d) then
        l' <- alloc d ;;
        d' <- load l' ;;
        match Dict.get key d' with
        | Some (VStr s) =>
            setitem l' key (VStr (slice s 0 500 ++ truncation_marker)) ;;;
            ret (Ref l')
        | _ => ret (Ref l')
        end
      else ret result
  | Val (VDict d) =>
      if is_str_longer 500 (Dict.get key d) then
        match Dict.get key d with
        | Some (VStr s) =>
            ret (Val (VDict (Dict.set key
                   (VStr (slice s 0 500 ++ truncation_marker)) d)))
        | _ => ret result
        end
      else ret result
  | Val _ => ret result
  end.

(** [json.dumps(result, indent=2) if isinstance(result, dict) else
    str(result)] *)
Definition render (env : Env) (result : obj) : M store string :=
  match result with
  | Ref l => d <- load l ;; ret (json_dumps env (VDict d))
  | Val (VDict d) => ret (json_dumps env (VDict d))
  | Val v => ret (py_str env v)
  end.

(** The loop over [enumerate(self.history, 1)]. *)
Fixpoint replay (env : Env) (i : Z) (entries : list (string * obj))
  (history_text : string) : M store string :=
  match entries with
  | [] => ret history_text
  | (function_name, result) :: rest =>
      result <- truncate_field "stdout" result ;;
      result <- truncate_field "stderr" result ;;
      text <- render env result ;;
      replay env (i + 1) rest
        (history_text ++ nl ++ "Step " ++ of_Z i ++ ": " ++ function_name
         ++ ", Result: " ++ text)
  end.

Definition build_history_text (env : Env) (entries : list (string * obj))
  : M store string :=
  replay env 1 entries "".

Definition user_message (task : string) (step_num : Z) (cwd_ : string)
  (history_text : string) : string :=
  nl ++ "Task: " ++ task ++ nl ++ nl
  ++ "Current step: " ++ of_Z step_num ++ nl
  ++ "Current working directory: " ++ cwd_ ++ nl
  ++ history_text ++ nl ++ nl
  ++ "Decide on the next step, or mark the task as complete." ++ nl.

(** ** [format_function_call] *)

Definition dquote : string := String (ascii_of_nat 34) "".

Definition format_value (value : string) : string :=
  if (50 <? len value)%Z
  then dquote ++ slice value 0 47 ++ "..." ++ dquote
  else dquote ++ value ++ dquote.

Definition format_function_call (function_name : string)
  (parameters_ : Dict.t string) : string :=
  match parameters_ with
  | [] => function_name ++ "()"
  | _ =>
      function_name ++ "("
      ++ join ", " (map (fun kv => fst kv ++ "=" ++ format_value (snd kv))
                        parameters_)
      ++ ")"
  end.

(** ** [run_function] and [chunk_large_file_operations] *)

Definition str_in (x : string) (l : list string) : bool :=
  existsb (String.eqb x) l.

Definition bare_names : list string :=
  ["write_file"; "append_to_file"; "run_command"; "start_background_process";
   "list_background_processes"; "get_process_output";
   "stop_background_process"; "send_input_to_process";
   "get_files_and_dirs_at_path"; "get_file_contents";
   "get_file_contents_of_type"; "get_all_functions_and_class_names"].

Definition file_actions : list string :=
  ["terminal.write_file"; "terminal.append_to_file"].

(** [len(range(start, stop, step))] for a non-zero step. *)
Definition range_length (start stop step : Z) : nat :=
  if (0 <? step)%Z
  then Z.to_nat ((stop - start + step - 1) / step)
  else Z.to_nat ((start - stop - step - 1) / (- step)).

(** [range(start, stop, step)] *)
Definition py_range {St} (start stop step : Z) : M St (list Z) :=
  if (step =? 0)%Z
  then raise (Exc "ValueError" "range() arg 3 must not be zero")
  else ret (map (fun k => (start + Z.of_nat k * step)%Z)
                (seq 0 (range_length start stop step))).

(** [[content[i:i + chunk_size] for i in range(0, len(content),
    chunk_size)]] *)
Definition content_chunks {St} (content : string) (chunk_size : Z)
  : M St (list string) :=
  offsets <- py_range 0 (len content) chunk_size ;;
  ret (map (fun i => slice content i (i + chunk_size)) offsets).

(** The loop over the chunks; [Some result] is the early [return result]. *)
Fixpoint append_chunks (env : Env) (path : string) (chunks : list string)
  : M term (option pyval) :=
  match chunks with
  | [] => ret None
  | chunk :: rest =>
      result <- append_to_file env path chunk ;;
      match result with
      | VDict d =>
          if Dict.mem "error" d then ret (Some result)
          else append_chunks env path rest
      | _ => append_chunks env path rest
      end
  end.

Definition chunked_success (path : string) (n : nat) : pyval :=
  VDict [("success", VBool true);
         ("message",
          VStr ("File " ++ path ++ " written successfully in "
                ++ of_Z (Z.of_nat n) ++ " chunks"))].

(** [chunk_large_file_operations], with the method it falls back to
    ([self.run_function]) as an argument. *)
Definition chunk_large_file_operations_with
  (run_function_ : string -> Dict.t string -> M agent pyval)
  (env : Env) (function_name : string) (parameters_ : Dict.t string)
  (chunk_size : Z) : M agent pyval :=
  if str_in function_name file_actions && Dict.mem "content" parameters_
  then
    let content := Tools.arg "content" parameters_ in
    let path := Tools.arg "path" parameters_ in
    if (chunk_size <? len content)%Z then
      (if String.eqb function_name "terminal.write_file"
       then on_terminal (write_file env path "") ;;; ret tt
       else ret tt) ;;;
      chunks <- content_chunks content chunk_size ;;
      early <- on_terminal (append_chunks env path chunks) ;;
      match early with
      | Some result => ret result
      | None => ret (chunked_success path (List.length chunks))
      end
    else run_function_ function_name parameters_
  else run_function_ function_name parameters_.

(** [function_name.split(".", 1)[1]] *)
Definition method_name_of {St} (function_name : string) : M St string :=
  match split_once "." function_name with
  | _ :: m :: _ => ret m
  | _ => raise (Exc "IndexError" "list index out of range")
  end.

(** [run_function]; [depth] bounds the mutual recursion with
    [chunk_large_file_operations]. *)
Fixpoint run_function_at (depth : nat) (env : Env) (function_name : string)
  (parameters_ : Dict.t string) : M agent pyval :=
  match depth with
  | O => out_of_fuel
  | S depth' =>
      let function_name :=
        if str_in function_name bare_names
        then "terminal." ++ function_name else function_name in
      if startswith "terminal." function_name then
        method_name <- method_name_of function_name ;;
        let run_tool_ :=
          on_terminal (Tools.run_tool env function_name parameters_) in
        if str_in method_name ["write_file"; "append_to_file"]
           && Dict.mem "content" parameters_
        then
          let content_size := len (Tools.arg "content" parameters_) in
          if (50000 <? content_size)%Z then
            if (100000 <? content_size)%Z
            then chunk_large_file_operations_with
                   (run_function_at depth' env) env function_name
                   parameters_ 50000
            else run_tool_
          else run_tool_
        else run_tool_
      else ret (Tools.unknown_function function_name)
  end.

Definition run_function (env : Env) : string -> Dict.t string -> M agent pyval :=
  run_function_at 2 env.

Definition chunk_large_file_operations (env : Env) (function_name : string)
  (parameters_ : Dict.t string) (chunk_size : Z) : M agent pyval :=
  chunk_large_file_operations_with (run_function env) env function_name
    parameters_ chunk_size.

(** ** [Formatter.print_result], as far as it acts on the result object *)

(** The name of the type of a value, as error messages show it. *)
Definition type_name (v : pyval) : string :=
  match v with
  | VNone => "NoneType"
  | VBool _ => "bool"
  | VInt _ => "int"
  | VStr _ => "str"
  | VList _ => "list"
  | VDict _ => "dict"
  end.

Definition no_split (v : pyval) : exc :=
  Exc "AttributeError"
      ("'" ++ type_name v ++ "' object has no attribute 'split'").

(** [len(stdout)] and then [stdout.split(...)] on the value under
    ["stdout"]. *)
Definition require_len_split {St} (v : pyval) : M St unit :=
  match v with
  | VStr _ => ret tt
  | VList _ | VDict _ => raise (no_split v)
  | _ => raise (Exc "TypeError"
                  ("object of type '" ++ type_name v ++ "' has no len()"))
  end.

(** [stderr.split(...)] on the value under ["stderr"]. *)
Definition require_split {St} (v : pyval) : M St unit :=
  match v with
  | VStr _ => ret tt
  | _ => raise (no_split v)
  end.

(** The branch of [print_result] for a dict behind reference [l]:
    [result_copy] is a copy without ["stdout"] when the output is shown, and
    the result itself otherwise; ["stderr"] is then deleted from
    [result_copy]. *)
Definition print_result_dict (l : nat) : M store unit :=
  d <- load l ;;
  if Dict.mem "error" d then ret tt
  else
    result_copy <-
      match Dict.get "stdout" d with
      | Some v =>
          if truth v then
            require_len_split v ;;;
            l' <- alloc d ;;
            delkey l' "stdout" ;;;
            ret l'
          else ret l
      | None => ret l
      end ;;
    match Dict.get "stderr" d with
    | Some v =>
        if truth v then
          require_split v ;;;
          copy <- load result_copy ;;
          if Dict.mem "stderr" copy then delkey result_copy "stderr"
          else ret tt
        else ret tt
    | None => ret tt
    end.

Definition print_result (result : obj) : M store unit :=
  match result with
  | Ref l => print_result_dict l
  | Val (VDict d) => l <- alloc d ;; print_result_dict l
  | Val _ => ret tt
  end.

(** ** [execute_step] *)

(** What one pass through the body of a [while] loop does next. *)
Inductive flow (A : Type) : Type :=
| Continue
| Return (a : A).
Arguments Continue {A}.
Arguments Return {A} a.

(** The tuple [(done, thought, function_call, result)]. *)
Definition step_tuple : Type := (bool * string * option string * obj)%type.

Definition of_outcome {St A} (o : outcome A) : M St A := fun s => (o, s).

(** A tool result becomes an object: a dict is a new object in the store. *)
Definition to_obj (v : pyval) : M store obj :=
  match v with
  | VDict d => l <- alloc d ;; ret (Ref l)
  | _ => ret (Val v)
  end.

(** The completion handling, also the cleanup of [solve_task]:
    [processes = self.terminal.list_background_processes()] and a stop for
    each listed id. *)
Definition stop_all (env : Env) : M agent unit :=
  processes <- on_terminal (list_background_processes env) ;;
  for_each (Dict.keys processes)
    (fun process_id =>
       on_terminal (stop_background_process env process_id) ;;; ret tt).

(** The validity gate:
    [not decision or (not decision.get("function") and
     not decision.get("task_complete", False))]. *)
Definition invalid (d : decision) : bool :=
  negb (nonempty d) || (negb (has_function d) && negb (get_task_complete d)).

(** One round trip; the request is counted whether or not it raises. *)
Definition request (env : Env) (message : string) : M agent string :=
  n <- gets round_trips ;;
  modify (fun a => Agent_ (terminal a) (history a) (response_errors a)
                     (heap a) (start_time a) (S (round_trips a))) ;;;
  match llm env n message with
  | ReplyText content => ret content
  | ReplyRaises e => raise e
  end.

Definition parse_failure (diagnostic : string) : string :=
  "Failed to extract valid response structure: " ++ diagnostic.

Definition no_function_error : string :=
  "No function specified but task not marked as complete".

(** The [try] block of one attempt, after the reply text is known. *)
Definition dispatch (env : Env) (max_retries retry_count : Z)
  (content : string) : M agent (flow step_tuple) :=
  dd <- of_outcome (extract_response_from_tags content) ;;
  let (decision_, diagnostic) := (dd : decision * string) in
  if invalid decision_ then
    let error_message := parse_failure diagnostic in
    if (retry_count <? max_retries)%Z then ret Continue
    else ret (Return (false, "", None, Val (error_result error_message)))
  else if has_function decision_ && negb (get_task_complete decision_) then
    let function_name :=
      match get_function decision_ with Some f => f | None => "" end in
    let parameters_ := get_parameters decision_ in
    let formatted_call := format_function_call function_name parameters_ in
    r <- run_function env function_name parameters_ ;;
    result <- on_heap (to_obj r) ;;
    modify (fun a => Agent_ (terminal a)
                       (history a ++ [(formatted_call, result)])
                       (response_errors a) (heap a) (start_time a)
                       (round_trips a)) ;;;
    ret (Return (false, get_thought decision_, Some formatted_call, result))
  else if get_task_complete decision_ then
    stop_all env ;;;
    ret (Return (true, get_thought decision_, None, Val VNone))
  else
    ret (Return (false, get_thought decision_, None,
                 Val (error_result no_function_error))).

(** The [except Exception as e] block of one attempt; [content] is the
    local variable as it stands when the exception arrives. *)
Definition on_exception (step_num max_retries retry_count : Z)
  (content : option string) (e : exc) : M agent (flow step_tuple) :=
  let error_message := "Error processing step: " ++ exc_str e in
  if (retry_count <? max_retries)%Z then ret Continue
  else
    modify (fun a => Agent_ (terminal a) (history a)
                       (response_errors a
                        ++ [ResponseError step_num (exc_str e) content])
                       (heap a) (start_time a) (round_trips a)) ;;;
    ret (Return (false, "", None, Val (error_result error_message))).

(** The retry loop [while retry_count <= max_retries].  [content] is the
    local variable of that name, which keeps the text of an earlier attempt
    when a later request raises.  A loop that ends by its condition falls
    off the end of the method, which then returns [None]. *)
Fixpoint attempts (env : Env) (message : string)
  (step_num max_retries : Z) (fuel : nat) (retry_count : Z)
  (content : option string) : M agent (option step_tuple) :=
  if (retry_count <=? max_retries)%Z then
    match fuel with
    | O => out_of_fuel
    | S fuel' =>
        n <- gets round_trips ;;
        let content' :=
          match llm env n message with
          | ReplyText c => Some c
          | ReplyRaises _ => content
          end in
        f <- try_except
               (c <- request env message ;;
                dispatch env max_retries retry_count c)
               (on_exception step_num max_retries retry_count content') ;;
        match f with
        | Continue =>
            attempts env message step_num max_retries fuel'
                     (retry_count + 1) content'
        | Return r => ret (Some r)
        end
    end
  else ret None.

Definition execute_step (env : Env) (task : string)
  (step_num max_steps max_retries : Z) : M agent (option step_tuple) :=
  history_ <- gets history ;;
  history_text <- on_heap (build_history_text env history_) ;;
  cwd_ <- gets (fun a => cwd (terminal a)) ;;
  attempts env (user_message task step_num cwd_ history_text)
           step_num max_retries (Z.to_nat (max_retries + 1)) 0 None.

(** ** [solve_task] *)

(** The body of [while step <= max_steps]. *)
Definition task_step (env : Env) (task : string) (step_ max_steps : Z)
  : M agent (flow bool) :=
  r <- execute_step env task step_ max_steps 2 ;;
  match r with
  | None =>
      raise (Exc "TypeError" "cannot unpack non-iterable NoneType object")
  | Some (done, _, function_call, result) =>
      match function_call with
      | Some c => if PyStr.truthy c then on_heap (print_result result)
                  else ret tt
      | None => ret tt
      end ;;;
      if (done : bool) then
        st <- gets start_time ;;
        match st with
        | None =>
            raise (Exc "AttributeError"
                     "'Agent' object has no attribute 'start_time'")
        | Some _ => ret (Return true)
        end
      else ret Continue
  end.

Fixpoint task_loop (env : Env) (task : string) (max_steps : Z)
  (fuel : nat) (step_ : Z) : M agent bool :=
  if (step_ <=? max_steps)%Z then
    match fuel with
    | O => out_of_fuel
    | S fuel' =>
        f <- task_step env task step_ max_steps ;;
        match f with
        | Return b => ret b
        | Continue => task_loop env task max_steps fuel' (step_ + 1)
        end
    end
  else ret false.

(** The [finally] block. *)
Definition cleanup (env : Env) : M agent unit := stop_all env.

Definition solve_task (env : Env) (task : string) (max_steps : Z)
  : M agent bool :=
  try_finally (task_loop env task max_steps (Z.to_nat max_steps) 1)
              (cleanup env).

End Agent.

(* ================================================================== *)
(** * The tools that inspect files ([Terminal_for_agent], second part) *)
(* ================================================================== *)

Module Inspect.
Import PyStr World Terminal.
Local Open Scope py_scope.

(** How [os.listdir(path)] ends. *)
Inductive listing : Type :=
| Entries (names : list string)
| ListingRaises (e : exc).

(** [os.path.join(a, b)] on a POSIX system. *)
Definition path_join (a b : string) : string :=
  if startswith "/" b then b
  else if String.eqb a "" || endswith "/" a then a ++ b
  else a ++ "/" ++ b.

(** [with open(path, 'r') as file: file.read()], on the files of the
    terminal's world. *)
Definition read_file (env : Env) (path : string) : M term string :=
  t <- tick ;;
  match io env t path with
  | OpenFails e | WriteFails e => raise e
  | NoFault =>
      s <- gets files ;;
      match Dict.get path s with
      | Some c => ret c
      | None =>
          raise (Exc "FileNotFoundError"
                   ("[Errno 2] No such file or directory: '" ++ path ++ "'"))
      end
  end.

(** [f.readlines()] on the text of a file: every line keeps its line
    break. *)
Fixpoint readlines (text : string) : list string :=
  match text with
  | "" => []
  | String c r =>
      if Ascii.eqb c newline then String c "" :: readlines r
      else match readlines r with
           | [] => [String c ""]
           | l :: ls => String c l :: ls
           end
  end.

(** [s.find(sub) if sub in s else len(s)] *)
Definition find_or_len (sub s : string) : Z :=
  match find sub s with
  | Some i => Z.of_nat i
  | None => len s
  end.

(** The body of the loop over the lines of one file. *)
Definition scan_line (line : string) (functions classes : list string)
  : list string * list string :=
  let line := strip line in
  if startswith "def " line && contains "(" line then
    let func_name := strip (slice line 4 (find_or_len "(" line)) in
    (functions ++ [func_name], classes)%list
  else if startswith "class " line
          && (contains ":" line || contains "(" line) then
    let end_marker := Z.min (find_or_len "(" line) (find_or_len ":" line) in
    let class_name := strip (slice line 6 end_marker) in
    (functions, classes ++ [class_name])%list
  else (functions, classes).

Fixpoint scan_lines (lines : list string) (functions classes : list string)
  : list string * list string :=
  match lines with
  | [] => (functions, classes)
  | line :: rest =>
      let (functions, classes) := scan_line line functions classes in
      scan_lines rest functions classes
  end.

(** ** The search of [get_function_content]

    The pattern, searched with DOTALL, is: the start of the text or a line
    break (group 1); any white space (group 2); [def]; white space, at
    least one character; the escaped function name; any white space; an
    opening parenthesis; as few characters as possible; a closing
    parenthesis and a colon. *)

(** The length of the white space at the start of [s]. *)
Fixpoint span_space (s : string) : nat :=
  match s with
  | String c r => if is_space c then S (span_space r) else 0
  | "" => 0
  end.

(** The name, any white space, an opening parenthesis and, somewhere
    after it, a closing parenthesis with a colon, at the start of [s]. *)
Definition name_then_args (name s : string) : bool :=
  startswith name s
  && match lstrip (drop (String.length name) s) with
     | String c r => Ascii.eqb c "(" && contains "):" r
     | "" => false
     end.

(** White space and then the name with its arguments, at the start of
    [s]; [seen] tells that one white-space character has been read. *)
Fixpoint after_def (name : string) (seen : bool) (s : string) : bool :=
  (seen && name_then_args name s)
  || match s with
     | String c r => is_space c && after_def name true r
     | "" => false
     end.

(** The pattern from its second group on, at the start of [s], as
    [group(2)].  The group takes all the white space there is: the next
    character of the pattern is not white space. *)
Definition def_here (name s : string) : option string :=
  let k := span_space s in
  let r := drop k s in
  if startswith "def" r && after_def name false (drop 3 r)
  then Some (take k s) else None.

(** The leftmost match, as [(match.start(), match.group(2))]: the first
    group is the start of the text (at position 0 only) or a line break. *)
Fixpoint search_from (name : string) (at_start : bool) (pos : nat)
  (s : string) : option (nat * string) :=
  match (if at_start then def_here name s else None) with
  | Some indentation => Some (pos, indentation)
  | None =>
      match s with
      | "" => None
      | String c r =>
          match (if Ascii.eqb c newline then def_here name r else None) with
          | Some indentation => Some (pos, indentation)
          | None => search_from name false (S pos) r
          end
      end
  end.

Definition search_def (name content : string) : option (nat * string) :=
  search_from name true 0 content.

Definition tab : string := String (ascii_of_nat 9) "".

(** The loop over [lines[1:]]; it ends at the [break]. *)
Fixpoint keep_lines (indentation : string) (lines : list string)
  : list string :=
  match lines with
  | [] => []
  | line :: rest =>
      if String.eqb (strip line) ""
         || startswith (indentation ++ " ") line
         || startswith (indentation ++ tab) line
      then line :: keep_lines indentation rest
      else if negb (String.eqb (strip line) "")
              && negb (startswith indentation line)
      then []
      else keep_lines indentation rest
  end.

Section FileSystem.
Variable env : Env.
(** The directory oracles, indexed by the logical clock like the others. *)
Variable listdir : nat -> string -> listing.
Variable path_exists : nat -> string -> bool.

Definition get_files_and_dirs_at_path (path : string) : M term pyval :=
  try_except
    (t <- tick ;;
     match listdir t path with
     | Entries names => ret (VList (map VStr names))
     | ListingRaises e => raise e
     end)
    (fun e => ret (error_result (exc_str e))).

(** [isinstance(files, dict) and "error" in files] *)
Definition is_error (v : pyval) : bool :=
  match v with
  | VDict d => Dict.mem "error" d
  | _ => false
  end.

(** What [for file in files] visits. *)
Definition iterate (v : pyval) : M term (list pyval) :=
  match v with
  | VList l => ret l
  | VDict d => ret (map VStr (Dict.keys d))
  | VStr s =>
      ret (map (fun c => VStr (String c "")) (list_ascii_of_string s))
  | _ => raise (Exc "TypeError" "object is not iterable")
  end.

(** [file.endswith(suffix)] on an element of the listing. *)
Definition file_endswith (suffix : string) (file : pyval) : M term bool :=
  match file with
  | VStr f => ret (endswith suffix f)
  | _ => raise (Exc "AttributeError" "object has no attribute 'endswith'")
  end.

Definition file_name (file : pyval) : string :=
  match file with VStr f => f | _ => "" end.

(** The loop of [get_functions_and_classes] over the listing. *)
Fixpoint scan_files (path file_extension : string) (files_ : list pyval)
  (results : Dict.t pyval) : M term (Dict.t pyval) :=
  match files_ with
  | [] => ret results
  | file :: rest =>
      matches <- file_endswith file_extension file ;;
      if (matches : bool) then
        let file_path := path_join path (file_name file) in
        text <- read_file env file_path ;;
        let (functions, classes) := scan_lines (readlines text) [] [] in
        scan_files path file_extension rest
          (Dict.set (file_name file)
             (VDict [("functions", VList (map VStr functions));
                     ("classes", VList (map VStr classes))])
             results)
      else scan_files path file_extension rest results
  end.

Definition get_functions_and_classes (path file_extension : string)
  : M term pyval :=
  try_except
    (files_ <- get_files_and_dirs_at_path path ;;
     if is_error files_ then ret files_
     else
       entries <- iterate files_ ;;
       results <- scan_files path file_extension entries Dict.empty ;;
       ret (VDict results))
    (fun e => ret (error_result (exc_str e))).

Definition get_function_content (path function_name : string)
  : M term pyval :=
  try_except
    (t <- tick ;;
     if negb (path_exists t path)
     then ret (error_result ("File not found: " ++ path))
     else
       content <- read_file env path ;;
       match search_def function_name content with
       | None =>
           ret (error_result ("Function '" ++ function_name
                              ++ "' not found in " ++ path))
       | Some (start_pos, indentation) =>
           let function_start := strip (drop start_pos content) in
           match split_char newline function_start with
           | [] => raise (Exc "IndexError" "list index out of range")
           | first :: rest =>
               ret (VStr (join nl (first :: keep_lines indentation rest)))
           end
       end)
    (fun e =>
       ret (error_result ("Error extracting function: " ++ exc_str e))).

(** The loop of [get_file_contents_of_type]; [Some v] is its
    [return]. *)
Fixpoint first_of_type (path file_type : string) (files_ : list pyval)
  : M term (option pyval) :=
  match files_ with
  | [] => ret None
  | file :: rest =>
      matches <- file_endswith file_type file ;;
      if (matches : bool) then
        v <- get_file_contents env (path_join path (file_name file)) ;;
        ret (Some v)
      else first_of_type path file_type rest
  end.

Definition get_file_contents_of_type (path file_type : string)
  : M term pyval :=
  try_except
    (files_ <- get_files_and_dirs_at_path path ;;
     if is_error files_ then ret files_
     else
       entries <- iterate files_ ;;
       found <- first_of_type path file_type entries ;;
       match found with
       | Some v => ret v
       | None =>
           ret (error_result ("No files with type " ++ file_type
                              ++ " found at " ++ path))
       end)
    (fun e => ret (error_result (exc_str e))).

End FileSystem.

End Inspect.

(* ================================================================== *)
(** * What the registry tells the model ([Tools.get_available_tools]) *)
(* ================================================================== *)

Module Registry.

(** The ["description"] and ["parameters"] entries of the registry, in
    the order of [_register_tools]. *)
Definition registered : Dict.t (string * Dict.t string) :=
  [("terminal.run_command",
    ("Run a command in the terminal with a 10-second timeout. If the "
     ++ "command doesn't complete within the timeout, it continues "
     ++ "running in the background, and the function returns the partial "
     ++ "output.",
     [("command", "string")]));
   ("terminal.start_background_process",
    ("Start a long-running process in the background and return its ID "
     ++ "for future reference. Use this for servers, continuous "
     ++ "processes, or interactive programs.",
     [("command", "string")]));
   ("terminal.list_background_processes",
    ("List all background processes and their status", []));
   ("terminal.get_process_output",
    ("Get the current output from a background process",
     [("process_id", "string")]));
   ("terminal.stop_background_process",
    ("Stop a background process", [("process_id", "string")]));
   ("terminal.send_input_to_process",
    ("Send input to a running background process (for interactive "
     ++ "programs)",
     [("process_id", "string"); ("input_text", "string")]));
   ("terminal.get_files_and_dirs_at_path",
    ("Get all files and directories at a given path",
     [("path", "string")]));
   ("terminal.get_functions_and_classes",
    ("Extract function and class names from files with the given "
     ++ "extension in a directory. This is more token-efficient than "
     ++ "getting full file contents when you only need structure "
     ++ "information.",
     [("path", "string"); ("file_extension", "string")]));
   ("terminal.get_function_content",
    ("Extract the content of a specific function from a file. This is "
     ++ "more token-efficient than loading the entire file when you only "
     ++ "need one function.",
     [("path", "string"); ("function_name", "string")]));
   ("terminal.get_file_contents",
    ("Get the contents of a file. WARNING: For large files, this "
     ++ "consumes many tokens. Consider using get_functions_and_classes "
     ++ "or get_function_content for more targeted extraction.",
     [("path", "string")]));
   ("terminal.get_file_contents_of_type",
    ("Get the contents of a file of a given type. WARNING: For large "
     ++ "files, this consumes many tokens. Consider using "
     ++ "get_function_content for more targeted extraction.",
     [("path", "string"); ("file_type", "string")]));
   ("terminal.write_file",
    ("Write content to a file (overwriting any existing content)",
     [("path", "string"); ("content", "string")]));
   ("terminal.append_to_file",
    ("Append content to an existing file",
     [("path", "string"); ("content", "string")]))].

(** One entry of [tools_description]. *)
Definition describe (tool_info : string * Dict.t string) : pyval :=
  VDict [("description", VStr (fst tool_info));
         ("parameters",
          VDict (map (fun kv => (fst kv, VStr (snd kv))) (snd tool_info)))].

(** The loop over [self.available_tools.items()]. *)
Definition get_available_tools : Dict.t pyval :=
  fold_left (fun tools_description entry =>
               Dict.set (fst entry) (describe (snd entry)) tools_description)
            registered Dict.empty.

End Registry.

(* ================================================================== *)
(** * Facts about strings and dictionaries *)
(* ================================================================== *)

Module PyStrFacts.
Import PyStr.

Lemma length_take (n : nat) (s : string) :
  String.length (take n s) = Nat.min n (String.length s).
Proof.
  revert s; induction n as [|n IH]; intros [|c r]; simpl; auto.
Qed.

Lemma length_drop (n : nat) (s : string) :
  String.length (drop n s) = String.length s - n.
Proof.
  revert s; induction n as [|n IH]; intros [|c r]; simpl; auto.
Qed.




Lemma take_min (n : nat) (s : string) :
  take (Nat.min n (String.length s)) s = take n s.
Proof.
  revert s; induction n as [|n IH]; intros [|c r]; simpl; auto.
  f_equal; apply IH.
Qed.

(** A slice with bounds inside the string, in terms of [take] and [drop]. *)
Lemma slice_window (s : string) (a c : nat) :
  a <= String.length s ->
  slice s (Z.of_nat a) (Z.of_nat a + Z.of_nat c) = take c (drop a s).
Proof.
  intros Ha. unfold slice, clamp, len.
  destruct (Z.ltb_spec (Z.of_nat a) 0); [lia|].
  destruct (Z.ltb_spec (Z.of_nat a + Z.of_nat c) 0); [lia|].
  rewrite (Z.min_l (Z.of_nat a)) by lia.
  rewrite Nat2Z.id.
  rewrite <- (take_min c (drop a s)), length_drop.
  f_equal. lia.
Qed.

(** A line that contains the separator splits into exactly two parts. *)
Lemma split_once_found (c : ascii) (s : string) :
  contains (String c "") s = true ->
  exists k v, split_once c s = [k; v].
Proof.
  unfold contains, find.
  induction s as [|a r IH]; simpl; [discriminate|].
  destruct (ascii_dec c a) as [->|Hne].
  - rewrite Ascii.eqb_refl. intros _. eauto.
  - destruct (Ascii.eqb_spec a c) as [->|_]; [congruence|].
    destruct (index 0 (String c "") r); [|discriminate].
    intros _. destruct IH as (k & v & ->); [reflexivity|]. eauto.
Qed.

(** A qualified name splits at its first dot. *)
Lemma split_once_terminal (f : string) :
  startswith "terminal." f = true ->
  split_once "." f = ["terminal"; drop 9 f].
Proof.
  unfold startswith.
  intros H.
  do 9 (destruct f as [|? f]; cbn [prefix] in H; [discriminate|];
        match type of H with
        | context [ascii_dec ?x ?y] =>
            destruct (ascii_dec x y) as [<-|]; [|discriminate]
        end).
  reflexivity.
Qed.

Lemma append_nil_r (s : string) : s ++ "" = s.
Proof. induction s as [|c r IH]; simpl; [reflexivity | now rewrite IH]. Qed.

Lemma append_assoc (a b c : string) : (a ++ b) ++ c = a ++ b ++ c.
Proof. induction a as [|x r IH]; simpl; [reflexivity | now rewrite IH]. Qed.

End PyStrFacts.

Module DictFacts.

Lemma get_del_same {V} (k : string) (d : Dict.t V) :
  Dict.get k (Dict.del k d) = None.
Proof.
  induction d as [|[k' v] r IH]; simpl; [reflexivity|].
  destruct (String.eqb_spec k k') as [->|Hne]; [exact IH|].
  simpl. destruct (String.eqb_spec k k'); [contradiction | exact IH].
Qed.

Lemma get_del_other {V} (k k' : string) (d : Dict.t V) :
  k <> k' -> Dict.get k (Dict.del k' d) = Dict.get k d.
Proof.
  intros Hne. induction d as [|[k0 v] r IH]; simpl; [reflexivity|].
  destruct (String.eqb_spec k' k0) as [->|H0].
  - destruct (String.eqb_spec k k0); [contradiction | exact IH].
  - simpl. destruct (String.eqb_spec k k0); [reflexivity | exact IH].
Qed.

Lemma get_set_same {V} (k : string) (v : V) (d : Dict.t V) :
  Dict.get k (Dict.set k v d) = Some v.
Proof.
  induction d as [|[k' v'] r IH]; simpl.
  - now rewrite String.eqb_refl.
  - destruct (String.eqb_spec k k') as [->|Hne]; simpl.
    + now rewrite String.eqb_refl.
    + destruct (String.eqb_spec k k'); [contradiction | exact IH].
Qed.

Lemma get_set_other {V} (k k' : string) (v : V) (d : Dict.t V) :
  k <> k' -> Dict.get k (Dict.set k' v d) = Dict.get k d.
Proof.
  intros Hne. induction d as [|[k0 v0] r IH]; simpl.
  - destruct (String.eqb_spec k k'); [contradiction | reflexivity].
  - destruct (String.eqb_spec k' k0) as [->|H0]; simpl.
    + destruct (String.eqb_spec k k0); [contradiction | reflexivity].
    + destruct (String.eqb_spec k k0); [reflexivity | exact IH].
Qed.

Lemma mem_del_same {V} (k : string) (d : Dict.t V) :
  Dict.mem k (Dict.del k d) = false.
Proof. unfold Dict.mem. now rewrite get_del_same. Qed.

Lemma get_In {V} (k : string) (v : V) (d : Dict.t V) :
  Dict.get k d = Some v -> In (k, v) d.
Proof.
  induction d as [|[k' v'] r IH]; simpl; [discriminate|].
  destruct (String.eqb_spec k k') as [->|Hne].
  - intros [= ->]. now left.
  - intros H. right. now apply IH.
Qed.

Lemma In_get {V} (k : string) (v : V) (d : Dict.t V) :
  Dict.wf d -> In (k, v) d -> Dict.get k d = Some v.
Proof.
  unfold Dict.wf, Dict.keys.
  induction d as [|[k' v'] r IH]; simpl; [contradiction|].
  intros Hnd [[= -> ->]|Hin].
  - now rewrite String.eqb_refl.
  - inversion Hnd as [|? ? Hnotin Hnd']; subst.
    destruct (String.eqb_spec k k') as [->|Hne]; [|now apply IH].
    exfalso. apply Hnotin. now apply (in_map fst) in Hin.
Qed.

Lemma keys_del_incl {V} (k x : string) (d : Dict.t V) :
  In x (Dict.keys (Dict.del k d)) -> In x (Dict.keys d).
Proof.
  unfold Dict.keys.
  induction d as [|[k' v'] r IH]; simpl; [auto|].
  destruct (String.eqb_spec k k'); simpl; intuition.
Qed.

Lemma wf_del {V} (k : string) (d : Dict.t V) :
  Dict.wf d -> Dict.wf (Dict.del k d).
Proof.
  unfold Dict.wf.
  induction d as [|[k' v'] r IH]; simpl; [auto|].
  intros Hnd. inversion Hnd as [|? ? Hnotin Hnd']; subst.
  destruct (String.eqb_spec k k'); [now apply IH|].
  simpl. constructor; [|now apply IH].
  intros Hin. apply Hnotin. now apply keys_del_incl in Hin.
Qed.

Lemma keys_set {V} (k x : string) (v : V) (d : Dict.t V) :
  In x (Dict.keys (Dict.set k v d)) -> x = k \/ In x (Dict.keys d).
Proof.
  unfold Dict.keys.
  induction d as [|[k' v'] r IH]; simpl.
  - intuition.
  - destruct (String.eqb_spec k k'); simpl; intuition.
Qed.

Lemma wf_set {V} (k : string) (v : V) (d : Dict.t V) :
  Dict.wf d -> Dict.wf (Dict.set k v d).
Proof.
  unfold Dict.wf.
  induction d as [|[k' v'] r IH]; simpl.
  - intros _. repeat constructor. simpl. tauto.
  - intros Hnd. inversion Hnd as [|? ? Hnotin Hnd']; subst.
    destruct (String.eqb_spec k k') as [->|Hne]; simpl.
    + now constructor.
    + constructor; [|now apply IH].
      intros Hin. apply keys_set in Hin. destruct Hin; [congruence|].
      now apply Hnotin.
Qed.

Lemma keys_map_snd {V W} (f : string * V -> W) (d : Dict.t V) :
  Dict.keys (map (fun kv => (fst kv, f kv)) d) = Dict.keys d.
Proof.
  unfold Dict.keys. rewrite map_map. reflexivity.
Qed.

End DictFacts.

(* ================================================================== *)
(** * The response extractor never raises *)
(* ================================================================== *)

Module ExtractorSpec.
Import PyStr Extractor.

(** The loop over the parameter lines never raises: a line is unpacked only
    when it contains the separator, and then it splits in two. *)
Lemma parse_param_lines_ok (lines : list string) (acc : Dict.t string) :
  exists p, parse_param_lines lines acc = Ok p.
Proof.
  revert acc; induction lines as [|line rest IH]; intros acc; simpl.
  - eauto.
  - destruct (contains ":" line) eqn:Hc; [|apply IH].
    destruct (PyStrFacts.split_once_found ":" line Hc) as (k & v & ->).
    simpl. apply IH.
Qed.

(** What the extractor puts under ['thought'] and ['task_complete']. *)
Definition thought_of (text : string) : string :=
  match re_search_tag "<thought>" "</thought>" text with
  | Some g => strip g
  | None => default_thought
  end.

Definition task_complete_of (text : string) : bool :=
  match re_search_tag "<task_complete>" "</task_complete>" text with
  | Some g => String.eqb (lower (strip g)) "true"
  | None => false
  end.

(** The loop over the parameter lines cannot exhaust a bound: it has
    none. *)
Lemma extract_response_ends (text : string) :
  extract_response_from_tags text <> OutOfFuel.
Proof.
  unfold extract_response_from_tags.
  repeat match goal with
         | |- context [parse_param_lines ?l ?a] =>
             destruct (parse_param_lines_ok l a) as [p ->]
         | |- context [match ?x with _ => _ end] => destruct x
         end;
    discriminate.
Qed.

(** Whenever the extractor returns, its diagnostic is the fixed success
    message. *)
Lemma extract_diagnostic (text : string) (d : decision) (diagnostic : string) :
  extract_response_from_tags text = Ok (d, diagnostic) ->
  diagnostic = success_diagnostic.
Proof.
  unfold extract_response_from_tags.
  repeat match goal with
         | |- context [match ?x with _ => _ end] => destruct x
         end;
    intros H; now inversion H.
Qed.

(** C5: for every input string the extractor returns a decision record and
    does not raise; the record's thought is the placeholder
    ["No thought provided"] when the text has no rationale region, and its
    completion flag is [False] when the text has no completion region. *)
Theorem extract_response_total (text : string) :
  exists d,
    extract_response_from_tags text = Ok (d, success_diagnostic)
    /\ thought d = Some (thought_of text)
    /\ task_complete d = Some (task_complete_of text)
    /\ parameters d <> None.
Proof.
  unfold extract_response_from_tags, thought_of, task_complete_of.
  destruct (re_search_tag "<thought>" "</thought>" text) as [gt|];
  destruct (re_search_tag "<function>" "</function>" text) as [gf|];
  destruct (re_search_tag "<task_complete>" "</task_complete>" text) as [gc|];
  destruct (re_search_tag "<parameters>" "</parameters>" text) as [gp|];
  cbn [thought function task_complete parameters empty_decision];
  try (eexists; split; [reflexivity | cbn; repeat split; discriminate]);
  match goal with
  | |- context [has_function ?d] => destruct (has_function d)
  end;
  try (eexists; split; [reflexivity | cbn; repeat split; discriminate]);
  match goal with
  | |- context [if ?b then _ else _] => destruct b
  end;
  try (eexists; split; [reflexivity | cbn; repeat split; discriminate]);
  match goal with
  | |- context [parse_param_lines ?l ?a] =>
      destruct (parse_param_lines_ok l a) as [p ->]
  end;
  eexists; (split; [reflexivity | cbn; repeat split; discriminate]).
Qed.

(** Three inputs: the empty string, text without tags, and text with an
    unterminated tag. *)
Example extract_empty :
  extract_response_from_tags ""
  = Ok (Decision (Some "No thought provided") None (Some false) (Some []),
        success_diagnostic).
Proof. reflexivity. Qed.

Example extract_no_tags :
  extract_response_from_tags "I will now list the files."
  = Ok (Decision (Some "No thought provided") None (Some false) (Some []),
        success_diagnostic).
Proof. reflexivity. Qed.

Example extract_unterminated :
  extract_response_from_tags
    "<thought>listing<function>run_command</function><task_complete>true"
  = Ok (Decision (Some "No thought provided") (Some (Some "run_command"))
                 (Some false) (Some []),
        success_diagnostic).
Proof. reflexivity. Qed.

(** An empty decision is one the validity gate of the step executor
    rejects. *)
Example extract_empty_invalid :
  exists d diagnostic,
    extract_response_from_tags "" = Ok (d, diagnostic)
    /\ has_function d = false /\ get_task_complete d = false.
Proof. do 2 eexists. repeat split. Qed.

End ExtractorSpec.

(* ================================================================== *)
(** * Concrete worlds for examples *)
(* ================================================================== *)

Module Scenario.
Import PyStr World Terminal Agent.

(** A world given by its model replies, the fate of a foreground command,
    the liveness of processes and the faults of file operations.  Spawning
    and signalling succeed, a spawned process gets the id ["p<clock>"], and
    a command that timed out writes nothing more before its pipes are
    read; the JSON rendering shows the ["stdout"] field only. *)
Definition world (replies : nat -> reply) (fate : communicate_outcome)
  (alive : nat -> nat -> option Z) (faults : nat -> io_fault) : Env :=
  Environment
    (fun n _ => replies n)
    (fun _ _ => None)
    (fun _ _ => fate)
    (fun _ _ => [])
    alive
    (fun _ _ _ => None)
    (fun _ _ => None)
    (fun t => "p" ++ of_Z (Z.of_nat t))
    (fun _ _ _ => "")
    (fun t _ => faults t)
    (fun t => Z.of_nat t)
    (fun _ _ _ => VList [])
    (fun v => match v with
              | VDict d =>
                  match Dict.get "stdout" d with
                  | Some (VStr out) => "{stdout: " ++ out ++ "}"
                  | _ => "{}"
                  end
              | _ => "{}"
              end)
    (fun _ => "...").

Definition no_reply : nat -> reply :=
  fun _ => ReplyRaises (Exc "ConnectionError" "no client").

Definition fresh_terminal : term := Terminal_for_agent "/work" [] 0 [] [].

Definition fresh_agent : agent := Agent_ fresh_terminal [] [] [] None 0.

(** A terminal with one registered process, spawned as handle 7. *)
Definition one_process : term :=
  Terminal_for_agent "/work"
    [("p7", ProcessInfo 7 "python server.py" 7 "ready" "")] 8 [] [].

End Scenario.

(* ================================================================== *)
(** * [run_command] on a command that outlives the timeout *)
(* ================================================================== *)

Module RunCommandSpec.
Import PyStr World Terminal.

(** What [_read_nonblocking] returns when it does not raise: the chunks read
    while the pipe is ready, up to the first empty one. *)
Fixpoint delivered (turns : list pipe_turn) : string :=
  match turns with
  | Chunk data :: rest =>
      if PyStr.truthy data then data ++ delivered rest else ""
  | _ => ""
  end.

(** What [_read_nonblocking] raises: the exception of the first turn that
    raises, when no earlier turn ends the loop. *)
Fixpoint failure (turns : list pipe_turn) : option exc :=
  match turns with
  | Chunk data :: rest => if PyStr.truthy data then failure rest else None
  | PipeRaises e :: _ => Some e
  | _ => None
  end.

Lemma read_nonblocking_run (turns : list pipe_turn) :
  forall (output : string) (s : term),
    read_nonblocking turns output s
    = (match failure turns with
       | Some e => Raise e
       | None => Ok (output ++ delivered turns)
       end, s).
Proof.
  induction turns as [|turn rest IH]; intros output s;
    cbn [read_nonblocking failure delivered].
  - now rewrite PyStrFacts.append_nil_r.
  - destruct turn as [|data|e].
    + now rewrite PyStrFacts.append_nil_r.
    + destruct (PyStr.truthy data).
      * rewrite IH. destruct (failure rest); [reflexivity|].
        now rewrite PyStrFacts.append_assoc.
      * now rewrite PyStrFacts.append_nil_r.
    + reflexivity.
Qed.



(** A command that never ends and prints nothing. *)
Definition sleepy : Env :=
  Scenario.world Scenario.no_reply (TimeoutExpired "" "") (fun _ _ => None)
                 (fun _ => NoFault).





(** A command that closes its output and keeps running: [communicate] read
    the end of both pipes and closed them, and [select] raises on the
    first. *)
Definition detached : Env :=
  let w := sleepy in
  Environment (llm w) (popen_error w) (communicate w)
    (fun _ _ =>
       [PipeRaises (Exc "ValueError" "I/O operation on closed file")])
    (proc_poll w) (killpg_error w) (stdin_error w) (uuid4 w) (captured w)
    (io w) (time_time w) (fs_query w) (json_dumps w) (py_str w).

(** There the result has neither a status nor a return code. *)
Example run_command_timeout_closed_pipe :
  run_command detached "exec sleep 30 >/dev/null 2>&1" (TimeoutInt 10)
              Scenario.fresh_terminal
  = (Ok (error_result "I/O operation on closed file"),
     Terminal_for_agent "/work" [] 1 []
       [EvPopen 0 "exec sleep 30 >/dev/null 2>&1"]).
Proof. reflexivity. Qed.

(** A command that ends in time has an integer ["returncode"] and no
    ["status"]. *)
Example run_command_completed :
  fst (run_command
         (Scenario.world Scenario.no_reply (Completed "ok" "" 0)
                         (fun _ _ => None) (fun _ => NoFault))
         "true" (TimeoutInt 10) Scenario.fresh_terminal)
  = Ok (VDict [("stdout", VStr "ok"); ("stderr", VStr "");
               ("returncode", VInt 0)]).
Proof. reflexivity. Qed.

End RunCommandSpec.

(* ================================================================== *)
(** * The history replay leaves the history alone *)
(* ================================================================== *)

Module ReplaySpec.
Import PyStr World Terminal Agent.
Local Open Scope list_scope.

Lemma nth_fresh (h : store) (d : Dict.t pyval) :
  nth (List.length h) (h ++ [d]) Dict.empty = d.
Proof.
  rewrite app_nth2 by lia. now rewrite Nat.sub_diag.
Qed.

Lemma update_fresh (h : store) (d d' : Dict.t pyval) :
  update (List.length h) d' (h ++ [d]) = h ++ [d'].
Proof.
  induction h as [|x r IH]; simpl; [reflexivity | now rewrite IH].
Qed.

(** Each of the two truncations only adds objects to the store. *)
Lemma truncate_field_extends (key : string) (result : obj) (h : store) :
  exists r extra, truncate_field key result h = (Ok r, h ++ extra).
Proof.
  destruct result as [l|v].
  - unfold truncate_field, bind, load, gets; simpl.
    destruct (is_str_longer 500 (Dict.get key (nth l h Dict.empty))) eqn:Hlong.
    + unfold alloc; simpl. rewrite nth_fresh.
      destruct (Dict.get key (nth l h Dict.empty)) as [[| | |s| |]|];
        try discriminate Hlong.
      unfold setitem, modify, ret; simpl.
      rewrite nth_fresh, update_fresh. eauto.
    + exists (Ref l), []. now rewrite app_nil_r.
  - exists (match v with
            | VDict d =>
                if is_str_longer 500 (Dict.get key d) then
                  match Dict.get key d with
                  | Some (VStr s) =>
                      Val (VDict (Dict.set key
                             (VStr (slice s 0 500 ++ truncation_marker)%string)
                             d))
                  | _ => Val v
                  end
                else Val v
            | _ => Val v
            end), [].
    rewrite app_nil_r.
    destruct v as [| | | | |d]; try reflexivity.
    unfold truncate_field.
    destruct (is_str_longer 500 (Dict.get key d)); [|reflexivity].
    destruct (Dict.get key d) as [[| | |s| |]|]; reflexivity.
Qed.

Lemma render_pure (env : Env) (result : obj) (h : store) :
  exists text, render env result h = (Ok text, h).
Proof.
  destruct result as [l|v].
  - unfold render, bind, load, gets, ret. eauto.
  - destruct v; unfold render, ret; eauto.
Qed.

Lemma replay_extends (env : Env) (entries : list (string * obj)) :
  forall (i : Z) (acc : string) (h : store),
  exists text extra, replay env i entries acc h = (Ok text, h ++ extra).
Proof.
  induction entries as [|[name result] rest IH]; intros i acc h.
  - exists acc, []. now rewrite app_nil_r.
  - cbn [replay]. unfold bind at 1.
    destruct (truncate_field_extends "stdout" result h) as (r1 & e1 & ->).
    unfold bind at 1.
    destruct (truncate_field_extends "stderr" r1 (h ++ e1)) as (r2 & e2 & ->).
    unfold bind at 1.
    destruct (render_pure env r2 ((h ++ e1) ++ e2)) as (text & ->).
    destruct (IH (i + 1)%Z
                 (acc ++ nl ++ "Step " ++ of_Z i ++ ": " ++ name
                  ++ ", Result: " ++ text)%string ((h ++ e1) ++ e2))
      as (t & e3 & ->).
    exists t, (e1 ++ e2 ++ e3). now rewrite <- !app_assoc.
Qed.

(** C10: building the replayed history text returns without raising and
    mutates neither the history list nor any object that existed before:
    the store afterwards is the old store followed by the truncated copies,
    so every entry of the history still refers to its full, untruncated
    result. *)
Theorem build_history_text_frame (env : Env) (a : agent) :
  exists text a',
    on_heap (build_history_text env (history a)) a = (Ok text, a')
    /\ history a' = history a
    /\ firstn (List.length (heap a)) (heap a') = heap a
    /\ terminal a' = terminal a.
Proof.
  unfold on_heap, lift, build_history_text.
  destruct (replay_extends env (history a) 1 "" (heap a)) as (t & e & ->).
  do 2 eexists. split; [reflexivity|]. cbn.
  repeat split.
  rewrite firstn_app, Nat.sub_diag, firstn_all. simpl. apply app_nil_r.
Qed.

Fixpoint repeat_string (n : nat) (c : ascii) : string :=
  match n with
  | O => ""
  | S n' => String c (repeat_string n' c)
  end.

(** A result with 600 characters of output is replayed as its first 500
    characters and the marker, from a copy: the object of the history entry
    keeps all 600. *)
Example replay_truncates_a_copy :
  let out := repeat_string 600 "x" in
  let entry := [("stdout", VStr out); ("returncode", VInt 0)] in
  build_history_text
    (Scenario.world Scenario.no_reply (TimeoutExpired "" "") (fun _ _ => None)
                    (fun _ => NoFault))
    [("run_command()", Ref 0)] [entry]
  = (Ok (nl ++ "Step 1: run_command(), Result: {stdout: "
            ++ repeat_string 500 "x" ++ "... [output truncated]}")%string,
     [entry;
      [("stdout",
        VStr (repeat_string 500 "x" ++ "... [output truncated]")%string);
       ("returncode", VInt 0)]]).
Proof. vm_compute. reflexivity. Qed.

End ReplaySpec.

(* ================================================================== *)
(** * Reasoning about method bodies: postconditions *)
(* ================================================================== *)

(** [wp c Q s]: running [c] from [s] ends in an outcome and a state that
    satisfy [Q]. *)
Definition wp {St A} (c : M St A) (Q : outcome A -> St -> Prop) (s : St)
  : Prop :=
  Q (fst (c s)) (snd (c s)).

Section Rules.
Context {St : Type}.

Lemma wp_ret {A} (a : A) (Q : outcome A -> St -> Prop) s :
  Q (Ok a) s -> wp (ret a) Q s.
Proof. exact (fun H => H). Qed.

Lemma wp_raise {A} (e : exc) (Q : outcome A -> St -> Prop) s :
  Q (Raise e) s -> wp (raise e) Q s.
Proof. exact (fun H => H). Qed.

Lemma wp_out_of_fuel {A} (Q : outcome A -> St -> Prop) s :
  Q OutOfFuel s -> wp out_of_fuel Q s.
Proof. exact (fun H => H). Qed.

Lemma wp_gets {A} (f : St -> A) (Q : outcome A -> St -> Prop) s :
  Q (Ok (f s)) s -> wp (gets f) Q s.
Proof. exact (fun H => H). Qed.

Lemma wp_modify (f : St -> St) (Q : outcome unit -> St -> Prop) s :
  Q (Ok tt) (f s) -> wp (modify f) Q s.
Proof. exact (fun H => H). Qed.

Lemma wp_of_outcome {A} (o : outcome A) (Q : outcome A -> St -> Prop) s :
  Q o s -> wp (Agent.of_outcome o) Q s.
Proof. exact (fun H => H). Qed.

Lemma wp_bind {A B} (c : M St A) (k : A -> M St B) Q s :
  wp c (fun r s' => match r with
                    | Ok a => wp (k a) Q s'
                    | Raise e => Q (Raise e) s'
                    | OutOfFuel => Q OutOfFuel s'
                    end) s ->
  wp (bind c k) Q s.
Proof. unfold wp, bind. destruct (c s) as [[a|e|] s']; simpl; auto. Qed.

Lemma wp_try_except {A} (c : M St A) (h : exc -> M St A) Q s :
  wp c (fun r s' => match r with
                    | Raise e => wp (h e) Q s'
                    | _ => Q r s'
                    end) s ->
  wp (try_except c h) Q s.
Proof.
  unfold wp, try_except. destruct (c s) as [[a|e|] s']; simpl; auto.
Qed.

Lemma wp_try_finally {A} (c : M St A) (f : M St unit) Q s :
  wp c (fun r s' =>
          wp f (fun rf s'' => match rf with
                              | Ok _ => Q r s''
                              | Raise e => Q (Raise e) s''
                              | OutOfFuel => Q OutOfFuel s''
                              end) s') s ->
  wp (try_finally c f) Q s.
Proof.
  unfold wp, try_finally. destruct (c s) as [r s']; simpl.
  destruct (f s') as [[u|e|] s'']; simpl; auto.
Qed.

Lemma wp_mono {A} (c : M St A) (Q Q' : outcome A -> St -> Prop) s :
  wp c Q s -> (forall r s', Q r s' -> Q' r s') -> wp c Q' s.
Proof. unfold wp. auto. Qed.

Lemma wp_run {A} (c : M St A) Q s :
  wp c Q s -> exists r s', c s = (r, s') /\ Q r s'.
Proof. unfold wp. destruct (c s) as [r s']. eauto. Qed.

Lemma wp_getitem {V} k (d : Dict.t V) v (Q : outcome V -> St -> Prop) s :
  Dict.get k d = Some v -> Q (Ok v) s -> wp (getitem k d) Q s.
Proof. unfold getitem. intros -> H. exact H. Qed.

Lemma wp_delitem {V} k (d : Dict.t V)
  (Q : outcome (Dict.t V) -> St -> Prop) s :
  Dict.mem k d = true -> Q (Ok (Dict.del k d)) s -> wp (delitem k d) Q s.
Proof. unfold delitem. intros -> H. exact H. Qed.

End Rules.

Lemma wp_lift {St Sub A} (proj : St -> Sub) (upd : Sub -> St -> St)
  (c : M Sub A) (Q : outcome A -> St -> Prop) s :
  wp c (fun r sub' => Q r (upd sub' s)) (proj s) ->
  wp (lift proj upd c) Q s.
Proof. unfold wp, lift. destruct (c (proj s)) as [r sub']. auto. Qed.

Lemma wp_tick (Q : outcome nat -> Terminal.term -> Prop) s :
  Q (Ok (Terminal.clock s))
    (Terminal.Terminal_for_agent (Terminal.cwd s)
       (Terminal.background_processes s) (S (Terminal.clock s))
       (Terminal.files s) (Terminal.trace s)) ->
  wp Terminal.tick Q s.
Proof. exact (fun H => H). Qed.

Lemma wp_log e (Q : outcome unit -> Terminal.term -> Prop) s :
  Q (Ok tt)
    (Terminal.Terminal_for_agent (Terminal.cwd s)
       (Terminal.background_processes s) (Terminal.clock s)
       (Terminal.files s) (Terminal.trace s ++ [e])) ->
  wp (Terminal.log e) Q s.
Proof. exact (fun H => H). Qed.

Ltac wp_simpl :=
  cbv beta iota;
  cbn [Terminal.cwd Terminal.background_processes Terminal.clock
       Terminal.files Terminal.trace Terminal.set_background_processes
       Terminal.set_files].

(** One structural step of a postcondition proof. *)
Ltac wp_step :=
  lazymatch goal with
  | |- wp (bind _ _) _ _ => apply wp_bind
  | |- wp (try_except _ _) _ _ => apply wp_try_except
  | |- wp (ret _) _ _ => apply wp_ret; wp_simpl
  | |- wp (raise _) _ _ => apply wp_raise; wp_simpl
  | |- wp out_of_fuel _ _ => apply wp_out_of_fuel; wp_simpl
  | |- wp (gets _) _ _ => apply wp_gets; wp_simpl
  | |- wp (modify _) _ _ => apply wp_modify; wp_simpl
  | |- wp Terminal.tick _ _ => apply wp_tick; wp_simpl
  | |- wp (Terminal.log _) _ _ => apply wp_log; wp_simpl
  end.

(* ================================================================== *)
(** * The process manager: what every method guarantees *)
(* ================================================================== *)

Module TerminalSpec.
Import PyStr World Terminal.

(** The process handle behind each registered id. *)
Definition handles (d : Dict.t process_info) : list (string * nat) :=
  map (fun kv => (fst kv, process (snd kv))) d.

Lemma get_capture_all env t id d :
  Dict.get id (capture_all env t d)
  = option_map (collect_output env t) (Dict.get id d).
Proof.
  unfold capture_all. induction d as [|[k v] r IH]; simpl; [reflexivity|].
  destruct (String.eqb id k); [reflexivity | exact IH].
Qed.

Lemma mem_capture_all env t id d : Dict.mem id (capture_all env t d) = Dict.mem id d.
Proof.
  unfold Dict.mem. rewrite get_capture_all. now destruct (Dict.get id d).
Qed.

Lemma keys_capture_all env t d : Dict.keys (capture_all env t d) = Dict.keys d.
Proof. unfold capture_all, Dict.keys. now rewrite map_map. Qed.

Lemma handles_capture_all env t d : handles (capture_all env t d) = handles d.
Proof. unfold capture_all, handles. now rewrite map_map. Qed.

Lemma wf_capture_all env t d : Dict.wf d -> Dict.wf (capture_all env t d).
Proof. unfold Dict.wf. now rewrite keys_capture_all. Qed.

(** The terminal after the capture threads ran. *)
Definition after_capture (env : Env) (s : term) : term :=
  Terminal_for_agent (cwd s) (capture_all env (clock s) (background_processes s))
                     (S (clock s)) (files s) (trace s).

(** What every method of the terminal guarantees about the state it
    leaves: the working directory stays, the registry stays a dict, an id
    in it was there before or was drawn by a spawn, and the log only
    grows. *)
Record evolves (env : Env) (s s' : term) : Prop := Evolves {
  ev_cwd : cwd s' = cwd s;
  ev_clock : clock s <= clock s';
  ev_wf : Dict.wf (background_processes s) ->
          Dict.wf (background_processes s');
  ev_keys : forall k,
      Dict.mem k (background_processes s') = true ->
      Dict.mem k (background_processes s) = true
      \/ exists t, clock s <= t /\ uuid4 env t = k;
  ev_trace : exists ev, trace s' = (trace s ++ ev)%list
}.

Lemma evolves_refl env s : evolves env s s.
Proof.
  constructor; auto. exists []. now rewrite app_nil_r.
Qed.

Lemma evolves_trans env s1 s2 s3 :
  evolves env s1 s2 -> evolves env s2 s3 -> evolves env s1 s3.
Proof.
  intros [c1 l1 w1 k1 [e1 t1]] [c2 l2 w2 k2 [e2 t2]]. constructor.
  - congruence.
  - lia.
  - auto.
  - intros k H. destruct (k2 k H) as [H'|(t & Ht & Hk)]; auto.
    right. exists t. split; [lia | exact Hk].
  - exists (e1 ++ e2)%list. now rewrite t2, t1, app_assoc.
Qed.

Lemma mem_del_elim {V} (k k' : string) (d : Dict.t V) :
  Dict.mem k (Dict.del k' d) = true -> Dict.mem k d = true.
Proof.
  unfold Dict.mem.
  destruct (String.eqb_spec k k') as [->|Hne].
  - now rewrite DictFacts.get_del_same.
  - now rewrite DictFacts.get_del_other.
Qed.

Lemma mem_set_elim {V} (k k' : string) (v : V) (d : Dict.t V) :
  Dict.mem k (Dict.set k' v d) = true -> k = k' \/ Dict.mem k d = true.
Proof.
  unfold Dict.mem.
  destruct (String.eqb_spec k k') as [->|Hne]; [now left|].
  rewrite DictFacts.get_set_other by assumption. now right.
Qed.

Ltac wp_case :=
  match goal with
  | |- wp (match ?x with _ => _ end) _ _ => destruct x eqn:?
  | |- wp (if ?x then _ else _) _ _ => destruct x eqn:?
  end.

(** Follow every path of a method body of the terminal. *)
Ltac wp_paths :=
  repeat first
    [ wp_step
    | progress unfold capture_threads, poll, killpg, getitem, delitem
    | wp_case ].

(** A path that the guards of the method exclude. *)
Ltac absurd_path :=
  exfalso; unfold Dict.mem in *;
  repeat match goal with
         | H : Dict.get _ _ = _ |- _ => rewrite H in *
         end;
  simpl in *; congruence.

(** Bring what is known about the registry and the polls to bear on the
    equations of a path. *)
Ltac settle :=
  repeat progress
    (cbn [process command start_time stdout stderr collect_output
          option_map negb status_of] in *;
     rewrite ?mem_capture_all, ?get_capture_all in *;
     try match goal with
         | H : Some _ = Some _ |- _ => injection H as H; try subst
         | H : Dict.get ?k ?d = _, H' : context [Dict.get ?k ?d] |- _ =>
             rewrite H in H'
         | H : Dict.mem ?k ?d = _, H' : context [Dict.mem ?k ?d] |- _ =>
             rewrite H in H'
         | H : proc_poll ?e ?t ?h = _, H' : context [proc_poll ?e ?t ?h]
           |- _ => rewrite H in H'
         end).

(** A path that contradicts what is known. *)
Ltac known_path :=
  settle; exfalso; unfold Dict.mem in *; settle;
  repeat match goal with
         | H : context [match Dict.get ?k ?d with _ => _ end] |- _ =>
             destruct (Dict.get k d) eqn:?
         | H : context [option_map _ (Dict.get ?k ?d)] |- _ =>
             destruct (Dict.get k d) eqn:?
         end;
  cbn in *; congruence.

Lemma wp_eq {St A} (c : M St A) (x : outcome A) (y : St) (s : St) :
  wp c (fun r s' => r = x /\ s' = y) s -> c s = (x, y).
Proof. unfold wp. destruct (c s). simpl. now intros [-> ->]. Qed.

Ltac evolves_solve :=
  constructor;
  cbn [cwd clock background_processes trace set_background_processes
       set_files];
  [ reflexivity
  | lia
  | intros; repeat first [apply DictFacts.wf_del | apply wf_capture_all
                         | apply DictFacts.wf_set]; assumption
  | intros k Hk;
    repeat first [apply mem_del_elim in Hk | rewrite mem_capture_all in Hk];
    try (apply mem_set_elim in Hk; destruct Hk as [->|Hk]);
    first [ left; assumption
          | right; eexists; split; [|reflexivity]; lia ]
  | rewrite <- ?app_assoc; first [eexists; reflexivity
                                 | exists []; now rewrite app_nil_r] ].

(** Close a path of a method that returns and leaves an evolved state. *)
Ltac total_path :=
  first [ absurd_path
        | split; [solve [eauto] | evolves_solve] ].

Definition total (env : Env) (s : term) {A} : outcome A -> term -> Prop :=
  fun r s' => (exists v, r = Ok v) /\ evolves env s s'.

Lemma wp_read_nonblocking (turns : list pipe_turn) (output : string)
  (Q : outcome string -> term -> Prop) (s : term) :
  (forall v, Q (Ok v) s) -> (forall e, Q (Raise e) s) ->
  wp (read_nonblocking turns output) Q s.
Proof.
  intros Hok Hraise. unfold wp.
  rewrite RunCommandSpec.read_nonblocking_run. cbn [fst snd].
  destruct (RunCommandSpec.failure turns); auto.
Qed.

Lemma run_command_total env c t s :
  wp (run_command env c t) (total env s) s.
Proof.
  unfold run_command, total.
  repeat first [ wp_step | wp_case
               | apply wp_read_nonblocking; intros ];
    total_path.
Qed.

Lemma start_background_process_total env c s :
  wp (start_background_process env c) (total env s) s.
Proof.
  unfold start_background_process, total. wp_paths.
  all: total_path.
Qed.

Lemma get_process_output_total env id s :
  wp (get_process_output env id) (total env s) s.
Proof.
  unfold get_process_output, total. wp_paths.
  all: total_path.
Qed.

Lemma send_input_to_process_total env id text s :
  wp (send_input_to_process env id text) (total env s) s.
Proof.
  unfold send_input_to_process, total. wp_paths.
  all: total_path.
Qed.

Lemma stop_background_process_total env id s :
  wp (stop_background_process env id)
     (fun r s' => total env s r s'
                  /\ Dict.mem id (background_processes s') = false) s.
Proof.
  unfold stop_background_process, total. wp_paths.
  all: try absurd_path.
  all: split; [total_path|].
  all: cbn [background_processes set_background_processes].
  all: try apply DictFacts.mem_del_same.
  all: try (apply negb_true_iff; assumption).
  all: try assumption.
Qed.

Lemma write_file_total env p c s : wp (write_file env p c) (total env s) s.
Proof. unfold write_file, total. wp_paths; total_path. Qed.

Lemma append_to_file_total env p c s :
  wp (append_to_file env p c) (total env s) s.
Proof. unfold append_to_file, total. wp_paths; total_path. Qed.

Lemma get_file_contents_total env p s :
  wp (get_file_contents env p) (total env s) s.
Proof. unfold get_file_contents, total. wp_paths; total_path. Qed.

Lemma read_only_tool_total env m args s :
  wp (read_only_tool env m args) (total env s) s.
Proof. unfold read_only_tool, total. wp_paths; total_path. Qed.

Lemma total_trans env s1 s2 {A} (r : outcome A) s3 :
  evolves env s1 s2 -> total env s2 r s3 -> total env s1 r s3.
Proof. intros H [Hr H']. split; [exact Hr | eapply evolves_trans; eauto]. Qed.

Lemma list_entry_total env entry result s :
  wp (list_entry env entry result) (total env s) s.
Proof.
  unfold list_entry, total. destruct entry as [process_id info].
  wp_paths; total_path.
Qed.

Lemma list_loop_total env snapshot :
  forall result s, wp (list_loop env snapshot result) (total env s) s.
Proof.
  induction snapshot as [|entry rest IH]; intros result s; cbn [list_loop].
  - wp_step. split; [eauto | apply evolves_refl].
  - wp_step. eapply wp_mono; [apply list_entry_total|].
    intros r s1 [[v ->] Hev]. eapply wp_mono; [apply IH|].
    intros r' s2 Ht. eapply total_trans; eauto.
Qed.

Lemma list_background_processes_total env s :
  wp (list_background_processes env) (total env s) s.
Proof.
  unfold list_background_processes. wp_step. wp_step. apply list_loop_total.
Qed.


(** ** Queries on an id that is not registered *)

Lemma get_process_output_unregistered env id s :
  Dict.mem id (background_processes s) = false ->
  get_process_output env id s = (Ok (not_found id), after_capture env s).
Proof.
  intros H. unfold get_process_output, bind, capture_threads, tick, modify,
    gets, ret; simpl.
  now rewrite mem_capture_all, H.
Qed.

Lemma stop_background_process_unregistered env id s :
  Dict.mem id (background_processes s) = false ->
  stop_background_process env id s = (Ok (not_found id), after_capture env s).
Proof.
  intros H. unfold stop_background_process, bind, capture_threads, tick,
    modify, gets, ret; simpl.
  now rewrite mem_capture_all, H.
Qed.

Lemma send_input_to_process_unregistered env id text s :
  Dict.mem id (background_processes s) = false ->
  send_input_to_process env id text s = (Ok (not_found id), after_capture env s).
Proof.
  intros H. unfold send_input_to_process, bind, capture_threads, tick,
    modify, gets, ret; simpl.
  now rewrite mem_capture_all, H.
Qed.

(** ** Sequences of calls *)

(** A call of one of the terminal's methods. *)
Inductive call : Type :=
| RunCommand (command_ : string) (timeout : timeout_arg)
| StartBackgroundProcess (command_ : string)
| ListBackgroundProcesses
| GetProcessOutput (process_id : string)
| StopBackgroundProcess (process_id : string)
| SendInputToProcess (process_id input_text : string)
| WriteFile (path content : string)
| AppendToFile (path content : string)
| GetFileContents (path : string)
| ReadOnly (method : string) (args : list string).

Definition perform (env : Env) (c : call) : M term pyval :=
  match c with
  | RunCommand command_ timeout => run_command env command_ timeout
  | StartBackgroundProcess command_ => start_background_process env command_
  | ListBackgroundProcesses =>
      bind (list_background_processes env) (fun r => ret (VDict r))
  | GetProcessOutput process_id => get_process_output env process_id
  | StopBackgroundProcess process_id =>
      stop_background_process env process_id
  | SendInputToProcess process_id input_text =>
      send_input_to_process env process_id input_text
  | WriteFile path content => write_file env path content
  | AppendToFile path content => append_to_file env path content
  | GetFileContents path => get_file_contents env path
  | ReadOnly method args => read_only_tool env method args
  end.

(** The terminal after a sequence of calls. *)
Fixpoint after (env : Env) (calls : list call) (s : term) : term :=
  match calls with
  | [] => s
  | c :: rest => after env rest (snd (perform env c s))
  end.

Lemma perform_total env c s : wp (perform env c) (total env s) s.
Proof.
  destruct c; cbn [perform];
    auto using run_command_total, start_background_process_total,
      get_process_output_total, send_input_to_process_total,
      write_file_total, append_to_file_total, get_file_contents_total,
      read_only_tool_total.
  - wp_step. eapply wp_mono; [apply list_background_processes_total|].
    intros r s' [[v ->] Hev]. wp_step. split; eauto.
  - eapply wp_mono; [apply stop_background_process_total|]. now intros r s' [].
Qed.

Lemma after_evolves env calls : forall s, evolves env s (after env calls s).
Proof.
  induction calls as [|c rest IH]; intros s; cbn [after].
  - apply evolves_refl.
  - eapply evolves_trans; [|apply IH].
    pose proof (perform_total env c s) as H. unfold wp in H. apply H.
Qed.

(** An id that is not registered stays so as long as no spawn draws it. *)
Lemma absent_after env id calls s :
  (forall t, clock s <= t -> uuid4 env t <> id) ->
  Dict.mem id (background_processes s) = false ->
  Dict.mem id (background_processes (after env calls s)) = false.
Proof.
  intros Hfresh Habs.
  destruct (Dict.mem id (background_processes (after env calls s))) eqn:E;
    [|reflexivity].
  destruct (ev_keys (after_evolves env calls s) id E) as [H|(t & Ht & H)].
  - congruence.
  - now apply Hfresh in H.
Qed.

(** ** Observing a dead process *)

(** What a query entered in state [s] sees when it polls the process:
    the capture threads are let run first, then the handle is polled. *)
Definition observes (env : Env) (s : term) (handle : nat) : option Z :=
  proc_poll env (S (clock s)) handle.

(** C6: when [get_process_output] is called on a registered id and its poll
    finds the process dead, the result carries the status ["terminated"]
    and the exit code under ["returncode"], and the record is removed; from
    then on, after any sequence of calls in which no spawn draws the same
    id again, [get_process_output], [stop_background_process] and
    [send_input_to_process] on that id all return the not-found error. *)
Theorem get_process_output_dead (env : Env) (id : string)
  (info : process_info) (rc : Z) (s : term) :
  Dict.get id (background_processes s) = Some info ->
  observes env s (process info) = Some rc ->
  (forall t, clock s <= t -> uuid4 env t <> id) ->
  exists d s',
    get_process_output env id s = (Ok (VDict d), s')
    /\ Dict.get "status" d = Some (VStr "terminated")
    /\ Dict.get "returncode" d = Some (VInt rc)
    /\ Dict.mem id (background_processes s') = false
    /\ forall calls text,
         let s'' := after env calls s' in
         fst (get_process_output env id s'') = Ok (not_found id)
         /\ fst (stop_background_process env id s'') = Ok (not_found id)
         /\ fst (send_input_to_process env id text s'') = Ok (not_found id).
Proof.
  intros Hget Hdead Hfresh. unfold observes in Hdead.
  assert (Hmem : Dict.mem id (background_processes s) = true)
    by (unfold Dict.mem; now rewrite Hget).
  pose (s' := Terminal_for_agent (cwd s)
                (Dict.del id
                   (capture_all env (clock s) (background_processes s)))
                (S (S (clock s))) (files s)
                (trace s ++ [EvPoll (process info) (Some rc)])).
  exists [("status", VStr "terminated");
          ("stdout", VStr (stdout (collect_output env (clock s) info)));
          ("stderr", VStr (stderr (collect_output env (clock s) info)));
          ("returncode", VInt rc)], s'.
  split.
  - apply wp_eq. unfold get_process_output.
    wp_paths; settle; try discriminate.
    now split.
  - assert (Hlater : forall t, clock s' <= t -> uuid4 env t <> id)
      by (intros t Ht; apply Hfresh; simpl in Ht; lia).
    repeat split; try apply DictFacts.mem_del_same.
    + rewrite get_process_output_unregistered; [reflexivity|].
      apply absent_after; [assumption | apply DictFacts.mem_del_same].
    + rewrite stop_background_process_unregistered; [reflexivity|].
      apply absent_after; [assumption | apply DictFacts.mem_del_same].
    + rewrite send_input_to_process_unregistered; [reflexivity|].
      apply absent_after; [assumption | apply DictFacts.mem_del_same].
Qed.

(** A world in which every poll finds the process dead with exit code 3
    and every spawn draws the id ["q"]. *)
Definition dead_world : Env :=
  let w := Scenario.world Scenario.no_reply (TimeoutExpired "" "")
             (fun _ _ => Some 3%Z) (fun _ => NoFault) in
  Environment (llm w) (popen_error w) (communicate w) (pipe_reads w)
    (proc_poll w) (killpg_error w) (stdin_error w) (fun _ => "q")
    (World.captured w) (io w) (time_time w) (fs_query w) (json_dumps w) (py_str w).

Lemma get_process_output_dead_witness :
  exists d s',
    get_process_output dead_world "p7" Scenario.one_process
    = (Ok (VDict d), s')
    /\ Dict.get "status" d = Some (VStr "terminated")
    /\ Dict.get "returncode" d = Some (VInt 3)
    /\ Dict.mem "p7" (background_processes s') = false
    /\ forall calls text,
         let s'' := after dead_world calls s' in
         fst (get_process_output dead_world "p7" s'') = Ok (not_found "p7")
         /\ fst (stop_background_process dead_world "p7" s'')
            = Ok (not_found "p7")
         /\ fst (send_input_to_process dead_world "p7" text s'')
            = Ok (not_found "p7").
Proof.
  apply (@get_process_output_dead dead_world "p7"
           (ProcessInfo 7 "python server.py" 7 "ready" "") 3
           Scenario.one_process).
  - reflexivity.
  - reflexivity.
  - intros t _. discriminate.
Defined.

(** ** Stopping twice *)

(** C7: [stop_background_process] never raises; whatever the id and the
    state, the first call leaves the id unregistered (also when signalling
    the process raised), and a second call returns the not-found error and
    leaves it unregistered. *)
Theorem stop_background_process_idempotent (env : Env) (id : string)
  (s : term) :
  exists r1 s1 s2,
    stop_background_process env id s = (Ok r1, s1)
    /\ Dict.mem id (background_processes s1) = false
    /\ stop_background_process env id s1 = (Ok (not_found id), s2)
    /\ Dict.mem id (background_processes s2) = false.
Proof.
  pose proof (stop_background_process_total env id s) as H.
  apply wp_run in H. destruct H as (r & s1 & Hrun & [[v ->] _] & Habs).
  exists v, s1, (after_capture env s1). repeat split; try assumption.
  - now apply stop_background_process_unregistered.
  - cbn. now rewrite mem_capture_all.
Qed.

(** A world in which the process stays alive and signalling it raises. *)
Definition stubborn_world : Env :=
  let w := Scenario.world Scenario.no_reply (TimeoutExpired "" "")
             (fun _ _ => None) (fun _ => NoFault) in
  Environment (llm w) (popen_error w) (communicate w) (pipe_reads w)
    (proc_poll w)
    (fun _ _ _ => Some (Exc "ProcessLookupError" "[Errno 3] No such process"))
    (stdin_error w) (uuid4 w) (World.captured w) (io w) (time_time w)
    (fs_query w) (json_dumps w) (py_str w).

Example stop_removes_when_signal_raises :
  stop_background_process stubborn_world "p7" Scenario.one_process
  = (Ok (error_result "[Errno 3] No such process"),
     Terminal_for_agent "/work" [] 11 []
       [EvPoll 7 None; EvKillpg 7 SIGTERM true]).
Proof. reflexivity. Qed.

Example stop_running_then_again :
  let w := Scenario.world Scenario.no_reply (TimeoutExpired "" "")
             (fun _ _ => None) (fun _ => NoFault) in
  let (r1, s1) := stop_background_process w "p7" Scenario.one_process in
  r1 = Ok (VDict [("success", VBool true);
                  ("message", VStr "Process p7 stopped");
                  ("stdout", VStr "ready"); ("stderr", VStr "")])
  /\ trace s1 = [EvPoll 7 None; EvKillpg 7 SIGTERM false; EvPoll 7 None;
                 EvKillpg 7 SIGKILL false]
  /\ background_processes s1 = []
  /\ fst (stop_background_process w "p7" s1) = Ok (not_found "p7").
Proof. vm_compute. repeat split. Qed.

(** ** Sending input to a terminated process *)

(** The process behind [id] has terminated: its record is gone, or the
    record is still registered and the poll of the call finds the process
    dead. *)
Inductive terminated (env : Env) (s : term) (id : string) : Prop :=
| Removed :
    Dict.get id (background_processes s) = None -> terminated env s id
| Dead (info : process_info) (rc : Z) :
    Dict.get id (background_processes s) = Some info ->
    observes env s (process info) = Some rc ->
    terminated env s id.

Definition not_running (process_id : string) : pyval :=
  error_result ("Process " ++ process_id ++ " is not running").

(** C9 (amended): for every process id whose process has already
    terminated, [send_input_to_process] writes nothing and returns an error
    result: ["Process <id> is not running"] while the record is still
    registered (and the record stays registered), and the not-found error
    once the record has been removed. *)
Theorem send_input_to_terminated (env : Env) (id input_text : string)
  (s : term) :
  terminated env s id ->
  exists s',
    send_input_to_process env id input_text s
    = (Ok (if Dict.mem id (background_processes s)
           then not_running id else not_found id), s')
    /\ Dict.mem id (background_processes s')
       = Dict.mem id (background_processes s)
    /\ files s' = files s
    /\ forall pipe text,
         ~ In (EvStdin pipe text) (skipn (List.length (trace s)) (trace s')).
Proof.
  intros [Hnone | info rc Hget Hdead].
  - assert (Hmem : Dict.mem id (background_processes s) = false)
      by (unfold Dict.mem; now rewrite Hnone).
    rewrite Hmem. exists (after_capture env s).
    split; [now apply send_input_to_process_unregistered|].
    cbn. rewrite mem_capture_all, skipn_all. repeat split; auto.
  - assert (Hmem : Dict.mem id (background_processes s) = true)
      by (unfold Dict.mem; now rewrite Hget).
    unfold observes in Hdead. rewrite Hmem.
    exists (Terminal_for_agent (cwd s)
              (capture_all env (clock s) (background_processes s))
              (S (S (clock s))) (files s)
              (trace s ++ [EvPoll (process info) (Some rc)])).
    split.
    + apply wp_eq. unfold send_input_to_process.
      wp_paths; settle; try discriminate. now split.
    + cbn. rewrite mem_capture_all. repeat split; [assumption|].
      intros pipe text. rewrite skipn_app, skipn_all, Nat.sub_diag. simpl.
      intros [H|[]]. discriminate H.
Qed.

Lemma send_input_to_terminated_witness :
  exists s',
    send_input_to_process dead_world "p7" "ping" Scenario.one_process
    = (Ok (if Dict.mem "p7" (background_processes Scenario.one_process)
           then not_running "p7" else not_found "p7"), s')
    /\ Dict.mem "p7" (background_processes s')
       = Dict.mem "p7" (background_processes Scenario.one_process)
    /\ files s' = files Scenario.one_process
    /\ forall pipe text,
         ~ In (EvStdin pipe text)
              (skipn (List.length (trace Scenario.one_process)) (trace s')).
Proof.
  apply (@send_input_to_terminated dead_world "p7" "ping"
           Scenario.one_process).
  apply (@Dead dead_world Scenario.one_process "p7"
           (ProcessInfo 7 "python server.py" 7 "ready" "") 3); reflexivity.
Defined.

(** C9 as stated fails: the process behind ["p7"] has terminated, and
    [send_input_to_process] does not answer with the not-found error; it
    answers that the process is not running. *)
Lemma send_input_to_dead_is_not_not_found :
  ~ (terminated dead_world Scenario.one_process "p7" ->
     fst (send_input_to_process dead_world "p7" "ping" Scenario.one_process)
     = Ok (not_found "p7")).
Proof.
  intros H.
  assert (Hterm : terminated dead_world Scenario.one_process "p7")
    by (apply (@Dead dead_world Scenario.one_process "p7"
                 (ProcessInfo 7 "python server.py" 7 "ready" "") 3);
        reflexivity).
  specialize (H Hterm). discriminate H.
Qed.

End TerminalSpec.

(* ================================================================== *)
(** * Chunked writes *)
(* ================================================================== *)

Module ChunkSpec.
Import PyStr World Terminal Agent.





Section Slices.
Variables (content : string) (chunk_size : Z).
Hypothesis positive : (0 < chunk_size)%Z.
Hypothesis nonempty : (0 < len content)%Z.

Let c : nat := Z.to_nat chunk_size.
Let n : nat := Z.to_nat ((len content + chunk_size - 1) / chunk_size).







End Slices.

(** ** The appends *)

Definition io_error (f : io_fault) : option exc :=
  match f with
  | NoFault => None
  | OpenFails e | WriteFails e => Some e
  end.

(** Among [n] appends to [path] issued from clock [t] on, the index and
    the exception of the first one that fails. *)
Fixpoint first_fault (env : Env) (path : string) (t n : nat)
  : option (nat * exc) :=
  match n with
  | O => None
  | S n' =>
      match io_error (io env t path) with
      | Some e => Some (O, e)
      | None =>
          match first_fault env path (S t) n' with
          | Some (j, e) => Some (S j, e)
          | None => None
          end
      end
  end.












(** A write of ["hello world"] in chunks of four characters, when the
    second append fails and when none does. *)
Definition flaky (bad : nat) : Env :=
  Scenario.world Scenario.no_reply (TimeoutExpired "" "") (fun _ _ => None)
    (fun t => if Nat.eqb t bad
              then OpenFails (Exc "OSError" "[Errno 28] No space left")
              else NoFault).

Definition hello : Dict.t string :=
  [("path", "out.txt"); ("content", "hello world")].


Example chunked_write_second_append_fails :
  chunk_large_file_operations (flaky 2) "terminal.write_file" hello 4
    Scenario.fresh_agent
  = (Ok (error_result "[Errno 28] No space left"),
     Agent_ (Terminal_for_agent "/work" [] 3 [("out.txt", "hell")]
               [EvWriteFile "out.txt" ""; EvAppendFile "out.txt" "hell";
                EvAppendFile "out.txt" "o wo"])
            [] [] [] None 0).
Proof. reflexivity. Qed.

Example chunked_write_succeeds :
  chunk_large_file_operations (flaky 99) "terminal.write_file" hello 4
    Scenario.fresh_agent
  = (Ok (VDict [("success", VBool true);
                ("message",
                 VStr "File out.txt written successfully in 3 chunks")]),
     Agent_ (Terminal_for_agent "/work" [] 4 [("out.txt", "hello world")]
               [EvWriteFile "out.txt" ""; EvAppendFile "out.txt" "hell";
                EvAppendFile "out.txt" "o wo"; EvAppendFile "out.txt" "rld"])
            [] [] [] None 0).
Proof. reflexivity. Qed.

(** A file that can be opened for appending only: the open of the
    truncating write, the first file operation, is refused. *)
Definition append_only : Env :=
  Scenario.world Scenario.no_reply (TimeoutExpired "" "") (fun _ _ => None)
    (fun t => if Nat.eqb t 0
              then OpenFails (Exc "PermissionError"
                                  "[Errno 1] Operation not permitted")
              else NoFault).

Definition with_old_content : agent :=
  Agent_ (Terminal_for_agent "/work" [] 0 [("out.txt", "OLD ")] [])
         [] [] [] None 0.

(** C3: the chunked write does not truncate such a file, and does not
    notice.  The truncating write returns an error that nothing reads, no
    append fails, the result reports success in three chunks, and the file
    holds the old content in front of the payload. *)
Lemma chunked_write_keeps_old_content :
  chunk_large_file_operations append_only "terminal.write_file" hello 4
    with_old_content
  = (Ok (VDict [("success", VBool true);
                ("message",
                 VStr "File out.txt written successfully in 3 chunks")]),
     Agent_ (Terminal_for_agent "/work" [] 4
               [("out.txt", "OLD hello world")]
               [EvWriteFile "out.txt" ""; EvAppendFile "out.txt" "hell";
                EvAppendFile "out.txt" "o wo"; EvAppendFile "out.txt" "rld"])
            [] [] [] None 0)
  /\ first_fault append_only "out.txt" 1 3 = None.
Proof. split; reflexivity. Qed.

End ChunkSpec.

(* ================================================================== *)
(** * Stopping every registered process *)
(* ================================================================== *)

Module CleanupSpec.
Import PyStr World Terminal TerminalSpec.
Local Open Scope list_scope.

(** What the log can show about the process behind [handle]: a poll found
    it dead; [SIGKILL] was delivered to its group; signalling it raised,
    because the operating system refused the signal. *)
Definition seen_dead (events : list event) (handle : nat) : Prop :=
  exists rc, In (EvPoll handle (Some rc)) events.

Definition killed (events : list event) (handle : nat) : Prop :=
  In (EvKillpg handle SIGKILL false) events.

Definition signal_refused (env : Env) (events : list event) (handle : nat)
  : Prop :=
  exists sig t e,
    In (EvKillpg handle sig true) events
    /\ killpg_error env t handle sig = Some e.

(** The stop is best effort.  The process was attended to: it is known to
    be dead, or it was killed, or it was given up after a signal was
    refused, in which case it may still run. *)
Definition attended (env : Env) (events : list event) (handle : nat)
  : Prop :=
  seen_dead events handle \/ killed events handle
  \/ signal_refused env events handle.

Lemma attended_app_l env events more handle :
  attended env events handle -> attended env (events ++ more) handle.
Proof.
  intros [[rc H]|[H|(sig & t & e & H & He)]];
    [left; exists rc | right; left
    | right; right; exists sig, t, e; split; [|exact He]];
    apply in_or_app; now left.
Qed.

Lemma attended_app_r env events more handle :
  attended env more handle -> attended env (events ++ more) handle.
Proof.
  intros [[rc H]|[H|(sig & t & e & H & He)]];
    [left; exists rc | right; left
    | right; right; exists sig, t, e; split; [|exact He]];
    apply in_or_app; now right.
Qed.

Lemma handles_del id d :
  handles (Dict.del id d)
  = filter (fun p => negb (String.eqb id (fst p))) (handles d).
Proof.
  unfold handles. induction d as [|[k v] r IH]; simpl; [reflexivity|].
  destruct (String.eqb id k); simpl; now rewrite IH.
Qed.

Lemma handles_del_other id k h d :
  k <> id -> In (k, h) (handles d) -> In (k, h) (handles (Dict.del id d)).
Proof.
  intros Hne Hin. rewrite handles_del. apply filter_In. split; [assumption|].
  simpl. destruct (String.eqb_spec id k); [congruence | reflexivity].
Qed.

Lemma handles_del_incl id d : incl (handles (Dict.del id d)) (handles d).
Proof.
  rewrite handles_del. intros p Hp. now apply filter_In in Hp.
Qed.

Lemma del_absent {V} id (d : Dict.t V) : Dict.mem id d = false -> Dict.del id d = d.
Proof.
  unfold Dict.mem. induction d as [|[k v] r IH]; simpl; [reflexivity|].
  destruct (String.eqb id k); [discriminate|]. intros H. now rewrite IH.
Qed.

Lemma handles_get id h d :
  Dict.wf d -> In (id, h) (handles d) ->
  exists info, Dict.get id d = Some info /\ process info = h.
Proof.
  intros Hwf Hin. unfold handles in Hin. apply in_map_iff in Hin.
  destruct Hin as ([k info] & [= -> <-] & Hin).
  exists info. split; [now apply DictFacts.In_get | reflexivity].
Qed.

Lemma get_handles id info d :
  Dict.get id d = Some info -> In (id, process info) (handles d).
Proof.
  intros H. apply DictFacts.get_In in H. unfold handles.
  apply in_map_iff. now exists (id, info).
Qed.

Lemma In_mem {V} k (v : V) d : In (k, v) d -> Dict.mem k d = true.
Proof.
  unfold Dict.mem. induction d as [|[k' v'] r IH]; simpl; [contradiction|].
  intros [[= -> ->]|H]; [now rewrite String.eqb_refl|].
  destruct (String.eqb k k'); [reflexivity | now apply IH].
Qed.

Lemma mem_keys {V} k (d : Dict.t V) : Dict.mem k d = true -> In k (Dict.keys d).
Proof.
  unfold Dict.mem. intros H.
  destruct (Dict.get k d) as [v|] eqn:E; [|discriminate].
  apply DictFacts.get_In in E. unfold Dict.keys.
  apply in_map_iff. now exists (k, v).
Qed.

Lemma keys_set_keep {V} k k' (v : V) d :
  In k (Dict.keys d) -> In k (Dict.keys (Dict.set k' v d)).
Proof.
  unfold Dict.keys. induction d as [|[k0 v0] r IH]; simpl; [contradiction|].
  destruct (String.eqb k' k0); simpl; intuition.
Qed.

Lemma keys_set_new {V} k (v : V) d : In k (Dict.keys (Dict.set k v d)).
Proof.
  unfold Dict.keys. induction d as [|[k0 v0] r IH]; simpl; [now left|].
  destruct (String.eqb_spec k k0) as [->|]; simpl; [now left | now right].
Qed.

(** What one stop guarantees, with the log: the record of [id] is gone,
    the other records stay, and the process that was registered under [id]
    has been attended to. *)
Definition stop_post (env : Env) (id : string) (s : term)
  (r : outcome pyval) (s' : term) : Prop :=
  (exists v, r = Ok v)
  /\ cwd s' = cwd s /\ files s' = files s
  /\ handles (background_processes s')
     = handles (Dict.del id (background_processes s))
  /\ (Dict.wf (background_processes s) -> Dict.wf (background_processes s'))
  /\ exists events,
       trace s' = trace s ++ events
       /\ forall info,
            Dict.get id (background_processes s) = Some info ->
            attended env events (process info).

Ltac in_log := solve [simpl; repeat first [left; reflexivity | right]].

Ltac attended_path :=
  unfold attended, seen_dead, killed, signal_refused;
  first [ left; eexists; in_log
        | right; left; in_log
        | right; right; do 3 eexists; split; [in_log | eassumption] ].

Lemma stop_background_process_spec env id s :
  wp (stop_background_process env id) (stop_post env id s) s.
Proof.
  unfold stop_background_process, stop_post. wp_paths; settle.
  all: try known_path.
  all: split; [solve [eauto]|].
  all: cbn [cwd files background_processes set_background_processes trace].
  all: split; [reflexivity|]; split; [reflexivity|].
  all: rewrite ?handles_del, ?handles_capture_all.
  all: split;
    [ first [ reflexivity
            | rewrite <- handles_del, del_absent;
              [reflexivity | now apply negb_true_iff] ] |].
  all: split;
    [ intros; repeat first [apply DictFacts.wf_del | apply wf_capture_all];
      assumption |].
  all: rewrite <- ?app_assoc.
  all: try (eexists; split; [reflexivity|]; intros info' Hinfo; settle;
            try discriminate; attended_path).
  exists []. rewrite app_nil_r. split; [reflexivity|].
  intros info Hinfo. apply negb_true_iff in Heqb. unfold Dict.mem in Heqb.
  now rewrite Hinfo in Heqb.
Qed.

Lemma handles_mem k h d : In (k, h) (handles d) -> Dict.mem k d = true.
Proof.
  unfold handles. intros H. apply in_map_iff in H.
  destruct H as ([k' info] & [= -> _] & Hin). now apply In_mem in Hin.
Qed.

Lemma handles_del_same id h d : ~ In (id, h) (handles (Dict.del id d)).
Proof.
  rewrite handles_del. intros H. apply filter_In in H. destruct H as [_ H].
  simpl in H. now rewrite String.eqb_refl in H.
Qed.

(** ** Listing *)

(** What the visit of one entry of the snapshot guarantees. *)
Definition list_entry_post (env : Env) (entry : string * process_info)
  (result : Dict.t pyval) (s : term) (r : outcome (Dict.t pyval))
  (s' : term) : Prop :=
  exists result',
    r = Ok result'
    /\ cwd s' = cwd s /\ files s' = files s
    /\ In (fst entry) (Dict.keys result')
    /\ (forall k, In k (Dict.keys result) -> In k (Dict.keys result'))
    /\ exists events,
         trace s' = trace s ++ events
         /\ (background_processes s' = background_processes s
             \/ background_processes s'
                = Dict.del (fst entry) (background_processes s)
                /\ attended env events (process (snd entry))).

Lemma list_entry_spec env entry result s :
  wp (list_entry env entry result) (list_entry_post env entry result s) s.
Proof.
  unfold list_entry, list_entry_post. destruct entry as [process_id info].
  wp_paths; settle; try known_path.
  all: eexists; split; [reflexivity|].
  all: cbn [cwd files background_processes set_background_processes trace
            fst snd].
  all: split; [reflexivity|]; split; [reflexivity|].
  all: split; [apply keys_set_new|].
  all: split; [intros; now apply keys_set_keep|].
  all: rewrite <- ?app_assoc.
  all: eexists; split; [reflexivity|].
  all: try (left; reflexivity).
  right. split; [reflexivity | attended_path].
Qed.

(** The snapshot and the registry name the same process under each id. *)
Definition agree (snapshot : list (string * process_info))
  (d : Dict.t process_info) : Prop :=
  forall id info h,
    In (id, info) snapshot -> In (id, h) (handles d) -> h = process info.

Definition list_post (env : Env) (snapshot : list (string * process_info))
  (result : Dict.t pyval) (s : term) (r : outcome (Dict.t pyval))
  (s' : term) : Prop :=
  exists result',
    r = Ok result'
    /\ cwd s' = cwd s /\ files s' = files s
    /\ (Dict.wf (background_processes s) -> Dict.wf (background_processes s'))
    /\ incl (handles (background_processes s'))
            (handles (background_processes s))
    /\ (forall k, In k (Dict.keys result) \/ In k (map fst snapshot) ->
                  In k (Dict.keys result'))
    /\ exists events,
         trace s' = trace s ++ events
         /\ (agree snapshot (background_processes s) ->
             forall id h,
               In (id, h) (handles (background_processes s)) ->
               In (id, h) (handles (background_processes s'))
               \/ attended env events h).

Lemma list_loop_spec env snapshot :
  forall result s,
    wp (list_loop env snapshot result) (list_post env snapshot result s) s.
Proof.
  induction snapshot as [|entry rest IH]; intros result s; cbn [list_loop].
  - wp_step. exists result. repeat split; auto using incl_refl.
    + intros k [H|[]]. exact H.
    + exists []. rewrite app_nil_r. auto.
  - wp_step. eapply wp_mono; [apply list_entry_spec|].
    intros r s1 (result1 & -> & Hcwd & Hfiles & Hkey & Hkeep
                 & ev1 & Htr1 & Hreg).
    assert (Hincl1 : incl (handles (background_processes s1))
                          (handles (background_processes s)))
      by (destruct Hreg as [->|[-> _]];
          [apply incl_refl | apply handles_del_incl]).
    eapply wp_mono; [apply (IH result1 s1)|].
    intros r' s' (result' & -> & Hcwd' & Hfiles' & Hwf' & Hincl' & Hkeys'
                  & ev2 & Htr2 & Hstop).
    exists result'. split; [reflexivity|].
    split; [congruence|]. split; [congruence|].
    split; [|split; [|split]].
    + intros Hwf. apply Hwf'.
      destruct Hreg as [->|[-> _]]; [assumption | now apply DictFacts.wf_del].
    + eapply incl_tran; eassumption.
    + intros k [Hk|[<-|Hk]]; apply Hkeys'; auto.
    + exists (ev1 ++ ev2). split; [now rewrite Htr2, Htr1, app_assoc|].
      intros Hagree id h Hin.
      assert (Hagree1 : agree rest (background_processes s1))
        by (intros id' info' h' Hin' Hh';
            apply (Hagree id' info' h'); [now right | now apply Hincl1]).
      specialize (Hstop Hagree1).
      destruct Hreg as [Hsame|[Hdel Hdead]].
      * rewrite <- Hsame in Hin.
        destruct (Hstop id h Hin) as [H|H];
          [now left | right; now apply attended_app_r].
      * destruct (String.eqb_spec id (fst entry)) as [->|Hne].
        -- right. apply attended_app_l.
           rewrite (Hagree (fst entry) (snd entry) h); auto.
           left. now destruct entry.
        -- assert (Hin1 : In (id, h) (handles (background_processes s1)))
             by (rewrite Hdel; now apply handles_del_other).
           destruct (Hstop id h Hin1) as [H|H];
             [now left | right; now apply attended_app_r].
Qed.

Lemma agree_self d : Dict.wf d -> agree d d.
Proof.
  intros Hwf id info h Hin Hh.
  destruct (@handles_get id h d Hwf Hh) as (info' & Hget & <-).
  apply (@DictFacts.In_get _ id info d Hwf) in Hin. congruence.
Qed.

(** ** Stopping each listed id *)

Definition stop_each (env : Env) (ids : list string) : M term unit :=
  for_each ids (fun process_id =>
                  bind (stop_background_process env process_id)
                       (fun _ => ret tt)).

Definition stop_each_post (env : Env) (ids : list string) (s : term)
  (r : outcome unit) (s' : term) : Prop :=
  r = Ok tt
  /\ cwd s' = cwd s /\ files s' = files s
  /\ (Dict.wf (background_processes s) -> Dict.wf (background_processes s'))
  /\ incl (handles (background_processes s'))
          (handles (background_processes s))
  /\ (forall k h, In k ids -> ~ In (k, h) (handles (background_processes s')))
  /\ exists events,
       trace s' = trace s ++ events
       /\ (Dict.wf (background_processes s) ->
           forall id h,
             In id ids -> In (id, h) (handles (background_processes s)) ->
             attended env events h).

Lemma stop_each_spec env ids :
  forall s, wp (stop_each env ids) (stop_each_post env ids s) s.
Proof.
  unfold stop_each.
  induction ids as [|k rest IH]; intros s; cbn [for_each].
  - wp_step. repeat split; auto using incl_refl.
    exists []. rewrite app_nil_r. split; [reflexivity|]. intros _ ? ? [].
  - wp_step. wp_step. eapply wp_mono; [apply stop_background_process_spec|].
    intros r s1 ([v ->] & Hcwd & Hfiles & Hh & Hwf1 & ev1 & Htr1 & Hstop1).
    wp_step. eapply wp_mono; [apply IH|].
    intros r' s' (-> & Hcwd' & Hfiles' & Hwf' & Hincl' & Hgone'
                  & ev2 & Htr2 & Hstop2).
    assert (Hincl1 : incl (handles (background_processes s1))
                          (handles (background_processes s)))
      by (rewrite Hh; apply handles_del_incl).
    split; [reflexivity|]. split; [congruence|]. split; [congruence|].
    split; [auto|]. split; [eapply incl_tran; eassumption|]. split.
    + intros k' h [<-|Hin]; [|now apply Hgone'].
      intros H. apply Hincl' in H. rewrite Hh in H.
      now apply handles_del_same in H.
    + exists (ev1 ++ ev2). split; [now rewrite Htr2, Htr1, app_assoc|].
      intros Hwf id h Hid Hin.
      destruct (String.eqb_spec id k) as [->|Hne].
      * apply attended_app_l.
        destruct (@handles_get k h _ Hwf Hin) as (info & Hget & <-).
        now apply Hstop1.
      * apply attended_app_r. apply (Hstop2 (Hwf1 Hwf) id h).
        -- destruct Hid as [->|Hid]; [contradiction | exact Hid].
        -- rewrite Hh. now apply handles_del_other.
Qed.

(** ** The cleanup pass *)

(** The cleanup pass on the terminal: list, then stop each listed id. *)
Definition stop_listed (env : Env) : M term unit :=
  bind (list_background_processes env)
       (fun processes => stop_each env (Dict.keys processes)).

Definition stop_listed_post (env : Env) (s : term) (r : outcome unit)
  (s' : term) : Prop :=
  r = Ok tt
  /\ cwd s' = cwd s /\ files s' = files s
  /\ background_processes s' = []
  /\ exists events,
       trace s' = trace s ++ events
       /\ (Dict.wf (background_processes s) ->
           forall id h,
             In (id, h) (handles (background_processes s)) ->
             attended env events h).

Lemma stop_listed_spec env s :
  wp (stop_listed env) (stop_listed_post env s) s.
Proof.
  unfold stop_listed, list_background_processes.
  wp_step. wp_step. wp_step.
  eapply wp_mono; [apply list_loop_spec|].
  intros r s1 (result & -> & Hcwd & Hfiles & Hwf1 & Hincl1 & Hkeys
               & ev1 & Htr1 & Hdead).
  eapply wp_mono; [apply stop_each_spec|].
  intros r' s' (-> & Hcwd' & Hfiles' & Hwf' & Hincl' & Hgone
                & ev2 & Htr2 & Hstop).
  split; [reflexivity|]. split; [congruence|]. split; [congruence|]. split.
  - destruct (background_processes s') as [|[k info] rest] eqn:E;
      [reflexivity|].
    exfalso. apply (Hgone k (process info)).
    + apply Hkeys. right.
      assert (Hk : In (k, process info) (handles (background_processes s)))
        by (apply Hincl1, Hincl'; simpl; now left).
      apply handles_mem in Hk. now apply mem_keys in Hk.
    + simpl. now left.
  - exists (ev1 ++ ev2). split; [now rewrite Htr2, Htr1, app_assoc|].
    intros Hwf id h Hin.
    destruct (Hdead (agree_self Hwf) id h Hin) as [Hin1|Hd].
    + apply attended_app_r. apply (Hstop (Hwf1 Hwf) id h); [|exact Hin1].
      apply Hkeys. right. apply handles_mem in Hin. now apply mem_keys in Hin.
    + now apply attended_app_l.
Qed.

End CleanupSpec.

(* ================================================================== *)
(** * Invariants along a run *)
(* ================================================================== *)

(** [keeps R s]: the run ends (it does not exhaust the loop bound of the
    model) in a state related to [s] by the preorder [R]. *)
Definition keeps {St A} (R : St -> St -> Prop) (s : St)
  : outcome A -> St -> Prop :=
  fun r s' => r <> OutOfFuel /\ R s s'.

Section Keeps.
Context {St : Type}.
Variable R : St -> St -> Prop.
Hypothesis R_refl : forall s, R s s.
Hypothesis R_trans : forall s1 s2 s3, R s1 s2 -> R s2 s3 -> R s1 s3.

Lemma keeps_ret {A} (x : A) (s : St) : wp (ret x) (keeps R s) s.
Proof. split; [discriminate | apply R_refl]. Qed.

Lemma keeps_raise {A} (e : exc) (s : St) :
  wp (raise e : M St A) (keeps R s) s.
Proof. split; [discriminate | apply R_refl]. Qed.

Lemma keeps_gets {A} (f : St -> A) (s : St) : wp (gets f) (keeps R s) s.
Proof. split; [discriminate | apply R_refl]. Qed.

Lemma keeps_modify (f : St -> St) (s : St) :
  R s (f s) -> wp (modify f) (keeps R s) s.
Proof. intros H. split; [discriminate | exact H]. Qed.

Lemma keeps_bind {A B} (c : M St A) (k : A -> M St B) (s : St) :
  wp c (keeps R s) s ->
  (forall x s1, R s s1 -> wp (k x) (keeps R s1) s1) ->
  wp (bind c k) (keeps R s) s.
Proof.
  intros Hc Hk. apply wp_bind. eapply wp_mono; [exact Hc|].
  intros [x|e|] s1 [Hr Hs1]; cbv beta iota.
  - eapply wp_mono; [apply (Hk x s1 Hs1)|].
    intros r' s2 [Hr' Hs2]. split; [exact Hr' | eapply R_trans; eassumption].
  - split; [discriminate | exact Hs1].
  - contradiction.
Qed.

Lemma keeps_try_except {A} (c : M St A) (h : exc -> M St A) (s : St) :
  wp c (keeps R s) s ->
  (forall e s1, R s s1 -> wp (h e) (keeps R s1) s1) ->
  wp (try_except c h) (keeps R s) s.
Proof.
  intros Hc Hh. apply wp_try_except. eapply wp_mono; [exact Hc|].
  intros [x|e|] s1 [Hr Hs1]; cbv beta iota.
  - split; [discriminate | exact Hs1].
  - eapply wp_mono; [apply (Hh e s1 Hs1)|].
    intros r' s2 [Hr' Hs2]. split; [exact Hr' | eapply R_trans; eassumption].
  - contradiction.
Qed.

Lemma keeps_for_each {X} (xs : list X) (body : X -> M St unit) :
  (forall x s, wp (body x) (keeps R s) s) ->
  forall s, wp (for_each xs body) (keeps R s) s.
Proof.
  intros Hbody. induction xs as [|x rest IH]; intros s; cbn [for_each].
  - apply keeps_ret.
  - apply keeps_bind; [apply Hbody | intros _ s1 _; apply IH].
Qed.

End Keeps.

(* ================================================================== *)
(** * The step executor and the task loop *)
(* ================================================================== *)

Module AgentSpec.
Import PyStr World Terminal Extractor Agent TerminalSpec CleanupSpec.

(** ** Methods of the terminal run from the agent *)

Lemma on_terminal_bind {A B} (c : M term A) (k : A -> M term B) (a : agent) :
  on_terminal (bind c k) a
  = bind (on_terminal c) (fun x => on_terminal (k x)) a.
Proof.
  unfold on_terminal, lift, bind.
  destruct (c (terminal a)) as [[x|e|] t']; cbn; reflexivity.
Qed.

Lemma on_terminal_for_each {X A} (body : X -> M term A) (xs : list X) :
  forall a,
    for_each xs (fun x => bind (on_terminal (body x)) (fun _ => ret tt)) a
    = on_terminal (for_each xs (fun x => bind (body x) (fun _ => ret tt))) a.
Proof.
  induction xs as [|x rest IH]; intros a; cbn [for_each].
  - now destruct a.
  - unfold bind, on_terminal, lift in *.
    destruct (body x (terminal a)) as [[u|e|] t1]; cbn; try reflexivity.
    apply (IH (Agent_ t1 (history a) (response_errors a) (heap a)
                      (start_time a) (round_trips a))).
Qed.

Lemma bind_ext {St A B} (c : M St A) (k1 k2 : A -> M St B) (s : St) :
  (forall x s', k1 x s' = k2 x s') -> bind c k1 s = bind c k2 s.
Proof.
  intros H. unfold bind. destruct (c s) as [[x|e|] s']; auto.
Qed.

(** The completion handling and the cleanup act on the terminal only. *)
Lemma stop_all_on_terminal (env : Env) (a : agent) :
  stop_all env a = on_terminal (stop_listed env) a.
Proof.
  unfold stop_all, stop_listed, stop_each.
  etransitivity; [|symmetry; apply on_terminal_bind].
  apply bind_ext. intros processes a1.
  apply (on_terminal_for_each (stop_background_process env)).
Qed.

(** The agent with another terminal. *)
Definition with_terminal (t : term) (a : agent) : agent :=
  Agent_ t (history a) (response_errors a) (heap a) (start_time a)
         (round_trips a).

Lemma stop_all_run (env : Env) (a : agent) :
  exists t',
    stop_all env a = (Ok tt, with_terminal t' a)
    /\ stop_listed_post env (terminal a) (Ok tt) t'.
Proof.
  rewrite stop_all_on_terminal. unfold on_terminal, lift.
  pose proof (stop_listed_spec env (terminal a)) as H. apply wp_run in H.
  destruct H as (r & t' & Hrun & Hpost). rewrite Hrun.
  pose proof Hpost as (-> & _). exists t'. split; [reflexivity | exact Hpost].
Qed.

(** ** Building the prompt *)

Definition with_heap (h : store) (a : agent) : agent :=
  Agent_ (terminal a) (history a) (response_errors a) h (start_time a)
         (round_trips a).

Lemma build_history_text_run (env : Env) (a : agent) :
  exists text extra,
    on_heap (build_history_text env (history a)) a
    = (Ok text, with_heap (heap a ++ extra)%list a).
Proof.
  unfold on_heap, lift, build_history_text.
  destruct (ReplaySpec.replay_extends env (history a) 1 "" (heap a))
    as (t & e & ->).
  now exists t, e.
Qed.

(** ** Retries exhausted *)

(** Every reply of the model client parses to a decision the validity gate
    rejects. *)
Definition always_invalid (env : Env) : Prop :=
  forall n message,
    exists text d diagnostic,
      llm env n message = ReplyText text
      /\ extract_response_from_tags text = Ok (d, diagnostic)
      /\ invalid d = true.

(** The tuple of a step that gave up on parsing. *)
Definition parse_gave_up : step_tuple :=
  (false, "", None,
   Val (error_result (parse_failure success_diagnostic))).

Definition with_round_trips (n : nat) (a : agent) : agent :=
  Agent_ (terminal a) (history a) (response_errors a) (heap a)
         (start_time a) n.

(** One turn of the retry loop. *)
Lemma attempts_S (env : Env) (message : string) (step_num max_retries : Z)
  (fuel : nat) (retry_count : Z) (content : option string) (a : agent) :
  attempts env message step_num max_retries (S fuel) retry_count content a
  = (if (retry_count <=? max_retries)%Z then
       bind (gets round_trips) (fun n =>
         let content' :=
           match llm env n message with
           | ReplyText c => Some c
           | ReplyRaises _ => content
           end in
         bind (try_except
                 (bind (request env message)
                       (dispatch env max_retries retry_count))
                 (on_exception step_num max_retries retry_count content'))
              (fun f =>
                 match f with
                 | Continue =>
                     attempts env message step_num max_retries fuel
                              (retry_count + 1) content'
                 | Return r => ret (Some r)
                 end))
     else ret None) a.
Proof. reflexivity. Qed.

Lemma attempts_always_invalid (env : Env) (message : string)
  (step_num max_retries : Z) :
  always_invalid env ->
  forall k retry_count content a,
    retry_count = (max_retries - Z.of_nat k)%Z ->
    attempts env message step_num max_retries (S k) retry_count content a
    = (Ok (Some parse_gave_up), with_round_trips (round_trips a + S k) a).
Proof.
  intros Hinv. induction k as [|k IH]; intros retry_count content a Hrc;
    rewrite attempts_S;
    (destruct (Z.leb_spec retry_count max_retries) as [_|]; [|lia]);
    destruct (Hinv (round_trips a) message)
      as (text & d & diagnostic & Hreply & Hextract & Hinvalid);
    pose proof (ExtractorSpec.extract_diagnostic _ Hextract) as ->;
    unfold bind, gets, try_except, request, modify, dispatch, of_outcome;
    cbn -[attempts]; rewrite Hreply; cbn -[attempts];
    rewrite Hextract, Hinvalid.
  - destruct (Z.ltb_spec retry_count max_retries) as [|_]; [lia|].
    cbn. unfold with_round_trips, parse_gave_up.
    now replace (round_trips a + 1) with (S (round_trips a)) by lia.
  - destruct (Z.ltb_spec retry_count max_retries) as [_|]; [|lia].
    cbn -[attempts]. rewrite IH by lia. unfold with_round_trips.
    cbn. do 2 f_equal. lia.
Qed.

(** C4: when every reply of the model client parses to an invalid decision,
    a step with a retry ceiling [max_retries >= 0] makes exactly
    [max_retries + 1] round trips and then returns not-done, an empty
    thought, no action and the error payload of the parsing failure; it
    executes nothing and leaves terminal and history as they were. *)
Theorem retries_exhausted (env : Env) (task : string)
  (step_num max_steps max_retries : Z) (a : agent) :
  (0 <= max_retries)%Z ->
  always_invalid env ->
  exists a',
    execute_step env task step_num max_steps max_retries a
    = (Ok (Some (false, "", None,
                 Val (VDict [("error",
                              VStr ("Failed to extract valid response "
                                    ++ "structure: Successfully extracted "
                                    ++ "response from tags"))]))), a')
    /\ round_trips a' = round_trips a + Z.to_nat (max_retries + 1)
    /\ terminal a' = terminal a
    /\ history a' = history a
    /\ response_errors a' = response_errors a.
Proof.
  intros Hmax Hinv. unfold execute_step.
  destruct (build_history_text_run env a) as (text & extra & Hbuild).
  unfold bind at 1, gets at 1. unfold bind at 1. rewrite Hbuild.
  unfold bind at 1, gets at 1.
  replace (Z.to_nat (max_retries + 1)) with (S (Z.to_nat max_retries))
    by lia.
  rewrite (@attempts_always_invalid env _ step_num max_retries Hinv
             (Z.to_nat max_retries) 0%Z None) by lia.
  eexists. split; [reflexivity|]. cbn. repeat split.
Qed.

(** A model client that only chats: three round trips with the default
    ceiling of two retries. *)
Definition chatty : Env :=
  Scenario.world (fun _ => ReplyText "Sure, I can help with that!")
                 (TimeoutExpired "" "") (fun _ _ => None) (fun _ => NoFault).

Lemma chatty_always_invalid : always_invalid chatty.
Proof.
  intros n message. do 3 eexists. repeat split.
Qed.

Lemma retries_exhausted_witness :
  exists a',
    execute_step chatty "list the files" 1 20 2 Scenario.fresh_agent
    = (Ok (Some (false, "", None,
                 Val (VDict [("error",
                              VStr ("Failed to extract valid response "
                                    ++ "structure: Successfully extracted "
                                    ++ "response from tags"))]))), a')
    /\ round_trips a' = round_trips Scenario.fresh_agent + Z.to_nat (2 + 1)
    /\ terminal a' = terminal Scenario.fresh_agent
    /\ history a' = history Scenario.fresh_agent
    /\ response_errors a' = response_errors Scenario.fresh_agent.
Proof.
  apply (@retries_exhausted chatty "list the files" 1 20 2
           Scenario.fresh_agent).
  - lia.
  - exact chatty_always_invalid.
Defined.

(** ** A decision with both an action and completion *)

Lemma has_function_valid (d : decision) :
  has_function d = true -> invalid d = false.
Proof.
  unfold invalid, has_function, get_function, nonempty. intros H.
  destruct (thought d), (function d) as [[f|]|], (task_complete d),
    (parameters d); try discriminate H; now rewrite ?H.
Qed.


(** A reply that names an action and also declares the task complete. *)
Definition eager_reply : string :=
  "<thought>Write the file, then we are done.</thought>"
  ++ "<function>terminal.write_file</function>"
  ++ "<parameters>path: a.txt" ++ nl ++ "content: hi</parameters>"
  ++ "<task_complete>true</task_complete>".


Definition eager : Env :=
  Scenario.world (fun _ => ReplyText eager_reply) (TimeoutExpired "" "")
                 (fun _ _ => None) (fun _ => NoFault).



Example both_flags_nothing_written :
  execute_step eager "write a.txt" 1 20 2 Scenario.fresh_agent
  = (Ok (Some (true, "Write the file, then we are done.", None, Val VNone)),
     Agent_ (Terminal_for_agent "/work" [] 0 [] []) [] [] [] None 1).
Proof. reflexivity. Qed.

(** The same action without the completion flag is executed. *)
Example action_alone_is_executed :
  let reply :=
    "<function>terminal.write_file</function>"
    ++ "<parameters>path: a.txt" ++ nl ++ "content: hi</parameters>" in
  let w := Scenario.world (fun _ => ReplyText reply) (TimeoutExpired "" "")
             (fun _ _ => None) (fun _ => NoFault) in
  let call :=
    "terminal.write_file(path=" ++ dquote ++ "a.txt" ++ dquote
    ++ ", content=" ++ dquote ++ "hi" ++ dquote ++ ")" in
  execute_step w "write a.txt" 1 20 2 Scenario.fresh_agent
  = (Ok (Some (false, "No thought provided", Some call, Ref 0)),
     Agent_ (Terminal_for_agent "/work" [] 1 [("a.txt", "hi")]
               [EvWriteFile "a.txt" "hi"])
            [(call, Ref 0)] []
            [[("success", VBool true);
              ("message", VStr "File a.txt written successfully")]]
            None 1).
Proof. reflexivity. Qed.

End AgentSpec.

(* ================================================================== *)
(** * The task loop and its cleanup *)
(* ================================================================== *)

Module TaskLoopSpec.
Import PyStr World Terminal Extractor Agent TerminalSpec CleanupSpec AgentSpec.

(** The terminal of the agent evolves. *)
Definition calm (env : Env) (a a' : agent) : Prop :=
  evolves env (terminal a) (terminal a').

Lemma calm_refl env a : calm env a a.
Proof. apply evolves_refl. Qed.

Lemma calm_trans env a1 a2 a3 :
  calm env a1 a2 -> calm env a2 a3 -> calm env a1 a3.
Proof. apply evolves_trans. Qed.

(** Nothing is asked of the store but that the run ends. *)
Definition whatever (h h' : store) : Prop := True.

Ltac preorder :=
  first [ intros; exact I
        | intros; apply evolves_refl
        | intros; eapply evolves_trans; eassumption
        | intros; apply calm_refl
        | intros; eapply calm_trans; eassumption ].

(** One structural step of an invariant proof. *)
Ltac keeps_step :=
  lazymatch goal with
  | |- wp (bind _ _) (keeps _ _) _ =>
      eapply keeps_bind; [preorder | | intros ? ? ?]
  | |- wp (try_except _ _) (keeps _ _) _ =>
      eapply keeps_try_except; [preorder | | intros ? ? ?]
  | |- wp (ret _) (keeps _ _) _ => apply keeps_ret; preorder
  | |- wp (raise _) (keeps _ _) _ => apply keeps_raise; preorder
  | |- wp (gets _) (keeps _ _) _ => apply keeps_gets; preorder
  | |- wp (match ?x with _ => _ end) _ _ => destruct x eqn:?
  | |- wp (if ?x then _ else _) _ _ => destruct x eqn:?
  end.

Lemma total_keeps env s {A} (r : outcome A) s' :
  total env s r s' -> keeps (evolves env) s r s'.
Proof. intros [[v ->] H]. split; [discriminate | exact H]. Qed.

Lemma on_terminal_keeps env {A} (c : M term A) (a : agent) :
  wp c (keeps (evolves env) (terminal a)) (terminal a) ->
  wp (on_terminal c) (keeps (calm env) a) a.
Proof.
  intros H. apply wp_lift. eapply wp_mono; [exact H|].
  intros r t' [Hr Hev]. split; assumption.
Qed.

Lemma on_terminal_total env {A} (c : M term A) (a : agent) :
  wp c (total env (terminal a)) (terminal a) ->
  wp (on_terminal c) (keeps (calm env) a) a.
Proof.
  intros H. apply on_terminal_keeps. eapply wp_mono; [exact H|].
  intros r t'. apply total_keeps.
Qed.

Lemma on_heap_keeps env {A} (c : M store A) (a : agent) :
  wp c (keeps whatever (heap a)) (heap a) ->
  wp (on_heap c) (keeps (calm env) a) a.
Proof.
  intros H. apply wp_lift. eapply wp_mono; [exact H|].
  intros r h' [Hr _]. split; [exact Hr | apply evolves_refl].
Qed.

(** ** The store *)

Lemma build_history_text_ends env entries h :
  wp (build_history_text env entries) (keeps whatever h) h.
Proof.
  unfold build_history_text, wp.
  destruct (ReplaySpec.replay_extends env entries 1 "" h) as (t & e & ->).
  split; [discriminate | exact I].
Qed.

Lemma to_obj_ends v h : wp (to_obj v) (keeps whatever h) h.
Proof.
  destruct v; cbn [to_obj]; try (apply keeps_ret; preorder).
  keeps_step; [|keeps_step]. split; [discriminate | exact I].
Qed.

Lemma load_ends l h : wp (load l) (keeps whatever h) h.
Proof. apply keeps_gets. preorder. Qed.

Lemma alloc_ends d h : wp (alloc d) (keeps whatever h) h.
Proof. split; [discriminate | exact I]. Qed.

Lemma delkey_ends l k h : wp (delkey l k) (keeps whatever h) h.
Proof. apply keeps_modify. exact I. Qed.

Lemma require_len_split_ends v (h : store) :
  wp (require_len_split v) (keeps whatever h) h.
Proof. destruct v; cbn [require_len_split]; keeps_step. Qed.

Lemma require_split_ends v (h : store) :
  wp (require_split v) (keeps whatever h) h.
Proof. destruct v; cbn [require_split]; keeps_step. Qed.

Lemma print_result_dict_ends l h :
  wp (print_result_dict l) (keeps whatever h) h.
Proof.
  unfold print_result_dict.
  repeat first [ keeps_step
               | apply load_ends | apply alloc_ends | apply delkey_ends
               | apply require_len_split_ends | apply require_split_ends ].
Qed.

Lemma print_result_ends result h :
  wp (print_result result) (keeps whatever h) h.
Proof.
  destruct result as [l|v]; cbn [print_result];
    [apply print_result_dict_ends|].
  destruct v; try (apply keeps_ret; preorder).
  keeps_step; [apply alloc_ends | apply print_result_dict_ends].
Qed.

(** ** Dispatch *)

Lemma bind_arguments_keeps env method signature parameters_ (s : term) :
  wp (Tools.bind_arguments method signature parameters_)
     (keeps (evolves env) s) s.
Proof. unfold Tools.bind_arguments. repeat keeps_step. Qed.

Lemma handler_total env method parameters_ s :
  wp (Tools.handler env method parameters_) (total env s) s.
Proof.
  unfold Tools.handler.
  repeat match goal with
         | |- wp (if ?x then _ else _) _ _ => destruct x
         end;
    auto using run_command_total, start_background_process_total,
      get_process_output_total, send_input_to_process_total,
      write_file_total, append_to_file_total, get_file_contents_total,
      read_only_tool_total.
  - wp_step. eapply wp_mono; [apply list_background_processes_total|].
    intros r s' [[v ->] Hev]. wp_step. split; eauto.
  - eapply wp_mono; [apply stop_background_process_total|]. now intros r s' [].
Qed.

Lemma run_tool_keeps env function_name parameters_ s :
  wp (Tools.run_tool env function_name parameters_)
     (keeps (evolves env) s) s.
Proof.
  unfold Tools.run_tool.
  match goal with
  | |- context [Dict.get ?f Tools.available_tools] =>
      destruct (Dict.get f Tools.available_tools) as [[method signature]|]
  end.
  - keeps_step; [apply bind_arguments_keeps|].
    eapply wp_mono; [apply handler_total|]. intros r s'. apply total_keeps.
  - keeps_step.
Qed.

Lemma append_chunks_total env path chunks :
  forall s, wp (append_chunks env path chunks) (total env s) s.
Proof.
  induction chunks as [|chunk rest IH]; intros s; cbn [append_chunks].
  - wp_step. split; [eauto | apply evolves_refl].
  - wp_step. eapply wp_mono; [apply append_to_file_total|].
    intros r s1 [[v ->] Hev].
    assert (Hrest : wp (append_chunks env path rest) (total env s) s1)
      by (eapply wp_mono; [apply IH|]; intros r' s2 Ht;
          eapply total_trans; eassumption).
    destruct v; try exact Hrest.
    destruct (Dict.mem "error" d); [|exact Hrest].
    wp_step. split; eauto.
Qed.

Lemma content_chunks_keeps {St} (R : St -> St -> Prop) content chunk_size
  (s : St) :
  (forall s0, R s0 s0) ->
  wp (content_chunks content chunk_size) (keeps R s) s.
Proof.
  intros Hrefl. unfold content_chunks, py_range, bind, wp.
  destruct (chunk_size =? 0)%Z; cbn; (split; [discriminate | apply Hrefl]).
Qed.

(** The chunked write, when its guard holds: the method it would fall back
    to is not called. *)
Lemma chunk_large_file_operations_keeps env rec function_name parameters_
  chunk_size a :
  str_in function_name file_actions = true ->
  Dict.mem "content" parameters_ = true ->
  (chunk_size <? len (Tools.arg "content" parameters_))%Z = true ->
  wp (chunk_large_file_operations_with rec env function_name parameters_
        chunk_size) (keeps (calm env) a) a.
Proof.
  intros Hfile Hmem Hlong. unfold chunk_large_file_operations_with.
  rewrite Hfile, Hmem, Hlong. cbn [andb].
  keeps_step.
  - destruct (String.eqb function_name "terminal.write_file").
    + keeps_step; [|keeps_step].
      apply on_terminal_total, write_file_total.
    + keeps_step.
  - keeps_step; [apply content_chunks_keeps; preorder|].
    keeps_step; [apply on_terminal_total, append_chunks_total|].
    destruct x1; keeps_step.
Qed.

Lemma startswith_terminal (f : string) :
  startswith "terminal." f = true -> f = "terminal." ++ drop 9 f.
Proof.
  unfold startswith. intros H.
  do 9 (destruct f as [|? f]; cbn [prefix] in H; [discriminate|];
        match type of H with
        | context [ascii_dec ?x ?y] =>
            destruct (ascii_dec x y) as [<-|]; [|discriminate]
        end).
  reflexivity.
Qed.

Lemma file_action_of_method (f : string) :
  startswith "terminal." f = true ->
  str_in (drop 9 f) ["write_file"; "append_to_file"] = true ->
  str_in f file_actions = true.
Proof.
  intros Hp Hm. rewrite (startswith_terminal f Hp).
  unfold str_in, existsb in Hm.
  destruct (String.eqb_spec (drop 9 f) "write_file") as [->|];
    [reflexivity|].
  destruct (String.eqb_spec (drop 9 f) "append_to_file") as [->|];
    [reflexivity | discriminate].
Qed.

Lemma wp_bind_ret {St A B} (x : A) (k : A -> M St B) Q s :
  wp (k x) Q s -> wp (bind (ret x) k) Q s.
Proof. exact (fun H => H). Qed.

(** [run_function] ends: depth one is enough, because the chunked write it
    routes to never falls back. *)
Lemma run_function_at_keeps env depth function_name parameters_ a :
  wp (run_function_at (S depth) env function_name parameters_)
     (keeps (calm env) a) a.
Proof.
  cbn [run_function_at].
  set (f := if str_in function_name bare_names
            then "terminal." ++ function_name else function_name).
  destruct (startswith "terminal." f) eqn:Hprefix; [|keeps_step].
  unfold method_name_of. rewrite (PyStrFacts.split_once_terminal f Hprefix).
  apply wp_bind_ret.
  assert (Hrun : wp (on_terminal (Tools.run_tool env f parameters_))
                    (keeps (calm env) a) a)
    by apply on_terminal_keeps, run_tool_keeps.
  destruct (str_in (drop 9 f) ["write_file"; "append_to_file"]
            && Dict.mem "content" parameters_) eqn:Hguard; [|exact Hrun].
  apply andb_true_iff in Hguard. destruct Hguard as [Hmethod Hmem].
  destruct (50000 <? len (Tools.arg "content" parameters_))%Z;
    [|exact Hrun].
  destruct (100000 <? len (Tools.arg "content" parameters_))%Z eqn:Hbig;
    [|exact Hrun].
  apply chunk_large_file_operations_keeps.
  - apply file_action_of_method; assumption.
  - exact Hmem.
  - apply Z.ltb_lt in Hbig. apply Z.ltb_lt. lia.
Qed.

Lemma run_function_keeps env function_name parameters_ a :
  wp (run_function env function_name parameters_) (keeps (calm env) a) a.
Proof. apply run_function_at_keeps. Qed.

Lemma stop_all_keeps env a : wp (stop_all env) (keeps (calm env) a) a.
Proof.
  unfold stop_all. keeps_step.
  - apply on_terminal_total, list_background_processes_total.
  - apply keeps_for_each; [preorder | preorder |].
    intros process_id a1. keeps_step; [|keeps_step].
    apply on_terminal_total.
    eapply wp_mono; [apply stop_background_process_total|].
    now intros r t' [].
Qed.

Lemma calm_same_terminal env a a' : terminal a' = terminal a -> calm env a a'.
Proof. unfold calm. intros ->. apply evolves_refl. Qed.

Lemma dispatch_keeps env max_retries retry_count content a :
  wp (dispatch env max_retries retry_count content) (keeps (calm env) a) a.
Proof.
  unfold dispatch.
  pose proof (ExtractorSpec.extract_response_ends content) as Hends.
  destruct (extract_response_from_tags content) as [[d diagnostic]|e|];
    [|apply wp_bind, wp_of_outcome; split; [discriminate | apply calm_refl]
     |contradiction].
  apply wp_bind_ret. cbv beta iota.
  repeat first
    [ keeps_step
    | apply run_function_keeps
    | apply stop_all_keeps
    | apply on_heap_keeps, to_obj_ends
    | apply keeps_modify, calm_same_terminal; reflexivity ].
Qed.

Lemma request_keeps env message a :
  wp (request env message) (keeps (calm env) a) a.
Proof.
  unfold request.
  repeat first
    [ keeps_step
    | apply keeps_modify, calm_same_terminal; reflexivity ].
Qed.

Lemma on_exception_keeps env step_num max_retries retry_count content e a :
  wp (on_exception step_num max_retries retry_count content e)
     (keeps (calm env) a) a.
Proof.
  unfold on_exception.
  repeat first
    [ keeps_step
    | apply keeps_modify, calm_same_terminal; reflexivity ].
Qed.

(** The retry loop ends when its bound covers the retries left. *)
Lemma attempts_keeps env message step_num max_retries :
  forall fuel retry_count content a,
    (max_retries - retry_count + 1 <= Z.of_nat fuel)%Z ->
    wp (attempts env message step_num max_retries fuel retry_count content)
       (keeps (calm env) a) a.
Proof.
  induction fuel as [|fuel IH]; intros retry_count content a Hfuel;
    cbn [attempts];
    destruct (Z.leb_spec retry_count max_retries); try lia;
    try (keeps_step; fail).
  keeps_step; [keeps_step|].
  keeps_step.
  - keeps_step.
    + keeps_step; [apply request_keeps | apply dispatch_keeps].
    + apply on_exception_keeps.
  - destruct x0; [|keeps_step]. apply IH. lia.
Qed.

Lemma execute_step_keeps env task step_num max_steps max_retries a :
  wp (execute_step env task step_num max_steps max_retries)
     (keeps (calm env) a) a.
Proof.
  unfold execute_step.
  keeps_step; [keeps_step|].
  keeps_step; [apply on_heap_keeps, build_history_text_ends|].
  keeps_step; [keeps_step|].
  apply attempts_keeps. lia.
Qed.

Lemma task_step_keeps env task step_ max_steps a :
  wp (task_step env task step_ max_steps) (keeps (calm env) a) a.
Proof.
  unfold task_step.
  keeps_step; [apply execute_step_keeps|].
  destruct x as [[[[done thought_] function_call] result]|]; [|keeps_step].
  keeps_step.
  - destruct function_call as [c|]; [|keeps_step].
    destruct (PyStr.truthy c); [|keeps_step].
    apply on_heap_keeps, print_result_ends.
  - destruct done; [|keeps_step].
    keeps_step; [keeps_step|]. destruct x0; keeps_step.
Qed.

(** The task loop ends when its bound covers the steps left. *)
Lemma task_loop_keeps env task max_steps :
  forall fuel step_ a,
    (max_steps - step_ + 1 <= Z.of_nat fuel)%Z ->
    wp (task_loop env task max_steps fuel step_) (keeps (calm env) a) a.
Proof.
  induction fuel as [|fuel IH]; intros step_ a Hfuel; cbn [task_loop];
    destruct (Z.leb_spec step_ max_steps); try lia;
    try (keeps_step; fail).
  keeps_step; [apply task_step_keeps|].
  destruct x; [|keeps_step]. apply IH. lia.
Qed.

(** ** Every way out of the task loop is followed by the cleanup *)

(** C2 (amended): however the task loop ends, by returning [True] on
    completion, by returning [False] when the steps are used up, or by an
    exception that escapes the loop body, [solve_task] ends the same way
    after the cleanup pass has run on the state the loop left.  The
    cleanup leaves the registry empty, and it is best effort for the
    processes: each process that was registered when the loop ended has
    been found dead by a poll, or has been sent [SIGKILL], or has been
    given up because the operating system refused a signal; the exception
    of a refused signal is swallowed, the record is removed all the same,
    and the process may still run. *)
Theorem solve_task_cleanup (env : Env) (task : string) (max_steps : Z)
  (a : agent) :
  Dict.wf (background_processes (terminal a)) ->
  exists r a_exit a' events,
    task_loop env task max_steps (Z.to_nat max_steps) 1 a = (r, a_exit)
    /\ r <> OutOfFuel
    /\ cleanup env a_exit = (Ok tt, a')
    /\ solve_task env task max_steps a = (r, a')
    /\ background_processes (terminal a') = []
    /\ trace (terminal a') = (trace (terminal a_exit) ++ events)%list
    /\ forall id handle,
         In (id, handle) (handles (background_processes (terminal a_exit))) ->
         seen_dead events handle
         \/ killed events handle
         \/ signal_refused env events handle.
Proof.
  intros Hwf.
  pose proof (@task_loop_keeps env task max_steps (Z.to_nat max_steps) 1 a
                ltac:(lia)) as Hloop.
  apply wp_run in Hloop. destruct Hloop as (r & a_exit & Hrun & Hr & Hcalm).
  destruct (stop_all_run env a_exit)
    as (t' & Hstop & _ & _ & _ & Hgone & events & Htrace & Hattended).
  exists r, a_exit, (with_terminal t' a_exit), events.
  split; [exact Hrun|]. split; [exact Hr|].
  split; [exact Hstop|]. split.
  - unfold solve_task, try_finally. rewrite Hrun.
    unfold cleanup. now rewrite Hstop.
  - split; [exact Hgone|]. split; [exact Htrace|].
    apply Hattended. apply (ev_wf Hcalm). exact Hwf.
Qed.

(** An agent whose terminal has one registered process that stays alive
    until it is killed, in three worlds: the model declares the task
    complete, the model keeps listing the processes, and both again for an
    agent whose [start_time] was set from outside. *)
Definition done_reply : reply :=
  ReplyText "<thought>All done.</thought><task_complete>true</task_complete>".

Definition busy_reply : reply :=
  ReplyText "<function>terminal.list_background_processes</function>".

Definition finishing : Env :=
  Scenario.world (fun _ => done_reply) (TimeoutExpired "" "")
                 (fun _ _ => None) (fun _ => NoFault).

Definition busy : Env :=
  Scenario.world (fun _ => busy_reply) (TimeoutExpired "" "")
                 (fun _ _ => None) (fun _ => NoFault).

Definition serving (start : option Z) : agent :=
  Agent_ Scenario.one_process [] [] [] start 0.

(** The steps are used up with the process still registered. *)
Lemma solve_task_cleanup_witness :
  exists r a_exit a' events,
    task_loop busy "serve" 2 (Z.to_nat 2) 1 (serving None) = (r, a_exit)
    /\ r <> OutOfFuel
    /\ cleanup busy a_exit = (Ok tt, a')
    /\ solve_task busy "serve" 2 (serving None) = (r, a')
    /\ background_processes (terminal a') = []
    /\ trace (terminal a') = (trace (terminal a_exit) ++ events)%list
    /\ forall id handle,
         In (id, handle) (handles (background_processes (terminal a_exit))) ->
         seen_dead events handle
         \/ killed events handle
         \/ signal_refused busy events handle.
Proof.
  apply (@solve_task_cleanup busy "serve" 2 (serving None)).
  repeat constructor. simpl. tauto.
Defined.

(** A world in which the process cannot be signalled: [os.killpg] raises
    every time, and the process stays alive. *)
Definition unkillable : Env :=
  let w := busy in
  Environment (llm w) (popen_error w) (communicate w) (pipe_reads w)
    (proc_poll w)
    (fun _ _ _ => Some (Exc "PermissionError"
                            "[Errno 1] Operation not permitted"))
    (stdin_error w) (uuid4 w) (captured w) (io w) (time_time w)
    (fs_query w) (json_dumps w) (py_str w).

(** C2 as stated fails there: the loop ends with the process registered,
    the cleanup runs and empties the registry, but the process is not
    stopped.  The only signal was refused, no poll found the process
    dead, and it is alive at every later moment. *)
Lemma cleanup_leaves_process_running :
  let loop := task_loop unkillable "serve" 2 (Z.to_nat 2) 1 (serving None) in
  let run := solve_task unkillable "serve" 2 (serving None) in
  fst loop = Ok false
  /\ handles (background_processes (terminal (snd loop))) = [("p7", 7)]
  /\ fst run = Ok false
  /\ background_processes (terminal (snd run)) = []
  /\ trace (terminal (snd run))
     = (trace (terminal (snd loop))
        ++ [EvPoll 7 None; EvPoll 7 None; EvKillpg 7 SIGTERM true])%list
  /\ forall t, proc_poll unkillable t 7 = None.
Proof.
  cbv zeta. split; [vm_compute; reflexivity|].
  split; [vm_compute; reflexivity|]. split; [vm_compute; reflexivity|].
  split; [vm_compute; reflexivity|]. split; [vm_compute; reflexivity|].
  intros t. reflexivity.
Qed.

(** Way out 1: an exception escapes the loop body (the completion branch
    reads [self.start_time], which nothing has set); the cleanup has run
    all the same. *)
Example solve_task_exception :
  let (r, a') := solve_task finishing "serve" 20 (serving None) in
  r = Raise (Exc "AttributeError"
                 "'Agent' object has no attribute 'start_time'")
  /\ background_processes (terminal a') = []
  /\ trace (terminal a')
     = [EvPoll 7 None; EvPoll 7 None; EvKillpg 7 SIGTERM false;
        EvPoll 7 None; EvKillpg 7 SIGKILL false].
Proof. vm_compute. repeat split. Qed.

(** Way out 2: explicit completion. *)
Example solve_task_completion :
  let (r, a') := solve_task finishing "serve" 20 (serving (Some 0%Z)) in
  r = Ok true /\ background_processes (terminal a') = [].
Proof. vm_compute. repeat split. Qed.

(** Way out 3: the steps are used up with the process still registered;
    the cleanup stops it. *)
Example solve_task_exhaustion :
  let (r_loop, a_exit) := task_loop busy "serve" 2 2 1 (serving None) in
  let (r, a') := solve_task busy "serve" 2 (serving None) in
  r_loop = Ok false
  /\ Dict.keys (background_processes (terminal a_exit)) = ["p7"]
  /\ r = Ok false
  /\ background_processes (terminal a') = []
  /\ skipn (List.length (trace (terminal a_exit))) (trace (terminal a'))
     = [EvPoll 7 None; EvPoll 7 None; EvKillpg 7 SIGTERM false;
        EvPoll 7 None; EvKillpg 7 SIGKILL false].
Proof. vm_compute. repeat split. Qed.

End TaskLoopSpec.

(* ================================================================== *)
(** * More facts about strings *)
(* ================================================================== *)

Module TextFacts.
Import PyStr Extractor.

(** ** Searching *)

Lemma prefix_nil_l (s : string) : prefix "" s = true.
Proof. now destruct s. Qed.

Lemma prefix_app (p t : string) : prefix p (p ++ t) = true.
Proof.
  induction p as [|c p IH]; simpl; [apply prefix_nil_l|].
  destruct (ascii_dec c c); [exact IH | contradiction].
Qed.

Lemma find_here (p t : string) : find p (p ++ t) = Some 0.
Proof.
  unfold find. destruct p as [|c p]; [now destruct t|].
  cbn [append index]. change (String c (p ++ t)) with (String c p ++ t).
  now rewrite prefix_app.
Qed.

(** [c in s] for one character. *)
Lemma char_in_cons (c x : ascii) (r : string) :
  contains (String c "") (String x r)
  = (Ascii.eqb c x || contains (String c "") r).
Proof.
  unfold contains, find. cbn [index prefix].
  destruct (ascii_dec c x) as [->|Hne].
  - now rewrite prefix_nil_l, Ascii.eqb_refl.
  - destruct (Ascii.eqb_spec c x); [contradiction|].
    now destruct (index 0 (String c "") r).
Qed.

Lemma char_in_app (c : ascii) (a b : string) :
  contains (String c "") (a ++ b)
  = (contains (String c "") a || contains (String c "") b).
Proof.
  induction a as [|x a IH]; [reflexivity|].
  cbn [append]. rewrite !char_in_cons, IH. apply orb_assoc.
Qed.

Lemma contains_cons_false (p : string) (x : ascii) (r : string) :
  contains p (String x r) = false ->
  prefix p (String x r) = false /\ contains p r = false.
Proof.
  unfold contains, find. cbn [index].
  destruct (prefix p (String x r)); [discriminate|].
  now destruct (index 0 p r).
Qed.

(** A match that starts before a character the pattern does not contain
    ends before it. *)
Lemma prefix_cut (p a : string) (c : ascii) (t : string) :
  contains (String c "") p = false ->
  prefix p (a ++ String c t) = prefix p a.
Proof.
  revert a; induction p as [|y p IH]; intros a Hc.
  - now rewrite !prefix_nil_l.
  - rewrite char_in_cons in Hc. apply orb_false_iff in Hc.
    destruct Hc as [Hy Hp].
    destruct a as [|x a]; cbn [append prefix].
    + destruct (ascii_dec y c) as [->|]; [|reflexivity].
      now rewrite Ascii.eqb_refl in Hy.
    + destruct (ascii_dec y x); [now apply IH | reflexivity].
Qed.

(** Searching past a stretch that holds no match and the character after
    it. *)
Lemma find_skip (p a : string) (c : ascii) (t : string) :
  contains p a = false ->
  contains (String c "") p = false ->
  find p (a ++ String c t)
  = option_map (fun i => String.length a + 1 + i) (find p t).
Proof.
  intros Ha Hc. induction a as [|x a IH].
  - unfold find. cbn [append index String.length].
    destruct p as [|y p]; [discriminate Ha|].
    rewrite char_in_cons in Hc. apply orb_false_iff in Hc.
    destruct Hc as [Hy _]. cbn [prefix].
    destruct (ascii_dec y c) as [->|];
      [now rewrite Ascii.eqb_refl in Hy|].
    now destruct (index 0 (String y p) t).
  - apply contains_cons_false in Ha. destruct Ha as [Hpre Ha].
    specialize (IH Ha). unfold find in *. cbn [append index String.length].
    change (String x (a ++ String c t)) with (String x a ++ String c t).
    rewrite (@prefix_cut p (String x a) c t Hc), Hpre, IH.
    now destruct (index 0 p t).
Qed.

Lemma contains_prefix (p s : string) : prefix p s = true -> contains p s = true.
Proof.
  unfold contains, find. destruct s as [|x r]; cbn [index].
  - destruct p; [reflexivity | discriminate].
  - now intros ->.
Qed.

(** ** Stripping *)

Lemma lstrip_head (s : string) :
  lstrip s = "" \/ exists c r, lstrip s = String c r /\ is_space c = false.
Proof.
  induction s as [|c r IH]; [now left|]. cbn [lstrip].
  destruct (is_space c) eqn:E; [exact IH | right; eauto].
Qed.

Lemma lstrip_length (s : string) : String.length (lstrip s) <= String.length s.
Proof.
  induction s as [|c r IH]; [reflexivity|]. cbn [lstrip].
  destruct (is_space c); simpl; lia.
Qed.

Lemma rstrip_prefix (s : string) : exists w, s = rstrip s ++ w.
Proof.
  induction s as [|c r [w IH]]; [now exists ""|]. cbn [rstrip].
  destruct (rstrip r) as [|y r'] eqn:E.
  - destruct (is_space c); [now exists (String c r)|].
    exists r. reflexivity.
  - exists w. cbn [append] in *. now rewrite <- IH.
Qed.

Lemma length_append (a b : string) :
  String.length (a ++ b) = String.length a + String.length b.
Proof. induction a; simpl; auto. Qed.

(** [s.strip() == s] says that neither end of [s] is white space. *)
Lemma stripped_ends (s : string) :
  strip s = s -> lstrip s = s /\ rstrip s = s.
Proof.
  unfold strip. intros H.
  destruct (rstrip_prefix s) as [w Hw].
  pose proof (lstrip_length (rstrip s)) as Hl.
  assert (Hlen : String.length w = 0).
  { pose proof (f_equal String.length Hw) as E.
    rewrite length_append in E. rewrite H in Hl. lia. }
  destruct w; [|discriminate]. rewrite PyStrFacts.append_nil_r in Hw.
  rewrite <- Hw in H. now split.
Qed.

Lemma stripped_head (s : string) :
  strip s = s -> s = "" \/ exists c r, s = String c r /\ is_space c = false.
Proof.
  intros H. apply stripped_ends in H. destruct H as [H _].
  rewrite <- H. apply lstrip_head.
Qed.

Lemma lstrip_stripped (s t : string) :
  strip s = s -> s <> "" -> lstrip (s ++ t) = s ++ t.
Proof.
  intros H Hne. destruct (stripped_head H) as [->|(c & r & -> & Hc)];
    [contradiction|].
  cbn [append lstrip]. now rewrite Hc.
Qed.

Lemma rstrip_app (a b : string) :
  rstrip b <> "" -> rstrip (a ++ b) = a ++ rstrip b.
Proof.
  intros Hb. induction a as [|x a IH]; [reflexivity|].
  cbn [append rstrip]. rewrite IH.
  destruct (a ++ rstrip b) eqn:E; [|reflexivity].
  destruct a; [contradiction | discriminate].
Qed.

Lemma strip_space_cons (c : ascii) (s : string) :
  is_space c = true -> strip (String c s) = strip s.
Proof.
  intros Hc. unfold strip. cbn [rstrip].
  destruct (rstrip s) eqn:E; cbn [lstrip]; now rewrite ?Hc.
Qed.

Lemma drop_app (a b : string) (n : nat) :
  drop (String.length a + n) (a ++ b) = drop n b.
Proof. induction a as [|x a IH]; [reflexivity | exact IH]. Qed.

Lemma prefix_length (p s : string) :
  prefix p s = true -> String.length p <= String.length s.
Proof.
  revert s; induction p as [|c p IH]; intros s H; [simpl; lia|].
  destruct s as [|x s]; [discriminate|]. cbn [prefix] in H.
  destruct (ascii_dec c x); [|discriminate].
  apply IH in H. simpl. lia.
Qed.

Lemma contains_length (p s : string) :
  contains p s = true -> String.length p <= String.length s.
Proof.
  unfold contains, find. induction s as [|x s IH]; cbn [index].
  - destruct p; [simpl; lia | discriminate].
  - destruct (prefix p (String x s)) eqn:E.
    + intros _. now apply prefix_length.
    + destruct (index 0 p s); [|discriminate].
      intros _. specialize (IH eq_refl). simpl. lia.
Qed.

Lemma length_lower (s : string) : String.length (lower s) = String.length s.
Proof. induction s; simpl; congruence. Qed.

(** ** Lines *)

Lemma line_prefix_app (a t : string) :
  contains nl a = false -> line_prefix (a ++ String newline t) = a.
Proof.
  induction a as [|x a IH]; intros H.
  - reflexivity.
  - unfold nl in H. rewrite char_in_cons in H. apply orb_false_iff in H.
    destruct H as [Hx Ha]. cbn [append line_prefix].
    rewrite Ascii.eqb_sym, Hx. f_equal. now apply IH.
Qed.

Lemma line_prefix_all (a : string) :
  contains nl a = false -> line_prefix a = a.
Proof.
  induction a as [|x a IH]; intros H; [reflexivity|].
  unfold nl in H. rewrite char_in_cons in H. apply orb_false_iff in H.
  destruct H as [Hx Ha]. cbn [line_prefix].
  rewrite Ascii.eqb_sym, Hx. f_equal. now apply IH.
Qed.

(** [w] is made of word characters. *)
Fixpoint all_word (w : string) : bool :=
  match w with
  | "" => true
  | String c r => is_word c && all_word r
  end.

Lemma field_marker_word (w rest : string) (seen : bool) :
  all_word w = true -> seen = true \/ w <> "" ->
  field_marker seen (w ++ String ":" rest) = true.
Proof.
  revert seen; induction w as [|c w IH]; intros seen Hw Hs.
  - destruct Hs as [->|]; [reflexivity | contradiction].
  - cbn [all_word] in Hw. apply andb_true_iff in Hw. destruct Hw as [Hc Hw].
    cbn [append field_marker]. rewrite Hc. apply IH; auto.
Qed.

(** The lazy group of the content pattern stops at the first line that
    begins with a word and a colon. *)
Lemma lazy_content_cut (a w rest : string) :
  contains nl a = false -> all_word w = true -> w <> "" ->
  lazy_content (a ++ String newline (w ++ String ":" rest)) = a.
Proof.
  intros Ha Hw Hne. induction a as [|x a IH].
  - cbn [append lazy_content at_field_or_end].
    rewrite Ascii.eqb_refl, field_marker_word by auto. reflexivity.
  - unfold nl in Ha. rewrite char_in_cons in Ha. apply orb_false_iff in Ha.
    destruct Ha as [Hx Ha]. cbn [append lazy_content at_field_or_end].
    rewrite Ascii.eqb_sym, Hx. cbn [andb]. f_equal. now apply IH.
Qed.

(** No line of [s] after the first begins with a word and a colon. *)
Fixpoint field_free (s : string) : bool :=
  match s with
  | "" => true
  | String c r =>
      negb (Ascii.eqb c newline && field_marker false r) && field_free r
  end.

Lemma rstrip_cons_fixed (c : ascii) (r : string) :
  rstrip (String c r) = String c r -> r = "" \/ rstrip r = r.
Proof.
  cbn [rstrip]. destruct (rstrip r) eqn:E.
  - destruct (is_space c); [discriminate|]. intros [= <-]. now left.
  - intros [= <-]. now right.
Qed.

Lemma lazy_content_all (s : string) :
  field_free s = true -> rstrip s = s -> lazy_content s = s.
Proof.
  induction s as [|c r IH]; intros Hf Hr; [reflexivity|].
  cbn [field_free] in Hf. apply andb_true_iff in Hf. destruct Hf as [Hc Hf].
  cbn [lazy_content at_field_or_end].
  destruct (Ascii.eqb_spec c newline) as [->|Hne]; cbn [andb negb] in *.
  - apply negb_true_iff in Hc. rewrite Hc. cbn [orb].
    destruct r as [|y r]; [discriminate Hr|].
    cbn [String.eqb]. f_equal. apply IH; [exact Hf|].
    destruct (rstrip_cons_fixed Hr) as [H|H]; [discriminate | exact H].
  - f_equal. destruct (rstrip_cons_fixed Hr) as [->|H]; [reflexivity|].
    now apply IH.
Qed.

(** ** Splitting *)

Lemma split_once_app (c : ascii) (k v : string) :
  contains (String c "") k = false ->
  split_once c (k ++ String c v) = [k; v].
Proof.
  induction k as [|x k IH]; intros H.
  - cbn [append split_once]. now rewrite Ascii.eqb_refl.
  - rewrite char_in_cons in H. apply orb_false_iff in H. destruct H as [Hx Hk].
    cbn [append split_once]. rewrite Ascii.eqb_sym, Hx, IH by assumption.
    reflexivity.
Qed.

Lemma split_char_line (c : ascii) (a : string) :
  contains (String c "") a = false -> split_char c a = [a].
Proof.
  induction a as [|x a IH]; intros H; [reflexivity|].
  rewrite char_in_cons in H. apply orb_false_iff in H. destruct H as [Hx Ha].
  cbn [split_char]. rewrite Ascii.eqb_sym, Hx, IH by assumption. reflexivity.
Qed.

Lemma split_char_app (c : ascii) (a t : string) :
  contains (String c "") a = false ->
  split_char c (a ++ String c t) = a :: split_char c t.
Proof.
  induction a as [|x a IH]; intros H.
  - cbn [append split_char]. now rewrite Ascii.eqb_refl.
  - rewrite char_in_cons in H. apply orb_false_iff in H. destruct H as [Hx Ha].
    cbn [append split_char]. rewrite Ascii.eqb_sym, Hx, IH by assumption.
    reflexivity.
Qed.

(** Splitting at the separator undoes joining with it. *)
Lemma split_char_join (c : ascii) (lines : list string) :
  lines <> [] ->
  Forall (fun l => contains (String c "") l = false) lines ->
  split_char c (join (String c "") lines) = lines.
Proof.
  intros Hne Hall. induction Hall as [|l rest Hl Hrest IH]; [contradiction|].
  unfold join in *. destruct rest as [|l2 rest].
  - cbn [String.concat]. now apply split_char_line.
  - cbn [String.concat] in *. cbn [append].
    rewrite split_char_app by assumption. f_equal. apply IH. discriminate.
Qed.

Lemma find_char_first (c : ascii) (a t : string) :
  contains (String c "") a = false ->
  find (String c "") (a ++ String c t) = Some (String.length a).
Proof.
  unfold find. induction a as [|x a IH]; intros H.
  - cbn [append index prefix String.length].
    destruct (ascii_dec c c); [|contradiction]. now rewrite prefix_nil_l.
  - rewrite char_in_cons in H. apply orb_false_iff in H. destruct H as [Hx Ha].
    cbn [append index prefix String.length].
    destruct (ascii_dec c x) as [->|_]; [now rewrite Ascii.eqb_refl in Hx|].
    now rewrite IH.
Qed.

Lemma char_in_found (c : ascii) (a t : string) :
  contains (String c "") (a ++ String c t) = true.
Proof.
  rewrite char_in_app, char_in_cons, Ascii.eqb_refl. apply orb_true_r.
Qed.

Lemma lstrip_app_space (a b : string) :
  lstrip a = "" -> lstrip (a ++ b) = lstrip b.
Proof.
  induction a as [|x a IH]; [reflexivity|]. cbn [lstrip append].
  destruct (is_space x); [exact IH | discriminate].
Qed.

Lemma rstrip_cons_nonspace (c : ascii) (r : string) :
  is_space c = false -> rstrip (String c r) = String c (rstrip r).
Proof. intros H. cbn [rstrip]. destruct (rstrip r); now rewrite ?H. Qed.

Lemma take_app (a b : string) : take (String.length a) (a ++ b) = a.
Proof. induction a as [|x a IH]; [now destruct b | simpl; now rewrite IH]. Qed.

Lemma startswith_app (p t : string) : startswith p (p ++ t) = true.
Proof. apply prefix_app. Qed.

(** What [split] returns holds no separator. *)
Lemma split_char_clean (c : ascii) (s : string) :
  Forall (fun l => contains (String c "") l = false) (split_char c s).
Proof.
  induction s as [|x s IH]; [repeat constructor|]. cbn [split_char].
  destruct (Ascii.eqb_spec x c) as [->|Hne].
  - constructor; [reflexivity | exact IH].
  - destruct (split_char c s) as [|w ws]; [repeat constructor|].
    + rewrite char_in_cons. destruct (Ascii.eqb_spec c x); [congruence|].
      reflexivity.
    + inversion IH as [|? ? Hw Hws]; subst. constructor; [|exact Hws].
      rewrite char_in_cons, Hw.
      destruct (Ascii.eqb_spec c x); [congruence | reflexivity].
Qed.

(** A prefix that holds a character hands it to the whole. *)
Lemma prefix_char_in (c : ascii) (p s : string) :
  prefix p s = true -> contains (String c "") p = true ->
  contains (String c "") s = true.
Proof.
  revert s; induction p as [|y p IH]; intros s Hp Hc; [discriminate Hc|].
  destruct s as [|x s]; [discriminate Hp|]. cbn [prefix] in Hp.
  destruct (ascii_dec y x) as [->|]; [|discriminate].
  rewrite char_in_cons in *. apply orb_true_iff in Hc.
  destruct Hc as [->|Hc]; [reflexivity|].
  rewrite (IH s Hp Hc). apply orb_true_r.
Qed.

End TextFacts.

(* ================================================================== *)
(** * What the extractor makes of the parameter block *)
(* ================================================================== *)

Module ParametersSpec.
Import PyStr Extractor TextFacts.

(** The function entry of the result is settled before the parameter block
    is looked at. *)
Definition function_of (text : string) : option (option string) :=
  match re_search_tag "<function>" "</function>" text with
  | Some g =>
      Some (if String.eqb (lower (strip g)) "null" then None
            else Some (strip g))
  | None => None
  end.

Lemma extract_function (text : string) (d : decision) (diagnostic : string) :
  extract_response_from_tags text = Ok (d, diagnostic) ->
  function d = function_of text.
Proof.
  unfold extract_response_from_tags, function_of.
  destruct (re_search_tag "<thought>" "</thought>" text) as [gt|];
  destruct (re_search_tag "<function>" "</function>" text) as [gf|];
  destruct (re_search_tag "<task_complete>" "</task_complete>" text) as [gc|];
  destruct (re_search_tag "<parameters>" "</parameters>" text) as [gp|];
  cbn [thought function task_complete parameters empty_decision];
  repeat match goal with
         | |- context [match ?x with _ => _ end] => destruct x
         end;
  intros H; inversion H; reflexivity.
Qed.

(** X1: when the decision names no action (no function region, an empty
    one, or ["null"]), or the text has no parameter region, the extractor
    stores the empty dict under ['parameters'], whatever else the text
    holds. *)
Theorem no_function_no_parameters (text : string) (d : decision)
  (diagnostic : string) :
  extract_response_from_tags text = Ok (d, diagnostic) ->
  has_function d = false
  \/ re_search_tag "<parameters>" "</parameters>" text = None ->
  parameters d = Some [].
Proof.
  intros H Hno.
  pose proof (extract_function _ H) as Hf.
  assert (Hhas : has_function d
                 = match function_of text with
                   | Some (Some f) => truthy f
                   | _ => false
                   end)
    by (unfold has_function, get_function; rewrite Hf;
        now destruct (function_of text) as [[f|]|]).
  revert H Hhas. unfold extract_response_from_tags, function_of.
  destruct (re_search_tag "<thought>" "</thought>" text) as [gt|];
  destruct (re_search_tag "<function>" "</function>" text) as [gf|];
  destruct (re_search_tag "<task_complete>" "</task_complete>" text) as [gc|];
  destruct (re_search_tag "<parameters>" "</parameters>" text) as [gp|];
  cbn [thought function task_complete parameters empty_decision
       has_function get_function];
  try (intros H _; inversion H; reflexivity).
  all: destruct Hno as [Hno|Hno]; try discriminate Hno.
  all: destruct (String.eqb (lower (strip gf)) "null");
    try (intros H _; inversion H; reflexivity).
  all: intros H Hhas; cbv [has_function get_function function] in H;
    rewrite <- Hhas, Hno in H; inversion H; reflexivity.
Qed.

Lemma no_function_no_parameters_witness :
  let text := "<function>NULL</function><parameters>path: a</parameters>" in
  let d := Decision (Some "No thought provided") (Some None) (Some false)
                    (Some []) in
  extract_response_from_tags text = Ok (d, success_diagnostic)
  /\ parameters d = Some [].
Proof.
  split; [reflexivity|].
  apply (@no_function_no_parameters
           "<function>NULL</function><parameters>path: a</parameters>"
           (Decision (Some "No thought provided") (Some None) (Some false)
                     (Some []))
           success_diagnostic);
    [reflexivity | left; reflexivity].
Defined.

(** The name of a file action. *)
Definition names_file_action (f : string) : bool :=
  contains "write_file" f || contains "append_to_file" f.

Lemma file_action_named (f : string) :
  names_file_action f = true ->
  truthy f = true /\ String.eqb (lower f) "null" = false.
Proof.
  unfold names_file_action. intros H.
  assert (Hlen : 10 <= String.length f).
  { apply orb_true_iff in H. destruct H as [H|H];
      apply contains_length in H; simpl in H; lia. }
  split.
  - destruct f; [simpl in Hlen; lia | reflexivity].
  - destruct (String.eqb_spec (lower f) "null") as [E|]; [|reflexivity].
    apply (f_equal String.length) in E. rewrite length_lower in E.
    simpl in E. lia.
Qed.

(** What the file-action branch puts under ["path"] and ["content"]. *)
Definition path_field (block : string) : string :=
  match re_search_path block with
  | Some p => strip p
  | None => "unknown_path.txt"
  end.

Definition content_field (block : string) : string :=
  let content := match re_search_content block with
                 | Some c => strip c
                 | None => ""
                 end in
  if startswith nl content then slice content 1 (len content) else content.

Lemma extract_file_action (text gf gp : string) :
  re_search_tag "<function>" "</function>" text = Some gf ->
  names_file_action (strip gf) = true ->
  re_search_tag "<parameters>" "</parameters>" text = Some gp ->
  exists d,
    extract_response_from_tags text = Ok (d, success_diagnostic)
    /\ function d = Some (Some (strip gf))
    /\ parameters d = Some [("path", path_field (strip gp));
                            ("content", content_field (strip gp))].
Proof.
  intros Hf Hname Hp. destruct (file_action_named _ Hname) as [Ht Hn].
  unfold extract_response_from_tags. rewrite Hf, Hp.
  destruct (re_search_tag "<thought>" "</thought>" text) as [gt|];
  destruct (re_search_tag "<task_complete>" "</task_complete>" text) as [gc|];
  cbv [has_function get_function function thought task_complete parameters
       empty_decision];
  rewrite Hn, Ht; fold (names_file_action (strip gf)); rewrite Hname;
  eexists; (split; [reflexivity|]); split; reflexivity.
Qed.

Lemma extract_other_action (text gf gp : string) (p : Dict.t string) :
  re_search_tag "<function>" "</function>" text = Some gf ->
  strip gf <> "" -> lower (strip gf) <> "null" ->
  names_file_action (strip gf) = false ->
  re_search_tag "<parameters>" "</parameters>" text = Some gp ->
  parse_param_lines (split_char newline (strip gp)) Dict.empty = Ok p ->
  exists d,
    extract_response_from_tags text = Ok (d, success_diagnostic)
    /\ function d = Some (Some (strip gf))
    /\ parameters d = Some p.
Proof.
  intros Hf Hne Hnull Hname Hp Hparse.
  assert (Ht : truthy (strip gf) = true)
    by (unfold truthy; destruct (String.eqb_spec (strip gf) "");
        [contradiction | reflexivity]).
  assert (Hn : String.eqb (lower (strip gf)) "null" = false)
    by (destruct (String.eqb_spec (lower (strip gf)) "null");
        [contradiction | reflexivity]).
  unfold extract_response_from_tags. rewrite Hf, Hp.
  destruct (re_search_tag "<thought>" "</thought>" text) as [gt|];
  destruct (re_search_tag "<task_complete>" "</task_complete>" text) as [gc|];
  cbv [has_function get_function function thought task_complete parameters
       empty_decision];
  rewrite Hn, Ht; fold (names_file_action (strip gf)); rewrite Hname, Hparse;
  eexists; (split; [reflexivity|]); split; reflexivity.
Qed.

Lemma startswith_nl_strip (s : string) : startswith nl (strip s) = false.
Proof.
  unfold strip, startswith.
  destruct (lstrip_head (rstrip s)) as [->|(c & r & -> & Hc)]; [reflexivity|].
  cbn [nl prefix]. destruct (ascii_dec newline c) as [<-|]; [|reflexivity].
  discriminate Hc.
Qed.

(** The test [content.startswith('\n')] never holds: the content has been
    stripped. *)
Lemma content_field_strip (block : string) :
  content_field block
  = match re_search_content block with Some c => strip c | None => "" end.
Proof.
  unfold content_field.
  destruct (re_search_content block) as [c|]; [|reflexivity].
  now rewrite startswith_nl_strip.
Qed.

(** A path that fills one line. *)
Definition one_line (p : string) : Prop :=
  strip p = p /\ p <> "" /\ contains nl p = false.

Lemma path_field_first (p rest : string) :
  one_line p -> path_field ("path: " ++ p ++ nl ++ rest) = p.
Proof.
  intros (Hs & Hne & Hnl). unfold path_field, re_search_path.
  change ("path: " ++ p ++ nl ++ rest)
    with ("path:" ++ String " " (p ++ String newline rest)).
  rewrite find_here. cbn [append drop plus lstrip].
  change (is_space " ") with true. cbv iota.
  rewrite (lstrip_stripped _ Hs Hne), line_prefix_app by assumption.
  exact Hs.
Qed.

Lemma content_field_second (p body : string) :
  contains "content:" ("path: " ++ p) = false ->
  content_field ("path: " ++ p ++ nl ++ "content: " ++ body)
  = strip (lazy_content (lstrip body)).
Proof.
  intros Hp. rewrite content_field_strip. unfold re_search_content.
  change ("path: " ++ p ++ nl ++ "content: " ++ body)
    with (("path: " ++ p)
          ++ String newline ("content:" ++ String " " body)).
  rewrite (@find_skip "content:" ("path: " ++ p) newline _ Hp eq_refl).
  rewrite find_here. cbn [option_map].
  replace (String.length ("path: " ++ p) + 1 + 0 + 8)
    with (String.length ("path: " ++ p) + 9) by lia.
  rewrite drop_app. cbn [append drop lstrip].
  change (is_space " ") with true. reflexivity.
Qed.

(** X2: a decision whose action name contains [write_file] or
    [append_to_file] gets exactly the two parameters ["path"] and
    ["content"], in this order; a block without [path:] gives the path
    ["unknown_path.txt"], and a block without [content:] gives the empty
    content. *)
Theorem file_action_parameters (text gf gp : string) :
  re_search_tag "<function>" "</function>" text = Some gf ->
  names_file_action (strip gf) = true ->
  re_search_tag "<parameters>" "</parameters>" text = Some gp ->
  exists d path content,
    extract_response_from_tags text = Ok (d, success_diagnostic)
    /\ parameters d = Some [("path", path); ("content", content)]
    /\ (contains "path:" (strip gp) = false -> path = "unknown_path.txt")
    /\ (contains "content:" (strip gp) = false -> content = "").
Proof.
  intros Hf Hname Hp.
  destruct (extract_file_action _ Hf Hname Hp) as (d & Hd & _ & Hpar).
  exists d, (path_field (strip gp)), (content_field (strip gp)).
  split; [exact Hd|]. split; [exact Hpar|]. split.
  - unfold path_field, re_search_path, contains.
    now destruct (find "path:" (strip gp)).
  - rewrite content_field_strip. unfold re_search_content, contains.
    now destruct (find "content:" (strip gp)).
Qed.

(** X3: the content of a file action ends where a later line begins with
    a word and a colon: of a block [path: p], [content: a], [w: rest],
    with [w] a word, only [a] is kept as the content. *)
Theorem content_cut_at_field_line (text gf gp p a w rest : string) :
  re_search_tag "<function>" "</function>" text = Some gf ->
  names_file_action (strip gf) = true ->
  re_search_tag "<parameters>" "</parameters>" text = Some gp ->
  strip gp
  = "path: " ++ p ++ nl ++ "content: " ++ a ++ nl ++ w ++ ":" ++ rest ->
  one_line p -> contains "content:" ("path: " ++ p) = false ->
  one_line a ->
  all_word w = true -> w <> "" ->
  exists d,
    extract_response_from_tags text = Ok (d, success_diagnostic)
    /\ parameters d = Some [("path", p); ("content", a)].
Proof.
  intros Hf Hname Hp Hblock Hpath Hclean (Hs & Hne & Hnl) Hw Hwne.
  destruct (extract_file_action _ Hf Hname Hp) as (d & Hd & _ & Hpar).
  exists d. split; [exact Hd|]. rewrite Hpar, Hblock.
  rewrite path_field_first, content_field_second by assumption.
  change (a ++ nl ++ w ++ ":" ++ rest)
    with (a ++ String newline (w ++ String ":" rest)).
  rewrite (lstrip_stripped _ Hs Hne), lazy_content_cut by assumption.
  now rewrite Hs.
Qed.

(** X4: a file action comes back from its block unchanged: a block made
    of [path: p] and [content: c], with a one-line path that does not hold
    [content:] and a stripped content in which no later line begins with
    a word and a colon, is extracted as the parameters [p] and [c]. *)
Theorem file_action_round_trip (text gf gp p c : string) :
  re_search_tag "<function>" "</function>" text = Some gf ->
  names_file_action (strip gf) = true ->
  re_search_tag "<parameters>" "</parameters>" text = Some gp ->
  strip gp = "path: " ++ p ++ nl ++ "content: " ++ c ->
  one_line p -> contains "content:" ("path: " ++ p) = false ->
  strip c = c -> field_free c = true ->
  exists d,
    extract_response_from_tags text = Ok (d, success_diagnostic)
    /\ parameters d = Some [("path", p); ("content", c)].
Proof.
  intros Hf Hname Hp Hblock Hpath Hclean Hs Hfree.
  destruct (extract_file_action _ Hf Hname Hp) as (d & Hd & _ & Hpar).
  exists d. split; [exact Hd|]. rewrite Hpar, Hblock.
  rewrite path_field_first, content_field_second by assumption.
  destruct (stripped_ends Hs) as [Hl Hr].
  rewrite Hl, lazy_content_all by assumption. now rewrite Hs.
Qed.

(** A reply that writes a conditional: the line [else:] ends the content. *)
Definition write_conditional : string :=
  "<function>terminal.write_file</function>"
  ++ "<parameters>path: a.py" ++ nl ++ "content: if x:" ++ nl
  ++ "else:" ++ nl ++ "    pass</parameters>".

Lemma file_action_parameters_witness :
  let gp := "content: hello" in
  exists d path content,
    extract_response_from_tags
      "<function>terminal.write_file</function><parameters>content: hello</parameters>"
    = Ok (d, success_diagnostic)
    /\ parameters d = Some [("path", path); ("content", content)]
    /\ (contains "path:" (strip gp) = false -> path = "unknown_path.txt")
    /\ (contains "content:" (strip gp) = false -> content = "").
Proof.
  apply (@file_action_parameters
           "<function>terminal.write_file</function><parameters>content: hello</parameters>"
           "terminal.write_file" "content: hello"); reflexivity.
Defined.

Lemma content_cut_at_field_line_witness :
  exists d,
    extract_response_from_tags write_conditional
    = Ok (d, success_diagnostic)
    /\ parameters d = Some [("path", "a.py"); ("content", "if x:")].
Proof.
  apply (@content_cut_at_field_line write_conditional
           "terminal.write_file"
           ("path: a.py" ++ nl ++ "content: if x:" ++ nl
            ++ "else:" ++ nl ++ "    pass")
           "a.py" "if x:" "else" (nl ++ "    pass"));
    try reflexivity; try discriminate;
    repeat split; try reflexivity; discriminate.
Defined.

Lemma file_action_round_trip_witness :
  exists d,
    extract_response_from_tags
      ("<function>terminal.write_file</function>"
       ++ "<parameters>path: a.py" ++ nl ++ "content: x = 1" ++ nl
       ++ "y = 2</parameters>")
    = Ok (d, success_diagnostic)
    /\ parameters d
       = Some [("path", "a.py"); ("content", "x = 1" ++ nl ++ "y = 2")].
Proof.
  apply (@file_action_round_trip
           ("<function>terminal.write_file</function>"
            ++ "<parameters>path: a.py" ++ nl ++ "content: x = 1" ++ nl
            ++ "y = 2</parameters>")
           "terminal.write_file"
           ("path: a.py" ++ nl ++ "content: x = 1" ++ nl ++ "y = 2")
           "a.py" ("x = 1" ++ nl ++ "y = 2"));
    try reflexivity; repeat split; try reflexivity; discriminate.
Defined.

(** A parameter as a line of the block. *)
Definition parameter_line (kv : string * string) : string :=
  fst kv ++ ": " ++ snd kv.

(** A key and a value that survive the trip: nothing to strip, no line
    break, and no colon in the key. *)
Definition plain (kv : string * string) : Prop :=
  strip (fst kv) = fst kv /\ contains ":" (fst kv) = false
  /\ contains nl (fst kv) = false
  /\ strip (snd kv) = snd kv /\ contains nl (snd kv) = false.

Lemma set_fresh {V} (k : string) (v : V) (d : Dict.t V) :
  ~ In k (Dict.keys d) -> Dict.set k v d = (d ++ [(k, v)])%list.
Proof.
  unfold Dict.keys. induction d as [|[k' v'] r IH]; intros H; [reflexivity|].
  cbn [Dict.set]. destruct (String.eqb_spec k k') as [->|Hne].
  - exfalso. apply H. now left.
  - cbn [app]. f_equal. apply IH. intros Hin. apply H. now right.
Qed.

Lemma set_all_fresh {V} (p : Dict.t V) :
  forall acc : Dict.t V,
    NoDup (Dict.keys (acc ++ p)%list) ->
    fold_left (fun acc kv => Dict.set (fst kv) (snd kv) acc) p acc
    = (acc ++ p)%list.
Proof.
  induction p as [|[k v] p IH]; intros acc Hnd; cbn [fold_left fst snd].
  - now rewrite app_nil_r.
  - replace (acc ++ (k, v) :: p)%list with ((acc ++ [(k, v)]) ++ p)%list in *
      by now rewrite <- app_assoc.
    rewrite set_fresh.
    + now apply IH.
    + unfold Dict.keys in *. rewrite !map_app in Hnd.
      apply NoDup_app_remove_r in Hnd. cbn [map fst] in Hnd.
      apply NoDup_remove_2 in Hnd. now rewrite app_nil_r in Hnd.
Qed.

Lemma parse_parameter_lines (p : Dict.t string) :
  Forall plain p ->
  forall acc,
    parse_param_lines (map parameter_line p) acc
    = Ok (fold_left (fun acc kv => Dict.set (fst kv) (snd kv) acc) p acc).
Proof.
  induction 1 as [|[k v] p (Hk & Hc & _ & Hv & _) _ IH]; intros acc;
    [reflexivity|].
  cbn [map parse_param_lines parameter_line fst snd fold_left] in *.
  change (parameter_line (k, v)) with (k ++ String ":" (String " " v)).
  rewrite char_in_app, (char_in_cons ":" ":"), Ascii.eqb_refl, orb_true_r.
  rewrite split_once_app by assumption. cbn [unpack2].
  rewrite Hk, strip_space_cons, Hv by reflexivity. apply IH.
Qed.

Lemma parameter_line_one_line (kv : string * string) :
  plain kv -> contains nl (parameter_line kv) = false.
Proof.
  intros (_ & _ & Hk & _ & Hv). unfold parameter_line, nl in *.
  now rewrite !char_in_app, Hk, Hv.
Qed.

(** X5: the parameters of any other action come back from their block
    unchanged: a block with one line [key: value] per parameter, where
    keys are distinct, keys and values are stripped and hold no line
    break, and no key holds a colon, is parsed into the same dict, in the
    same order; a value may hold colons. *)
Theorem parameter_lines_round_trip (text gf gp : string)
  (p : Dict.t string) :
  re_search_tag "<function>" "</function>" text = Some gf ->
  strip gf <> "" -> lower (strip gf) <> "null" ->
  names_file_action (strip gf) = false ->
  re_search_tag "<parameters>" "</parameters>" text = Some gp ->
  strip gp = join nl (map parameter_line p) ->
  Dict.wf p -> Forall plain p ->
  exists d,
    extract_response_from_tags text = Ok (d, success_diagnostic)
    /\ function d = Some (Some (strip gf))
    /\ parameters d = Some p.
Proof.
  intros Hf Hne Hnull Hname Hp Hblock Hwf Hplain.
  apply (extract_other_action _ Hf Hne Hnull Hname Hp).
  rewrite Hblock. destruct p as [|kv p]; [reflexivity|].
  unfold nl. rewrite split_char_join.
  - rewrite parse_parameter_lines by assumption. f_equal.
    apply (set_all_fresh (kv :: p) []). exact Hwf.
  - discriminate.
  - apply Forall_map. eapply Forall_impl; [|exact Hplain].
    intros kv'. apply parameter_line_one_line.
Qed.

Lemma parameter_lines_round_trip_witness :
  let p := [("command", "echo a:b"); ("timeout", "5")] in
  exists d,
    extract_response_from_tags
      ("<function>terminal.run_command</function>"
       ++ "<parameters>command: echo a:b" ++ nl ++ "timeout: 5</parameters>")
    = Ok (d, success_diagnostic)
    /\ function d = Some (Some (strip "terminal.run_command"))
    /\ parameters d = Some p.
Proof.
  apply (@parameter_lines_round_trip
           ("<function>terminal.run_command</function>"
            ++ "<parameters>command: echo a:b" ++ nl
            ++ "timeout: 5</parameters>")
           "terminal.run_command"
           ("command: echo a:b" ++ nl ++ "timeout: 5")
           [("command", "echo a:b"); ("timeout", "5")]);
    try reflexivity; try discriminate.
  - repeat constructor; simpl; intuition discriminate.
  - repeat constructor.
Defined.

End ParametersSpec.

(* ================================================================== *)
(** * The size of a formatted call *)
(* ================================================================== *)

Module FormatSpec.
Import PyStr Agent TextFacts.

Lemma len_append (a b : string) : len (a ++ b) = (len a + len b)%Z.
Proof. unfold len. rewrite length_append. lia. Qed.

Lemma len_nonneg (s : string) : (0 <= len s)%Z.
Proof. unfold len. lia. Qed.

Lemma len_slice_head (s : string) (n : nat) :
  (Z.of_nat n <= len s)%Z -> len (slice s 0 (Z.of_nat n)) = Z.of_nat n.
Proof.
  intros H. change 0%Z with (Z.of_nat 0).
  replace (Z.of_nat n) with (Z.of_nat 0 + Z.of_nat n)%Z at 1 by lia.
  rewrite PyStrFacts.slice_window by (simpl; lia).
  unfold len in *. cbn [drop]. rewrite PyStrFacts.length_take. lia.
Qed.

(** A value is shown with at most 50 of its characters. *)
Lemma format_value_bounded (value : string) :
  (len (format_value value) <= 52)%Z.
Proof.
  unfold format_value. destruct (Z.ltb_spec 50 (len value)) as [H|H].
  - rewrite !len_append. change 47%Z with (Z.of_nat 47).
    rewrite len_slice_head by (change (Z.of_nat 47) with 47%Z; lia).
    change (len dquote) with 1%Z. change (len "...") with 3%Z.
    change (Z.of_nat 47) with 47%Z. lia.
  - rewrite !len_append. change (len dquote) with 1%Z. lia.
Qed.

(** The room a call with these parameters can take besides the name. *)
Fixpoint call_budget (parameters_ : Dict.t string) : Z :=
  match parameters_ with
  | [] => 0
  | (k, _) :: rest => len k + 55 + call_budget rest
  end.

Lemma call_budget_nonneg p : (0 <= call_budget p)%Z.
Proof.
  induction p as [|[k v] p IH]; simpl; [lia|].
  pose proof (len_nonneg k). lia.
Qed.

Lemma len_join_parameters (p : Dict.t string) :
  p <> [] ->
  (len (join ", " (map (fun kv => fst kv ++ "=" ++ format_value (snd kv)) p))
   + 2 <= call_budget p)%Z.
Proof.
  unfold join. induction p as [|[k v] p IH]; intros Hne; [contradiction|].
  pose proof (format_value_bounded v) as Hv.
  destruct p as [|kv p].
  - cbn [map String.concat call_budget fst snd].
    rewrite !len_append. change (len "=") with 1%Z. lia.
  - cbn [map String.concat call_budget fst snd] in *.
    specialize (IH ltac:(discriminate)).
    rewrite !len_append in *. change (len "=") with 1%Z.
    change (len ", ") with 2%Z. destruct kv as [k' v']. cbn [fst snd] in *.
    lia.
Qed.

(** X6: the text of a call, as it is shown and stored in the history, has
    a length that does not grow with the values: the name, two
    parentheses, and for each parameter its key and at most 55 more
    characters (the equals sign, two quotes, 50 characters of the value
    and a separator). *)
Theorem format_function_call_bounded (function_name : string)
  (parameters_ : Dict.t string) :
  (len (format_function_call function_name parameters_)
   <= len function_name + 2 + call_budget parameters_)%Z.
Proof.
  unfold format_function_call. destruct parameters_ as [|kv p] eqn:E.
  - rewrite len_append. change (len "()") with 2%Z. simpl. lia.
  - rewrite <- E. assert (Hne : parameters_ <> []) by (rewrite E; discriminate).
    pose proof (len_join_parameters Hne) as H.
    rewrite !len_append. change (len "(") with 1%Z. change (len ")") with 1%Z.
    rewrite E in *. lia.
Qed.

End FormatSpec.

(* ================================================================== *)
(** * Dispatch: names the registry does not know, arguments that do not fit *)
(* ================================================================== *)

Module DispatchSpec.
Import PyStr World Terminal Agent TextFacts.

(** Every registered name is qualified. *)
Lemma registered_has_dot (f : string) :
  Dict.mem f Tools.available_tools = true -> contains "." f = true.
Proof.
  unfold Dict.mem, Tools.available_tools. cbn [Dict.get].
  repeat match goal with
         | |- context [String.eqb f ?k] =>
             destruct (String.eqb_spec f k) as [->|_]; [reflexivity|]
         end.
  discriminate.
Qed.

Lemma qualified_has_dot (f : string) :
  startswith "terminal." f = true -> contains "." f = true.
Proof.
  intros H. rewrite (TaskLoopSpec.startswith_terminal f H).
  now rewrite char_in_app.
Qed.

Lemma on_terminal_ret {A} (x : A) (a : agent) :
  on_terminal (ret x) a = (Ok x, a).
Proof. now destruct a. Qed.

(** The name [run_function] works with: a bare name of its list gets the
    prefix. *)
Definition resolved (function_name : string) : string :=
  if str_in function_name bare_names
  then "terminal." ++ function_name else function_name.

(** X7: a name that, after the prefix has been added to a bare name of
    the list, is not in the registry makes [run_function] return
    ["Unknown function: <name>"] and changes nothing: no tool runs.  This
    holds for [get_all_functions_and_class_names], which the list corrects
    to a name the registry does not have. *)
Theorem run_function_unregistered (env : Env) (function_name : string)
  (parameters_ : Dict.t string) (a : agent) :
  Dict.mem (resolved function_name) Tools.available_tools = false ->
  run_function env function_name parameters_ a
  = (Ok (Tools.unknown_function (resolved function_name)), a).
Proof.
  intros Hun. unfold run_function. cbn [run_function_at].
  fold (resolved function_name). set (f := resolved function_name) in *.
  destruct (startswith "terminal." f) eqn:Hq; [|reflexivity].
  unfold method_name_of. rewrite (PyStrFacts.split_once_terminal f Hq).
  unfold bind at 1, ret at 1.
  assert (Hrun : on_terminal (Tools.run_tool env f parameters_) a
                 = (Ok (Tools.unknown_function f), a)).
  { unfold Tools.run_tool. rewrite (qualified_has_dot f Hq). cbn [negb].
    unfold Dict.mem in Hun.
    destruct (Dict.get f Tools.available_tools); [discriminate|].
    apply on_terminal_ret. }
  destruct (str_in (drop 9 f) ["write_file"; "append_to_file"]
            && Dict.mem "content" parameters_) eqn:Hg; [|exact Hrun].
  apply andb_true_iff in Hg. destruct Hg as [Hm _].
  apply (TaskLoopSpec.file_action_of_method f Hq) in Hm.
  unfold str_in, file_actions, existsb in Hm.
  destruct (String.eqb_spec f "terminal.write_file") as [E|_];
    [rewrite E in Hun; discriminate Hun|].
  destruct (String.eqb_spec f "terminal.append_to_file") as [E|_];
    [rewrite E in Hun; discriminate Hun | discriminate Hm].
Qed.

Lemma run_function_unregistered_witness :
  run_function RunCommandSpec.sleepy "get_all_functions_and_class_names"
               [("path", ".")] Scenario.fresh_agent
  = (Ok (Tools.unknown_function
           (resolved "get_all_functions_and_class_names")),
     Scenario.fresh_agent).
Proof.
  apply (@run_function_unregistered RunCommandSpec.sleepy
           "get_all_functions_and_class_names" [("path", ".")]
           Scenario.fresh_agent).
  reflexivity.
Defined.

Lemma filter_nil {X} (f : X -> bool) (l : list X) :
  (forall x, In x l -> f x = false) -> filter f l = [].
Proof.
  induction l as [|x l IH]; intros H; [reflexivity|]. cbn [filter].
  rewrite (H x) by now left. apply IH. intros y Hy. apply H. now right.
Qed.

Lemma filter_cons_in {X} (f : X -> bool) (l : list X) (x : X) :
  In x l -> f x = true -> exists y r, filter f l = y :: r.
Proof.
  induction l as [|z l IH]; intros Hin Hx; [contradiction|]. cbn [filter].
  destruct (f z) eqn:E; [eauto|].
  destruct Hin as [->|Hin]; [congruence | now apply IH].
Qed.

(** The call binds when every keyword is a parameter of the method and
    every required parameter is given. *)
Lemma bind_arguments_ok {St} (method : string)
  (signature : list (string * bool)) (parameters_ : Dict.t string) (s : St) :
  (forall k, In k (Dict.keys parameters_) -> Dict.mem k signature = true) ->
  (forall k, In (k, true) signature -> Dict.mem k parameters_ = true) ->
  Tools.bind_arguments method signature parameters_ s = (Ok tt, s).
Proof.
  intros Hknown Hgiven. unfold Tools.bind_arguments.
  rewrite filter_nil.
  - rewrite filter_nil; [reflexivity|].
    intros [k b] Hin. cbn [fst snd]. destruct b; [|reflexivity].
    now rewrite (Hgiven k Hin).
  - intros k Hin. now rewrite (Hknown k Hin).
Qed.

Lemma run_tool_registered (env : Env) (function_name method : string)
  (signature : list (string * bool)) (parameters_ : Dict.t string) (s : term) :
  Dict.get function_name Tools.available_tools = Some (method, signature) ->
  Tools.run_tool env function_name parameters_ s
  = bind (Tools.bind_arguments method signature parameters_)
         (fun _ => Tools.handler env method parameters_) s.
Proof.
  intros Hreg. unfold Tools.run_tool.
  rewrite registered_has_dot by (unfold Dict.mem; now rewrite Hreg).
  cbn [negb]. now rewrite Hreg.
Qed.

(** X8: a registered tool is not run with arguments that do not fit its
    method: when a parameter is not one of the method's, or a required
    one is missing, [run_tool] raises a [TypeError] before the method is
    entered, and the terminal is left as it was. *)
Theorem run_tool_rejects_bad_arguments (env : Env) (function_name : string)
  (method : string) (signature : list (string * bool))
  (parameters_ : Dict.t string) (s : term) :
  Dict.get function_name Tools.available_tools = Some (method, signature) ->
  (exists k, In k (Dict.keys parameters_) /\ Dict.mem k signature = false)
  \/ (exists k, In (k, true) signature /\ Dict.mem k parameters_ = false) ->
  exists e,
    Tools.run_tool env function_name parameters_ s = (Raise e, s)
    /\ exc_class e = "TypeError".
Proof.
  intros Hreg Hbad.
  rewrite (@run_tool_registered env _ _ _ parameters_ s Hreg).
  unfold bind, Tools.bind_arguments.
  destruct (filter (fun k => negb (Dict.mem k signature))
                   (Dict.keys parameters_)) as [|k0 r] eqn:Eunknown.
  - destruct Hbad as [(k & Hin & Hk)|(k & Hin & Hk)].
    + destruct (@filter_cons_in _ (fun k => negb (Dict.mem k signature))
                  _ k Hin) as (y & r & E); [now rewrite Hk|].
      rewrite E in Eunknown. discriminate.
    + destruct (@filter_cons_in _
                  (fun p => snd p && negb (Dict.mem (fst p) parameters_))
                  _ (k, true) Hin) as (y & r & ->);
        [cbn [fst snd]; now rewrite Hk|].
      eexists. split; reflexivity.
  - eexists. split; reflexivity.
Qed.

(** X9: a [timeout] given in the parameter block reaches [run_command] as
    a [str]: the command is spawned, waiting for it fails, and the result
    is an error; the process is not registered, so no later stop reaches
    it. *)
Theorem run_command_timeout_parameter (env : Env)
  (parameters_ : Dict.t string) (timeout : string) (s : term) :
  (forall k, In k (Dict.keys parameters_) -> k = "command" \/ k = "timeout") ->
  Dict.mem "command" parameters_ = true ->
  Dict.get "timeout" parameters_ = Some timeout ->
  popen_error env (clock s) (Tools.arg "command" parameters_) = None ->
  exists msg s',
    Tools.run_tool env "terminal.run_command" parameters_ s
    = (Ok (error_result msg), s')
    /\ trace s'
       = (trace s ++ [EvPopen (clock s) (Tools.arg "command" parameters_)])%list
    /\ background_processes s' = background_processes s.
Proof.
  intros Hkeys Hcommand Htimeout Hspawn.
  rewrite (@run_tool_registered env "terminal.run_command" "run_command"
             [("command", true); ("timeout", false)] parameters_ s eq_refl).
  unfold bind at 1. rewrite bind_arguments_ok.
  - unfold Tools.handler. cbn [String.eqb Ascii.eqb Bool.eqb andb].
    rewrite Htimeout.
    unfold run_command, try_except, bind, tick, log, modify, ret, raise.
    cbn [clock]. rewrite Hspawn. cbn. do 2 eexists. repeat split.
  - intros k Hin. destruct (Hkeys k Hin) as [->| ->]; reflexivity.
  - intros k [[= <-]|[[=]|[]]]. exact Hcommand.
Qed.

Lemma run_tool_rejects_bad_arguments_witness :
  exists e,
    Tools.run_tool RunCommandSpec.sleepy "terminal.run_command"
                   [("cmd", "ls")] Scenario.fresh_terminal
    = (Raise e, Scenario.fresh_terminal)
    /\ exc_class e = "TypeError".
Proof.
  apply (@run_tool_rejects_bad_arguments RunCommandSpec.sleepy
           "terminal.run_command" "run_command"
           [("command", true); ("timeout", false)] [("cmd", "ls")]
           Scenario.fresh_terminal);
    [reflexivity | left; exists "cmd"; split; [now left | reflexivity]].
Defined.

Lemma run_command_timeout_parameter_witness :
  let parameters_ := [("command", "sleep 9"); ("timeout", "5")] in
  let s := Scenario.fresh_terminal in
  exists msg s',
    Tools.run_tool RunCommandSpec.sleepy "terminal.run_command"
                   parameters_ s
    = (Ok (error_result msg), s')
    /\ trace s'
       = (trace s ++ [EvPopen (clock s) (Tools.arg "command" parameters_)])%list
    /\ background_processes s' = background_processes s.
Proof.
  apply (@run_command_timeout_parameter RunCommandSpec.sleepy
           [("command", "sleep 9"); ("timeout", "5")] "5"
           Scenario.fresh_terminal); try reflexivity.
  intros k [<-|[<-|[]]]; auto.
Defined.

End DispatchSpec.

(* ================================================================== *)
(** * The process manager: input, spawning, peeking, listing, signals *)
(* ================================================================== *)

Module ProcessSpec.
Import PyStr World Terminal TerminalSpec CleanupSpec.
Local Open Scope list_scope.

(** X10: [send_input_to_process] never succeeds.  Whatever the id, the
    text and the state, it returns an error result and writes to no pipe:
    the id is unknown, or the process has ended, or the process runs and
    has no pipe for its input, since it was spawned without one. *)
Theorem send_input_never_succeeds (env : Env) (process_id input_text : string)
  (s : term) :
  exists msg s' events,
    send_input_to_process env process_id input_text s
    = (Ok (error_result msg), s')
    /\ trace s' = trace s ++ events
    /\ forall pipe text, ~ In (EvStdin pipe text) events.
Proof.
  assert (H : wp (send_input_to_process env process_id input_text)
                 (fun r s' =>
                    exists msg events,
                      r = Ok (error_result msg)
                      /\ trace s' = trace s ++ events
                      /\ forall pipe text, ~ In (EvStdin pipe text) events) s).
  { unfold send_input_to_process, stdin. wp_paths; try absurd_path.
    all: do 2 eexists; split; [reflexivity|].
    all: cbn [trace]; rewrite <- ?app_assoc.
    all: split; [first [reflexivity | symmetry; apply app_nil_r]|].
    all: intros pipe text Hin; simpl in Hin; intuition discriminate. }
  apply wp_run in H. destruct H as (r & s' & Hrun & msg & events & -> & Ht & Hno).
  exists msg, s', events. auto.
Qed.

(** X11: [start_background_process] always returns.  When the spawn
    fails, the result is the error, and registry and log are as before.
    When it succeeds, the result carries the fresh id and the status
    ["started"], the registry holds under that id a record of the new
    process and its command, whose captured output is the one returned,
    the log shows the spawn, and every other id is registered exactly when
    it was before. *)
Theorem start_background_process_registers (env : Env) (command_ : string)
  (s : term) :
  let process_id := uuid4 env (clock s) in
  exists r s',
    start_background_process env command_ s = (Ok r, s')
    /\ match popen_error env (clock s) command_ with
       | Some e =>
           r = error_result (exc_str e)
           /\ background_processes s' = background_processes s
           /\ trace s' = trace s
       | None =>
           exists info,
             r = VDict [("process_id", VStr process_id);
                        ("status", VStr "started");
                        ("stdout", VStr (stdout info));
                        ("stderr", VStr (stderr info))]
             /\ Dict.get process_id (background_processes s') = Some info
             /\ process info = clock s /\ command info = command_
             /\ trace s' = trace s ++ [EvPopen (clock s) command_]
             /\ forall k, k <> process_id ->
                  Dict.mem k (background_processes s')
                  = Dict.mem k (background_processes s)
       end.
Proof.
  intros process_id.
  assert (H : wp (start_background_process env command_)
                 (fun r s' =>
                    exists v, r = Ok v
                    /\ match popen_error env (clock s) command_ with
                       | Some e =>
                           v = error_result (exc_str e)
                           /\ background_processes s' = background_processes s
                           /\ trace s' = trace s
                       | None =>
                           exists info,
                             v = VDict [("process_id", VStr process_id);
                                        ("status", VStr "started");
                                        ("stdout", VStr (stdout info));
                                        ("stderr", VStr (stderr info))]
                             /\ Dict.get process_id (background_processes s')
                                = Some info
                             /\ process info = clock s
                             /\ command info = command_
                             /\ trace s' = trace s ++ [EvPopen (clock s) command_]
                             /\ forall k, k <> process_id ->
                                  Dict.mem k (background_processes s')
                                  = Dict.mem k (background_processes s)
                       end) s).
  { unfold start_background_process. wp_paths.
    all: rewrite ?get_capture_all, ?DictFacts.get_set_same in *.
    all: try discriminate.
    all: eexists; (split; [reflexivity|]).
    - repeat split.
    - cbn [option_map] in *.
      match goal with H : Some _ = Some _ |- _ => injection H as <- end.
      eexists. split; [reflexivity|].
      cbn [process command collect_output]. repeat split.
      intros k Hk. rewrite mem_capture_all. unfold Dict.mem.
      now rewrite DictFacts.get_set_other. }
  apply wp_run in H. destruct H as (r & s' & Hrun & v & -> & H).
  exists v, s'. auto.
Qed.

(** A world in which every process stays alive. *)
Definition alive_world : Env :=
  Scenario.world Scenario.no_reply (TimeoutExpired "" "") (fun _ _ => None)
                 (fun _ => NoFault).

Definition server : process_info :=
  ProcessInfo 7 "python server.py" 7 "ready" "".

(** X12: [get_process_output] on a registered process that the poll finds
    alive returns the status ["running"] with the output captured so far
    and no ["returncode"]; the record stays registered, and the poll is
    all that is done to the process. *)
Theorem get_process_output_running (env : Env) (process_id : string)
  (info : process_info) (s : term) :
  Dict.get process_id (background_processes s) = Some info ->
  observes env s (process info) = None ->
  exists s',
    get_process_output env process_id s
    = (Ok (VDict
         [("status", VStr "running");
          ("stdout",
           VStr (stdout info ++ captured env (clock s) (process info) Stdout));
          ("stderr",
           VStr (stderr info ++ captured env (clock s) (process info) Stderr))]),
       s')
    /\ Dict.mem process_id (background_processes s') = true
    /\ trace s' = trace s ++ [EvPoll (process info) None].
Proof.
  intros Hget Halive. unfold observes in Halive.
  assert (Hmem : Dict.mem process_id (background_processes s) = true)
    by (unfold Dict.mem; now rewrite Hget).
  eexists. split.
  - apply wp_eq. unfold get_process_output.
    wp_paths; settle; try discriminate. split; reflexivity.
  - cbn. now rewrite mem_capture_all.
Qed.

Lemma get_process_output_running_witness :
  exists s',
    get_process_output alive_world "p7" Scenario.one_process
    = (Ok (VDict
         [("status", VStr "running");
          ("stdout",
           VStr (stdout server
                 ++ captured alive_world (clock Scenario.one_process)
                             (process server) Stdout));
          ("stderr",
           VStr (stderr server
                 ++ captured alive_world (clock Scenario.one_process)
                             (process server) Stderr))]),
       s')
    /\ Dict.mem "p7" (background_processes s') = true
    /\ trace s'
       = trace Scenario.one_process ++ [EvPoll (process server) None].
Proof.
  apply (@get_process_output_running alive_world "p7" server
           Scenario.one_process); reflexivity.
Defined.

(** The signals a stop may send, as the log shows them. *)
Inductive stop_events (handle : nat) : list event -> Prop :=
| FoundDead (rc : Z) :
    stop_events handle [EvPoll handle (Some rc)]
| TermRaised :
    stop_events handle [EvPoll handle None; EvKillpg handle SIGTERM true]
| TermSufficed (rc : Z) :
    stop_events handle
      [EvPoll handle None; EvKillpg handle SIGTERM false;
       EvPoll handle (Some rc)]
| Killed (raised : bool) :
    stop_events handle
      [EvPoll handle None; EvKillpg handle SIGTERM false;
       EvPoll handle None; EvKillpg handle SIGKILL raised].

(** X14: what [stop_background_process] does to a registered process is
    one of four things: it finds it dead and sends nothing; it sends
    SIGTERM and that raises; it sends SIGTERM and then finds it dead; or
    it sends SIGTERM, finds it still alive and sends SIGKILL.  Nothing is
    sent to another process, SIGKILL is never sent first, and no file is
    touched. *)
Theorem stop_signal_protocol (env : Env) (process_id : string)
  (info : process_info) (s : term) :
  Dict.get process_id (background_processes s) = Some info ->
  exists r s' events,
    stop_background_process env process_id s = (Ok r, s')
    /\ trace s' = trace s ++ events
    /\ stop_events (process info) events
    /\ files s' = files s.
Proof.
  intros Hget.
  assert (H : wp (stop_background_process env process_id)
                 (fun r s' =>
                    exists v events,
                      r = Ok v /\ trace s' = trace s ++ events
                      /\ stop_events (process info) events
                      /\ files s' = files s) s).
  { unfold stop_background_process. wp_paths; settle; try known_path.
    all: do 2 eexists; split; [reflexivity|].
    all: cbn [trace files]; rewrite <- ?app_assoc.
    all: split; [reflexivity|]; split; [|reflexivity].
    all: first [ apply FoundDead | apply TermRaised | apply TermSufficed
               | apply Killed ]. }
  apply wp_run in H.
  destruct H as (r & s' & Hrun & v & events & -> & Ht & Hev & Hf).
  exists v, s', events. auto.
Qed.

Lemma stop_signal_protocol_witness :
  exists r s' events,
    stop_background_process alive_world "p7" Scenario.one_process
    = (Ok r, s')
    /\ trace s' = trace Scenario.one_process ++ events
    /\ stop_events (process server) events
    /\ files s' = files Scenario.one_process.
Proof.
  apply (@stop_signal_protocol alive_world "p7" server
           Scenario.one_process).
  reflexivity.
Defined.

(** The status a listing reports for an id, given the registry it leaves. *)
Definition reported (d : Dict.t process_info) (process_id : string) : string :=
  if Dict.mem process_id d then "running" else "terminated".

Lemma mem_del_other {V} (k k' : string) (d : Dict.t V) :
  k <> k' -> Dict.mem k (Dict.del k' d) = Dict.mem k d.
Proof. intros H. unfold Dict.mem. now rewrite DictFacts.get_del_other. Qed.

(** One visit: the entry of the id is written, and the record is removed
    when the poll found the process dead. *)
Lemma list_entry_exact env process_id info result s :
  wp (list_entry env (process_id, info) result)
     (fun r s' =>
        exists rr entry,
          r = Ok (Dict.set process_id (VDict entry) result)
          /\ Dict.get "status" entry = Some (VStr (status_of rr))
          /\ background_processes s'
             = match rr with
               | Some _ => Dict.del process_id (background_processes s)
               | None => background_processes s
               end) s.
Proof.
  unfold list_entry. wp_paths; settle; try known_path.
  all: match goal with H : proc_poll _ _ _ = ?v |- _ => exists v end.
  all: eexists; split; [reflexivity|]; split; [reflexivity|].
  all: cbn [background_processes set_background_processes].
  all: try reflexivity.
  symmetry. apply del_absent. assumption.
Qed.

Definition listed (rest : list (string * process_info))
  (result : Dict.t pyval) (s : term) (r : outcome (Dict.t pyval))
  (s' : term) : Prop :=
  exists result',
    r = Ok result'
    /\ Dict.keys result' = Dict.keys result ++ map fst rest
    /\ (forall k, ~ In k (map fst rest) ->
          Dict.get k result' = Dict.get k result
          /\ Dict.mem k (background_processes s')
             = Dict.mem k (background_processes s))
    /\ forall k, In k (map fst rest) ->
         exists entry,
           Dict.get k result' = Some (VDict entry)
           /\ Dict.get "status" entry
              = Some (VStr (reported (background_processes s') k)).

Lemma list_loop_listed env rest :
  forall result s,
    NoDup (map fst rest) ->
    (forall k, In k (map fst rest) -> ~ In k (Dict.keys result)) ->
    (forall k, In k (map fst rest) ->
       Dict.mem k (background_processes s) = true) ->
    wp (list_loop env rest result) (listed rest result s) s.
Proof.
  induction rest as [|[id info] rest IH]; intros result s Hnd Hnew Hreg;
    cbn [list_loop].
  - wp_step. exists result. cbn [map]. rewrite app_nil_r.
    repeat split; auto. intros k [].
  - cbn [map fst] in *. inversion Hnd as [|? ? Hid Hnd']; subst.
    wp_step. eapply wp_mono; [apply list_entry_exact|].
    intros r s1 (rr & entry & -> & Hstatus & Hbp).
    assert (Hother : forall k, k <> id ->
              Dict.mem k (background_processes s1)
              = Dict.mem k (background_processes s)).
    { intros k Hk. rewrite Hbp. destruct rr; [|reflexivity].
      now apply mem_del_other. }
    assert (Hkeys1 : Dict.keys (Dict.set id (VDict entry) result)
                     = Dict.keys result ++ [id]).
    { rewrite ParametersSpec.set_fresh by (apply Hnew; now left).
      unfold Dict.keys. now rewrite map_app. }
    eapply wp_mono; [apply (IH (Dict.set id (VDict entry) result) s1 Hnd')|].
    + intros k Hk. rewrite Hkeys1. intros Hin. apply in_app_or in Hin.
      destruct Hin as [Hin|[<-|[]]]; [|contradiction].
      apply (Hnew k); [now right | exact Hin].
    + intros k Hk. rewrite Hother; [apply Hreg; now right|].
      intros ->. contradiction.
    + intros r' s' (result' & -> & Hkeys' & Hframe & Hrest).
      exists result'. split; [reflexivity|]. split; [|split].
      * rewrite Hkeys', Hkeys1, <- app_assoc. reflexivity.
      * intros k Hk. destruct (Hframe k) as [Hg Hm];
          [intros Hin; apply Hk; now right|].
        assert (Hne : k <> id) by (intros ->; apply Hk; now left).
        rewrite Hg, Hm, DictFacts.get_set_other, Hother by assumption.
        now split.
      * intros k [Hk|Hk]; [subst k | now apply Hrest].
        destruct (Hframe id Hid) as [Hg Hm].
        exists entry. cbn [fst]. rewrite Hg, DictFacts.get_set_same.
        split; [reflexivity|]. rewrite Hstatus. unfold reported.
        rewrite Hm, Hbp. destruct rr; cbn [status_of].
        -- now rewrite DictFacts.mem_del_same.
        -- rewrite Hreg; [reflexivity | now left].
Qed.

(** X13: [list_background_processes] reports every registered id, in the
    order of the registry, and adds no id; the status it reports for an
    id is ["running"] exactly when the id is still registered after the
    call, and ["terminated"] exactly when the call removed it. *)
Theorem list_background_processes_consistent (env : Env) (s : term) :
  Dict.wf (background_processes s) ->
  exists result s',
    list_background_processes env s = (Ok result, s')
    /\ Dict.keys result = Dict.keys (background_processes s)
    /\ (forall k, Dict.mem k (background_processes s') = true ->
                  Dict.mem k (background_processes s) = true)
    /\ forall k, In k (Dict.keys (background_processes s)) ->
         exists entry,
           Dict.get k result = Some (VDict entry)
           /\ Dict.get "status" entry
              = Some (VStr (reported (background_processes s') k)).
Proof.
  intros Hwf.
  assert (H : wp (list_background_processes env)
                 (listed (background_processes s) [] s) s).
  { unfold list_background_processes. wp_step. wp_step.
    apply list_loop_listed.
    - exact Hwf.
    - intros k _ [].
    - intros k Hk.
      apply in_map_iff in Hk. destruct Hk as ([k' info] & <- & Hin).
      eapply In_mem. exact Hin. }
  apply wp_run in H.
  destruct H as (r & s' & Hrun & result & -> & Hkeys & Hframe & Hall).
  exists result, s'. split; [exact Hrun|]. split; [exact Hkeys|]. split.
  - intros k Hk.
    destruct (in_dec string_dec k (map fst (background_processes s)))
      as [Hin|Hout].
    + apply in_map_iff in Hin. destruct Hin as ([k' info] & <- & Hin).
      eapply In_mem. exact Hin.
    + destruct (Hframe k Hout) as [_ <-]. exact Hk.
  - exact Hall.
Qed.

Lemma list_background_processes_consistent_witness :
  let s := Scenario.one_process in
  exists result s',
    list_background_processes alive_world s = (Ok result, s')
    /\ Dict.keys result = Dict.keys (background_processes s)
    /\ (forall k, Dict.mem k (background_processes s') = true ->
                  Dict.mem k (background_processes s) = true)
    /\ forall k, In k (Dict.keys (background_processes s)) ->
         exists entry,
           Dict.get k result = Some (VDict entry)
           /\ Dict.get "status" entry
              = Some (VStr (reported (background_processes s') k)).
Proof.
  apply (@list_background_processes_consistent alive_world
           Scenario.one_process).
  repeat constructor. simpl. tauto.
Defined.

End ProcessSpec.

(* ================================================================== *)
(** * Showing a result changes the history *)
(* ================================================================== *)

Module PrintResultSpec.
Import PyStr World Terminal Extractor Agent TerminalSpec CleanupSpec AgentSpec
  TaskLoopSpec DispatchSpec.

Lemma nth_update_same (l : nat) (d : Dict.t pyval) (h : store) :
  l < List.length h -> nth l (update l d h) Dict.empty = d.
Proof.
  revert l; induction h as [|x h IH]; intros [|l] H; simpl in *;
    try lia; [reflexivity | apply IH; lia].
Qed.

Lemma nth_update_other (l j : nat) (d : Dict.t pyval) (h : store) :
  j <> l -> nth j (update l d h) Dict.empty = nth j h Dict.empty.
Proof.
  revert l j; induction h as [|x h IH]; intros [|l] [|j] H; simpl;
    try reflexivity; try contradiction.
  apply IH. congruence.
Qed.

(** The output under ["stdout"] is not shown: the key is absent or its
    value is falsy. *)
Definition no_output (d : Dict.t pyval) : Prop :=
  match Dict.get "stdout" d with
  | Some v => truth v = false
  | None => True
  end.

Lemma truth_nonempty (s : string) : s <> "" -> truth (VStr s) = true.
Proof.
  intros H. cbn. unfold truthy.
  destruct (String.eqb_spec s ""); [contradiction | reflexivity].
Qed.

(** When no output is shown, [result_copy] is the result itself, and the
    deletion acts on it. *)
Lemma print_result_drops (l : nat) (h : store) (err : string) :
  Dict.mem "error" (nth l h Dict.empty) = false ->
  no_output (nth l h Dict.empty) ->
  Dict.get "stderr" (nth l h Dict.empty) = Some (VStr err) -> err <> "" ->
  print_result (Ref l) h
  = (Ok tt, update l (Dict.del "stderr" (nth l h Dict.empty)) h).
Proof.
  intros Herror Hout Herr Hne.
  cbn [print_result]. unfold print_result_dict, bind, load, gets.
  rewrite Herror, Herr, (truth_nonempty Hne). unfold no_output in Hout.
  assert (Hmem : Dict.mem "stderr" (nth l h Dict.empty) = true)
    by (unfold Dict.mem; now rewrite Herr).
  destruct (Dict.get "stdout" (nth l h Dict.empty)) as [v|];
    [rewrite Hout|]; cbn [ret require_split]; rewrite Hmem; reflexivity.
Qed.

Lemma length_update (l : nat) (d : Dict.t pyval) (h : store) :
  List.length (update l d h) = List.length h.
Proof. revert l. induction h as [|x h IH]; intros [|l]; simpl; auto. Qed.

(** X15: showing a result can change it.  When the result is a dict
    without ["error"], with no output under ["stdout"] (the key is absent
    or its value is falsy) and a non-empty string under ["stderr"],
    [print_result] deletes ["stderr"] from the very object it was given;
    the other objects of the store are untouched. *)
Theorem print_result_forgets_stderr (l : nat) (h : store) (err : string) :
  let d := nth l h Dict.empty in
  l < List.length h ->
  Dict.mem "error" d = false ->
  no_output d ->
  Dict.get "stderr" d = Some (VStr err) -> err <> "" ->
  exists h',
    print_result (Ref l) h = (Ok tt, h')
    /\ nth l h' Dict.empty = Dict.del "stderr" d
    /\ List.length h' = List.length h
    /\ forall j, j <> l -> nth j h' Dict.empty = nth j h Dict.empty.
Proof.
  intros d Hl Herror Hout Herr Hne.
  exists (update l (Dict.del "stderr" d) h). split; [|split; [|split]].
  - now apply print_result_drops with (err := err).
  - now apply nth_update_same.
  - apply length_update.
  - intros j Hj. now apply nth_update_other.
Qed.

Lemma print_result_forgets_stderr_witness :
  let failed := [("stdout", VStr ""); ("stderr", VStr "boom");
                 ("returncode", VInt 1)] in
  exists h',
    print_result (Ref 0) [failed] = (Ok tt, h')
    /\ nth 0 h' Dict.empty = Dict.del "stderr" (nth 0 [failed] Dict.empty)
    /\ List.length h' = List.length [failed]
    /\ forall j, j <> 0 -> nth j h' Dict.empty = nth j [failed] Dict.empty.
Proof.
  apply (@print_result_forgets_stderr 0
           [[("stdout", VStr ""); ("stderr", VStr "boom");
             ("returncode", VInt 1)]] "boom");
    [simpl; lia | reflexivity | reflexivity | reflexivity | discriminate].
Defined.

(** The terminal after a foreground command was spawned. *)
Definition spawned (command_ : string) (t : term) : term :=
  Terminal_for_agent (cwd t) (background_processes t) (S (clock t)) (files t)
                     (trace t ++ [EvPopen (clock t) command_])%list.

Lemma run_command_action (env : Env) (command_ out err : string) (rc : Z)
  (a : agent) :
  popen_error env (clock (terminal a)) command_ = None ->
  communicate env (clock (terminal a)) command_ = Completed out err rc ->
  run_function env "terminal.run_command" [("command", command_)] a
  = (Ok (VDict [("stdout", VStr out); ("stderr", VStr err);
                ("returncode", VInt rc)]),
     with_terminal (spawned command_ (terminal a)) a).
Proof.
  intros Hspawn Hcomm. unfold run_function. cbn [run_function_at].
  change (str_in "terminal.run_command" bare_names) with false. cbv iota.
  change (startswith "terminal." "terminal.run_command") with true.
  cbv iota. unfold method_name_of.
  change (split_once "." "terminal.run_command") with ["terminal"; "run_command"].
  unfold bind at 1, ret at 1.
  change (str_in "run_command" ["write_file"; "append_to_file"]) with false.
  cbn [andb]. unfold on_terminal, lift.
  rewrite (@run_tool_registered env "terminal.run_command" "run_command"
             [("command", true); ("timeout", false)] _ _ eq_refl).
  unfold bind at 1. rewrite bind_arguments_ok.
  - unfold Tools.handler. cbn [String.eqb Ascii.eqb Bool.eqb andb].
    change (Dict.get "timeout" [("command", command_)]) with (@None string).
    change (Tools.arg "command" [("command", command_)]) with command_.
    unfold run_command, try_except, bind, tick, log, modify, ret.
    rewrite Hspawn. cbn [clock]. rewrite Hcomm. reflexivity.
  - intros k [<-|[]]. reflexivity.
  - intros k [[= <-]|[[=]|[]]]. reflexivity.
Qed.

(** X16: a command that fails without output loses its error text.  When
    the reply asks for [terminal.run_command] and the command ends with
    an empty stdout and a non-empty stderr, the turn of the task loop
    appends the call to the history and goes on, and the result that the
    history entry refers to then holds ["stdout"] and ["returncode"] only:
    the next prompt is built without the error text. *)
Theorem failed_command_stderr_lost (env : Env) (task : string)
  (step_ max_steps : Z) (a : agent) (text : string) (d : decision)
  (diagnostic command_ err : string) (rc : Z) :
  (forall message, llm env (round_trips a) message = ReplyText text) ->
  extract_response_from_tags text = Ok (d, diagnostic) ->
  function d = Some (Some "terminal.run_command") ->
  get_task_complete d = false ->
  parameters d = Some [("command", command_)] ->
  popen_error env (clock (terminal a)) command_ = None ->
  communicate env (clock (terminal a)) command_ = Completed "" err rc ->
  err <> "" ->
  exists a' call l,
    task_step env task step_ max_steps a = (Ok Continue, a')
    /\ history a' = (history a ++ [(call, Ref l)])%list
    /\ nth l (heap a') Dict.empty
       = [("stdout", VStr ""); ("returncode", VInt rc)].
Proof.
  intros Hreply Hextract Hfun Hdone Hpar Hspawn Hcomm Herr.
  assert (Hhas : has_function d = true)
    by (unfold has_function, get_function; now rewrite Hfun).
  unfold task_step, execute_step.
  destruct (build_history_text_run env a) as (text' & extra & Hbuild).
  unfold bind at 1. unfold bind at 1, gets at 1. unfold bind at 1.
  rewrite Hbuild. unfold bind at 1, gets at 1.
  change (Z.to_nat (2 + 1)) with 3.
  rewrite attempts_S. cbn [Z.leb Z.compare].
  unfold bind at 1, gets at 1. cbn [round_trips with_heap].
  unfold bind at 1, try_except, bind at 1, request, bind at 1, gets at 1.
  cbn [round_trips]. unfold bind at 1, modify at 1.
  rewrite !Hreply. cbn [ret].
  unfold dispatch, bind at 1, of_outcome. rewrite Hextract.
  rewrite (has_function_valid _ Hhas), Hhas, Hdone. cbn [negb andb].
  unfold get_function, get_parameters. rewrite Hfun, Hpar.
  unfold bind at 1.
  match goal with
  | |- context [run_function env _ _ ?a1] =>
      rewrite (@run_command_action env command_ "" err rc a1 Hspawn Hcomm)
  end.
  unfold bind at 1, on_heap at 1, lift, to_obj, bind at 1, alloc.
  cbn [heap with_terminal ret]. unfold bind at 1, modify at 1.
  cbn [ret terminal history response_errors heap start_time round_trips].
  change (truthy (format_function_call "terminal.run_command"
                    [("command", command_)])) with true.
  cbv iota. unfold bind at 1, on_heap at 1, lift.
  cbn [heap]. rewrite print_result_drops with (err := err).
  - rewrite ReplaySpec.nth_fresh, ReplaySpec.update_fresh.
    do 3 eexists. split; [reflexivity|]. cbn [history heap].
    split; [reflexivity|]. now rewrite ReplaySpec.nth_fresh.
  - now rewrite ReplaySpec.nth_fresh.
  - now rewrite ReplaySpec.nth_fresh.
  - now rewrite ReplaySpec.nth_fresh.
  - exact Herr.
Qed.

(** A model that lists a directory that is not there. *)
Definition failing_reply : string :=
  "<function>terminal.run_command</function>"
  ++ "<parameters>command: ls nope</parameters>".

Definition failing : Env :=
  Scenario.world (fun _ => ReplyText failing_reply)
                 (Completed "" "ls: cannot access 'nope'" 2)
                 (fun _ _ => None) (fun _ => NoFault).

Lemma failed_command_stderr_lost_witness :
  exists a' call l,
    task_step failing "list nope" 1 20 Scenario.fresh_agent
    = (Ok Continue, a')
    /\ history a' = (history Scenario.fresh_agent ++ [(call, Ref l)])%list
    /\ nth l (heap a') Dict.empty
       = [("stdout", VStr ""); ("returncode", VInt 2)].
Proof.
  apply (@failed_command_stderr_lost failing "list nope" 1 20
           Scenario.fresh_agent failing_reply
           (Decision (Some "No thought provided")
                     (Some (Some "terminal.run_command")) (Some false)
                     (Some [("command", "ls nope")]))
           success_diagnostic "ls nope" "ls: cannot access 'nope'" 2);
    try reflexivity.
  discriminate.
Defined.

End PrintResultSpec.

(* ================================================================== *)
(** * A model client that is down *)
(* ================================================================== *)

Module StepSpec.
Import PyStr World Terminal Extractor Agent TerminalSpec CleanupSpec AgentSpec
  TaskLoopSpec.

(** Every request to the model client raises. *)
Definition always_raises (env : Env) : Prop :=
  forall n message, exists e, llm env n message = ReplyRaises e.

(** What the last request of a step raises, as [str(e)]. *)
Definition last_error (env : Env) (n : nat) (message : string) : string :=
  match llm env n message with
  | ReplyRaises e => exc_str e
  | ReplyText _ => ""
  end.

Definition with_response_errors (errs : list response_error) (a : agent)
  : agent :=
  Agent_ (terminal a) (history a) errs (heap a) (start_time a)
         (round_trips a).

Definition gave_up (error_ : string) : step_tuple :=
  (false, "", None, Val (error_result ("Error processing step: " ++ error_))).

Lemma attempts_always_raises (env : Env) (message : string)
  (step_num max_retries : Z) :
  always_raises env ->
  forall k retry_count a,
    retry_count = (max_retries - Z.of_nat k)%Z ->
    let error_ := last_error env (round_trips a + k) message in
    attempts env message step_num max_retries (S k) retry_count None a
    = (Ok (Some (gave_up error_)),
       with_round_trips (round_trips a + S k)
         (with_response_errors
            (response_errors a ++ [ResponseError step_num error_ None]) a)).
Proof.
  intros Hdown. induction k as [|k IH]; intros retry_count a Hrc error_;
    rewrite attempts_S;
    (destruct (Z.leb_spec retry_count max_retries) as [_|]; [|lia]);
    destruct (Hdown (round_trips a) message) as (e & Hreply);
    unfold bind, gets, try_except, request, modify, on_exception;
    cbn -[attempts]; rewrite Hreply; cbn -[attempts].
  - destruct (Z.ltb_spec retry_count max_retries) as [|_]; [lia|].
    cbn. unfold with_round_trips, with_response_errors, gave_up, error_,
      last_error.
    rewrite Nat.add_0_r, Hreply. cbn.
    now replace (round_trips a + 1) with (S (round_trips a)) by lia.
  - destruct (Z.ltb_spec retry_count max_retries) as [_|]; [|lia].
    cbn -[attempts]. rewrite IH by lia. cbn.
    unfold with_round_trips, with_response_errors, gave_up, error_. cbn.
    replace (S (round_trips a + k)) with (round_trips a + S k) by lia.
    do 3 f_equal. lia.
Qed.

(** X17: a model client that is down ends the step after
    [max_retries + 1] requests.  When every request raises, [execute_step]
    makes exactly [max_retries + 1] of them, raises nothing itself, and
    returns not-done with an empty thought, no action and the error
    payload built from what the last request raised; that error is
    recorded once in [response_errors], and neither the terminal nor the
    history changes. *)
Theorem requests_exhausted (env : Env) (task : string)
  (step_num max_steps max_retries : Z) (a : agent) :
  (0 <= max_retries)%Z ->
  always_raises env ->
  exists message e a',
    llm env (round_trips a + Z.to_nat max_retries) message = ReplyRaises e
    /\ execute_step env task step_num max_steps max_retries a
       = (Ok (Some (false, "", None,
                    Val (VDict [("error",
                                 VStr ("Error processing step: "
                                       ++ exc_str e))]))),
          a')
    /\ round_trips a' = round_trips a + Z.to_nat (max_retries + 1)
    /\ response_errors a'
       = (response_errors a ++ [ResponseError step_num (exc_str e) None])%list
    /\ terminal a' = terminal a
    /\ history a' = history a.
Proof.
  intros Hmax Hdown. unfold execute_step.
  destruct (build_history_text_run env a) as (text & extra & Hbuild).
  unfold bind at 1, gets at 1. unfold bind at 1. rewrite Hbuild.
  unfold bind at 1, gets at 1.
  replace (Z.to_nat (max_retries + 1)) with (S (Z.to_nat max_retries))
    by lia.
  rewrite (@attempts_always_raises env _ step_num max_retries Hdown
             (Z.to_nat max_retries) 0%Z) by lia.
  match goal with
  | |- context [last_error env ?n ?m] =>
      destruct (Hdown n m) as (e & Hreply); exists m, e;
      unfold last_error; rewrite Hreply
  end.
  eexists. split; [exact Hreply|]. split; [reflexivity|].
  cbn. repeat split.
Qed.

Lemma requests_exhausted_witness :
  exists message e a',
    llm RunCommandSpec.sleepy
        (round_trips Scenario.fresh_agent + Z.to_nat 2) message
    = ReplyRaises e
    /\ execute_step RunCommandSpec.sleepy "task" 1 20 2 Scenario.fresh_agent
       = (Ok (Some (false, "", None,
                    Val (VDict [("error",
                                 VStr ("Error processing step: "
                                       ++ exc_str e))]))),
          a')
    /\ round_trips a' = round_trips Scenario.fresh_agent + Z.to_nat (2 + 1)
    /\ response_errors a'
       = (response_errors Scenario.fresh_agent
          ++ [ResponseError 1 (exc_str e) None])%list
    /\ terminal a' = terminal Scenario.fresh_agent
    /\ history a' = history Scenario.fresh_agent.
Proof.
  apply (@requests_exhausted RunCommandSpec.sleepy "task" 1 20 2
           Scenario.fresh_agent); [lia|].
  intros n message. eexists. reflexivity.
Defined.

End StepSpec.

(* ================================================================== *)
(** * What a step and a task may cost *)
(* ================================================================== *)

Module BudgetSpec.
Import PyStr World Terminal Extractor Agent TerminalSpec CleanupSpec AgentSpec
  TaskLoopSpec.

(** ** Runs that touch only the terminal and the store *)

Definition only_world (a a' : agent) : Prop :=
  history a' = history a /\ response_errors a' = response_errors a
  /\ start_time a' = start_time a /\ round_trips a' = round_trips a.

Lemma only_world_refl a : only_world a a.
Proof. repeat split. Qed.

Lemma only_world_trans a1 a2 a3 :
  only_world a1 a2 -> only_world a2 a3 -> only_world a1 a3.
Proof.
  intros (H1 & H2 & H3 & H4) (K1 & K2 & K3 & K4).
  repeat split; congruence.
Qed.

Ltac ow_pre :=
  first [ intros; apply only_world_refl
        | intros; eapply only_world_trans; eassumption ].

Ltac ow_step :=
  lazymatch goal with
  | |- wp (bind _ _) (keeps _ _) _ =>
      eapply keeps_bind; [ow_pre | | intros ? ? ?]
  | |- wp (try_except _ _) (keeps _ _) _ =>
      eapply keeps_try_except; [ow_pre | | intros ? ? ?]
  | |- wp (ret _) (keeps _ _) _ => apply keeps_ret; ow_pre
  | |- wp (raise _) (keeps _ _) _ => apply keeps_raise; ow_pre
  | |- wp (gets _) (keeps _ _) _ => apply keeps_gets; ow_pre
  | |- wp (match ?x with _ => _ end) _ _ => destruct x eqn:?
  | |- wp (if ?x then _ else _) _ _ => destruct x eqn:?
  end.

Lemma on_terminal_only env {A} (c : M term A) (a : agent) :
  wp c (keeps (evolves env) (terminal a)) (terminal a) ->
  wp (on_terminal c) (keeps only_world a) a.
Proof.
  intros H. apply wp_lift. eapply wp_mono; [exact H|].
  intros r t' [Hr _]. split; [exact Hr | repeat split].
Qed.

Lemma on_terminal_total_only env {A} (c : M term A) (a : agent) :
  wp c (total env (terminal a)) (terminal a) ->
  wp (on_terminal c) (keeps only_world a) a.
Proof.
  intros H. apply (@on_terminal_only env). eapply wp_mono; [exact H|].
  intros r t'. apply total_keeps.
Qed.

Lemma on_heap_only {A} (c : M store A) (a : agent) :
  wp c (keeps whatever (heap a)) (heap a) ->
  wp (on_heap c) (keeps only_world a) a.
Proof.
  intros H. apply wp_lift. eapply wp_mono; [exact H|].
  intros r h' [Hr _]. split; [exact Hr | repeat split].
Qed.

Lemma chunked_only env rec function_name parameters_ chunk_size a :
  str_in function_name file_actions = true ->
  Dict.mem "content" parameters_ = true ->
  (chunk_size <? len (Tools.arg "content" parameters_))%Z = true ->
  wp (chunk_large_file_operations_with rec env function_name parameters_
        chunk_size) (keeps only_world a) a.
Proof.
  intros Hfile Hmem Hlong. unfold chunk_large_file_operations_with.
  rewrite Hfile, Hmem, Hlong. cbn [andb].
  ow_step.
  - destruct (String.eqb function_name "terminal.write_file").
    + ow_step; [|ow_step].
      apply (@on_terminal_total_only env), write_file_total.
    + ow_step.
  - ow_step; [apply content_chunks_keeps; ow_pre|].
    ow_step; [apply (@on_terminal_total_only env), append_chunks_total|].
    destruct x1; ow_step.
Qed.

Lemma run_function_only env function_name parameters_ a :
  wp (run_function env function_name parameters_) (keeps only_world a) a.
Proof.
  unfold run_function. cbn [run_function_at].
  set (f := if str_in function_name bare_names
            then "terminal." ++ function_name else function_name).
  destruct (startswith "terminal." f) eqn:Hprefix; [|ow_step].
  unfold method_name_of. rewrite (PyStrFacts.split_once_terminal f Hprefix).
  apply wp_bind_ret.
  assert (Hrun : wp (on_terminal (Tools.run_tool env f parameters_))
                    (keeps only_world a) a)
    by apply (@on_terminal_only env), run_tool_keeps.
  destruct (str_in (drop 9 f) ["write_file"; "append_to_file"]
            && Dict.mem "content" parameters_) eqn:Hguard; [|exact Hrun].
  apply andb_true_iff in Hguard. destruct Hguard as [Hmethod Hmem].
  destruct (50000 <? len (Tools.arg "content" parameters_))%Z;
    [|exact Hrun].
  destruct (100000 <? len (Tools.arg "content" parameters_))%Z eqn:Hbig;
    [|exact Hrun].
  apply chunked_only.
  - apply file_action_of_method; assumption.
  - exact Hmem.
  - apply Z.ltb_lt in Hbig. apply Z.ltb_lt. lia.
Qed.

Lemma stop_all_only env a : wp (stop_all env) (keeps only_world a) a.
Proof.
  unfold stop_all. ow_step.
  - apply (@on_terminal_total_only env), list_background_processes_total.
  - apply keeps_for_each; [ow_pre | ow_pre |].
    intros process_id a1. ow_step; [|ow_step].
    apply (@on_terminal_total_only env).
    eapply wp_mono; [apply stop_background_process_total|].
    now intros r t' [].
Qed.

(** ** What a run may add *)

(** From [a] to [a']: at most [h] entries were appended to the history, at
    most [e] records to the response errors, at most [n] requests were
    made, and [start_time] is as it was. *)
Definition grown (h e n : nat) (a a' : agent) : Prop :=
  start_time a' = start_time a
  /\ (exists extra,
        history a' = (history a ++ extra)%list /\ List.length extra <= h)
  /\ (exists errs,
        response_errors a' = (response_errors a ++ errs)%list
        /\ List.length errs <= e)
  /\ round_trips a <= round_trips a' <= round_trips a + n.

Lemma only_world_grown a a' : only_world a a' -> grown 0 0 0 a a'.
Proof.
  intros (H1 & H2 & H3 & H4). split; [exact H3|]. split; [|split].
  - exists []. now rewrite app_nil_r.
  - exists []. now rewrite app_nil_r.
  - lia.
Qed.

Lemma grown_refl a : grown 0 0 0 a a.
Proof. apply only_world_grown, only_world_refl. Qed.

Lemma grown_trans h1 e1 n1 h2 e2 n2 a1 a2 a3 :
  grown h1 e1 n1 a1 a2 -> grown h2 e2 n2 a2 a3 ->
  grown (h1 + h2) (e1 + e2) (n1 + n2) a1 a3.
Proof.
  intros (S1 & (x1 & H1 & L1) & (y1 & E1 & M1) & N1)
         (S2 & (x2 & H2 & L2) & (y2 & E2 & M2) & N2).
  split; [congruence|]. split; [|split].
  - exists (x1 ++ x2)%list. rewrite H2, H1, <- app_assoc, length_app.
    split; [reflexivity | lia].
  - exists (y1 ++ y2)%list. rewrite E2, E1, <- app_assoc, length_app.
    split; [reflexivity | lia].
  - lia.
Qed.

Lemma grown_weaken h e n h' e' n' a a' :
  h <= h' -> e <= e' -> n <= n' -> grown h e n a a' -> grown h' e' n' a a'.
Proof.
  intros Hh He Hn (S1 & (x1 & H1 & L1) & (y1 & E1 & M1) & N1).
  split; [exact S1|]. split; [|split].
  - exists x1. split; [exact H1 | lia].
  - exists y1. split; [exact E1 | lia].
  - lia.
Qed.

(** ** One attempt *)

(** What [dispatch] may add: one history entry when it returns a tuple,
    nothing when it asks for a retry or raises. *)
Definition dispatched (a : agent) (r : outcome (flow step_tuple))
  (a' : agent) : Prop :=
  r <> OutOfFuel
  /\ match r with
     | Ok (Return _) => grown 1 0 0 a a'
     | _ => grown 0 0 0 a a'
     end.

Lemma dispatch_grown env max_retries retry_count content a :
  wp (dispatch env max_retries retry_count content) (dispatched a) a.
Proof.
  unfold dispatch, dispatched.
  pose proof (ExtractorSpec.extract_response_ends content) as Hends.
  destruct (extract_response_from_tags content) as [[d diagnostic]|e|];
    [|apply wp_bind, wp_of_outcome; split; [discriminate | apply grown_refl]
     |contradiction].
  apply wp_bind_ret. cbv beta iota.
  destruct (invalid d).
  { destruct (retry_count <? max_retries)%Z; wp_step;
      (split; [discriminate|]);
      [apply grown_refl | eapply grown_weaken; [| | |apply grown_refl]; lia]. }
  destruct (has_function d && negb (get_task_complete d)).
  - wp_step. eapply wp_mono; [apply (run_function_only env)|].
    intros [v|e|] a1 [Hr Hw]; cbv beta iota;
      [|split; [discriminate | now apply only_world_grown] | contradiction].
    wp_step. eapply wp_mono; [apply on_heap_only, to_obj_ends|].
    intros [o|e|] a2 [Hr2 Hw2]; cbv beta iota;
      [|split; [discriminate|];
        apply only_world_grown; eapply only_world_trans; eassumption
       |contradiction].
    wp_step. wp_step. wp_step. split; [discriminate|].
    pose proof (only_world_trans Hw Hw2) as (H1 & H2 & H3 & H4).
    cbn [history response_errors start_time round_trips].
    split; [exact H3|]. split; [|split].
    + eexists. rewrite H1. split; [reflexivity | simpl; lia].
    + exists []. rewrite app_nil_r. split; [exact H2 | simpl; lia].
    + cbn [round_trips]. lia.
  - destruct (get_task_complete d).
    + wp_step. eapply wp_mono; [apply (stop_all_only env)|].
      intros [v|e|] a1 [Hr Hw]; cbv beta iota;
        [|split; [discriminate | now apply only_world_grown] | contradiction].
      wp_step. split; [discriminate|].
      eapply grown_weaken; [| | |apply only_world_grown; exact Hw]; lia.
    + wp_step. split; [discriminate|].
      eapply grown_weaken; [| | |apply grown_refl]; lia.
Qed.

Lemma request_grown env message a :
  wp (request env message)
     (fun r a' => r <> OutOfFuel /\ grown 0 0 1 a a') a.
Proof.
  assert (Hg : grown 0 0 1 a
                 (Agent_ (terminal a) (history a) (response_errors a)
                         (heap a) (start_time a) (S (round_trips a)))).
  { split; [reflexivity|]. split; [|split]; cbn.
    - exists []. now rewrite app_nil_r.
    - exists []. now rewrite app_nil_r.
    - lia. }
  unfold request. wp_step. wp_step. wp_step. wp_step.
  destruct (llm env (round_trips a) message); wp_step;
    (split; [discriminate | exact Hg]).
Qed.

(** What one pass through the retry loop may add. *)
Definition tried (h e : nat) (a : agent)
  (r : outcome (flow step_tuple)) (a' : agent) : Prop :=
  exists f,
    r = Ok f
    /\ match f with
       | Continue => grown 0 0 1 a a'
       | Return _ => grown h e 1 a a'
       end.

Lemma on_exception_grown step_num max_retries retry_count content e a a0 :
  grown 0 0 1 a0 a ->
  wp (on_exception step_num max_retries retry_count content e)
     (tried 1 1 a0) a.
Proof.
  intros Hg. unfold on_exception, tried.
  destruct (retry_count <? max_retries)%Z.
  - wp_step. eexists. split; [reflexivity | exact Hg].
  - wp_step. wp_step. wp_step. eexists. split; [reflexivity|].
    cbv beta iota.
    apply (@grown_trans 0 0 1 1 1 0 a0 a); [exact Hg|].
    split; [reflexivity|]. split; [|split]; cbn.
    + exists []. rewrite app_nil_r. split; [reflexivity | simpl; lia].
    + eexists. split; [reflexivity | simpl; lia].
    + lia.
Qed.

Lemma attempt_grown env message step_num max_retries retry_count content a :
  wp (try_except
        (bind (request env message) (dispatch env max_retries retry_count))
        (on_exception step_num max_retries retry_count content))
     (tried 1 1 a) a.
Proof.
  apply wp_try_except, wp_bind.
  eapply wp_mono; [apply request_grown|].
  intros [c|e|] a1 [Hr Hg]; cbv beta iota; [| |contradiction].
  - eapply wp_mono; [apply dispatch_grown|].
    intros [[|t]|e|] a2 [Hr2 Hg2]; [| | |contradiction].
    + exists Continue. split; [reflexivity|].
      apply (@grown_trans 0 0 1 0 0 0 a a1 a2); assumption.
    + eexists. split; [reflexivity|].
      eapply grown_weaken;
        [| | |apply (@grown_trans 0 0 1 1 0 0 a a1 a2); eassumption]; lia.
    + apply on_exception_grown.
      apply (@grown_trans 0 0 1 0 0 0 a a1 a2); assumption.
  - now apply on_exception_grown.
Qed.

(** The retry loop returns, and all its passes together add at most one
    history entry and one error record. *)
Lemma attempts_grown env message step_num max_retries :
  forall fuel retry_count content a,
    (max_retries - retry_count + 1 <= Z.of_nat fuel)%Z ->
    wp (attempts env message step_num max_retries fuel retry_count content)
       (fun r a' =>
          (exists v, r = Ok v)
          /\ grown 1 1 (Z.to_nat (max_retries - retry_count + 1)) a a') a.
Proof.
  induction fuel as [|fuel IH]; intros retry_count content a Hfuel;
    cbn [attempts];
    destruct (Z.leb_spec retry_count max_retries) as [Hle|Hgt]; try lia;
    try (wp_step; split; [eauto|];
         eapply grown_weaken; [| | |apply grown_refl]; lia).
  wp_step. wp_step. wp_step.
  eapply wp_mono; [apply attempt_grown|].
  intros r a1 (f & -> & Hf). destruct f as [|t].
  - eapply wp_mono; [apply IH; lia|].
    intros r' a2 [Hr' Hg']. split; [exact Hr'|].
    eapply grown_weaken; [| | |eapply grown_trans; eassumption]; lia.
  - wp_step. split; [eauto|].
    eapply grown_weaken; [| | |exact Hf]; lia.
Qed.

Lemma execute_step_grown env task step_num max_steps max_retries a :
  wp (execute_step env task step_num max_steps max_retries)
     (fun r a' =>
        (exists v, r = Ok v)
        /\ grown 1 1 (Z.to_nat (max_retries + 1)) a a') a.
Proof.
  unfold execute_step. wp_step. wp_step. wp_step.
  destruct (build_history_text_run env a) as (text & extra & Hbuild).
  unfold wp at 1. rewrite Hbuild. cbn [fst snd].
  wp_step. wp_step.
  eapply wp_mono; [apply attempts_grown; lia|].
  intros r a' [Hr Hg]. split; [exact Hr|].
  replace (max_retries - 0 + 1)%Z with (max_retries + 1)%Z in Hg by lia.
  destruct Hg as (S1 & H1 & E1 & N1). split; [exact S1|]. auto.
Qed.

(** One turn of the task loop: it does not report completion while
    [start_time] is unset. *)
Definition stepped (a : agent) (r : outcome (flow bool)) (a' : agent)
  : Prop :=
  r <> OutOfFuel /\ grown 1 1 3 a a'
  /\ (start_time a = None -> forall b, r <> Ok (Return b)).

Lemma task_step_grown env task step_ max_steps a :
  wp (task_step env task step_ max_steps) (stepped a) a.
Proof.
  unfold task_step, stepped. wp_step.
  eapply wp_mono; [apply execute_step_grown|].
  intros r a1 [[v ->] Hg]. change (Z.to_nat (2 + 1)) with 3 in Hg.
  destruct v as [[[[done thought_] function_call] result]|];
    [|wp_step; split; [discriminate|]; split; [exact Hg | discriminate]].
  wp_step.
  assert (Hprint :
    wp (match function_call with
        | Some c => if PyStr.truthy c then on_heap (print_result result)
                    else ret tt
        | None => ret tt
        end) (keeps only_world a1) a1).
  { destruct function_call as [c|]; [|ow_step].
    destruct (PyStr.truthy c); [|ow_step].
    apply on_heap_only, print_result_ends. }
  eapply wp_mono; [exact Hprint|].
  intros r a2 [Hr Hw].
  assert (Hg2 : grown 1 1 3 a a2).
  { eapply grown_weaken;
      [| | |eapply grown_trans; [exact Hg | apply only_world_grown, Hw]];
      lia. }
  destruct r as [u|e|]; [| |contradiction];
    [|split; [discriminate|]; split; [exact Hg2 | discriminate]].
  destruct done.
  - wp_step. wp_step.
    destruct (start_time a2) eqn:Hst; wp_step;
      (split; [discriminate|]); (split; [exact Hg2|]).
    + intros Hnone. destruct Hg2 as (Hsame & _). congruence.
    + discriminate.
  - wp_step. split; [discriminate|]. split; [exact Hg2 | discriminate].
Qed.

Definition looped (k : nat) (a : agent) (r : outcome bool) (a' : agent)
  : Prop :=
  r <> OutOfFuel /\ grown k k (3 * k) a a'
  /\ (start_time a = None -> r <> Ok true).

Lemma task_loop_grown env task max_steps :
  forall fuel step_ a,
    (max_steps - step_ + 1 <= Z.of_nat fuel)%Z ->
    wp (task_loop env task max_steps fuel step_)
       (looped (Z.to_nat (max_steps - step_ + 1)) a) a.
Proof.
  induction fuel as [|fuel IH]; intros step_ a Hfuel; cbn [task_loop];
    destruct (Z.leb_spec step_ max_steps) as [Hle|Hgt]; try lia;
    try (wp_step; split; [discriminate|]; split; [|discriminate];
         eapply grown_weaken; [| | |apply grown_refl]; lia).
  wp_step. eapply wp_mono; [apply task_step_grown|].
  intros r a1 (Hr & Hg & Hnever).
  destruct r as [[|b]|e|]; [| | |contradiction].
  - eapply wp_mono; [apply IH; lia|].
    intros r' a2 (Hr' & Hg' & Hnever'). split; [exact Hr'|]. split.
    + eapply grown_weaken; [| | |eapply grown_trans; eassumption]; lia.
    + intros Hnone. apply Hnever'. destruct Hg as (Hsame & _). congruence.
  - wp_step. split; [discriminate|]. split.
    + eapply grown_weaken; [| | |exact Hg]; lia.
    + intros Hnone. exfalso. now apply (Hnever Hnone b).
  - split; [discriminate|]. split; [|discriminate].
    eapply grown_weaken; [| | |exact Hg]; lia.
Qed.

Lemma solve_task_grown env task max_steps a :
  wp (solve_task env task max_steps) (looped (Z.to_nat max_steps) a) a.
Proof.
  unfold solve_task. apply wp_try_finally.
  eapply wp_mono; [apply task_loop_grown; lia|].
  intros r a1 (Hr & Hg & Hnever).
  replace (max_steps - 1 + 1)%Z with max_steps in Hg by lia.
  unfold cleanup, wp.
  destruct (stop_all_run env a1) as (t' & -> & _). cbn [fst snd].
  split; [exact Hr|]. split; [|exact Hnever].
  eapply grown_weaken;
    [| | |eapply grown_trans; [exact Hg | apply only_world_grown]];
    [lia | lia | lia | repeat split].
Qed.

(** X18: a task costs at most three requests a step.  From any state and
    for any behaviour of the model and of the commands, [solve_task]
    ends; it makes at most [3 * max_steps] requests to the model, only
    appends to the history and to the response errors, and appends at
    most [max_steps] entries to each. *)
Theorem solve_task_budget (env : Env) (task : string) (max_steps : Z)
  (a : agent) :
  exists r a' extra errs,
    solve_task env task max_steps a = (r, a')
    /\ r <> OutOfFuel
    /\ round_trips a' <= round_trips a + 3 * Z.to_nat max_steps
    /\ history a' = (history a ++ extra)%list
    /\ List.length extra <= Z.to_nat max_steps
    /\ response_errors a' = (response_errors a ++ errs)%list
    /\ List.length errs <= Z.to_nat max_steps.
Proof.
  pose proof (solve_task_grown env task max_steps a) as H.
  apply wp_run in H.
  destruct H as (r & a' & Hrun & Hr
                 & (_ & (extra & Hh & Lh) & (errs & He & Le) & Hn) & _).
  exists r, a', extra, errs. repeat split; try assumption. lia.
Qed.

(** X19: [solve_task] never returns [True].  [start_time] is read on the
    completion path and nothing assigns it, so on an agent whose
    [start_time] is unset a completed task leaves [solve_task] by the
    exception of that read, not by [return True]: whatever the model
    replies, the outcome is not [True]. *)
Theorem solve_task_never_true (env : Env) (task : string) (max_steps : Z)
  (a : agent) :
  start_time a = None ->
  fst (solve_task env task max_steps a) <> Ok true.
Proof.
  intros Hnone. pose proof (solve_task_grown env task max_steps a) as H.
  destruct H as (_ & _ & Hnever). now apply Hnever.
Qed.

(** X20: a step never raises and adds at most one entry.  Whatever the
    model replies and whatever the action does, [execute_step] returns
    normally, after at most [max_retries + 1] requests; it only appends to
    the history and to the response errors, at most one entry to each. *)
Theorem execute_step_budget (env : Env) (task : string)
  (step_num max_steps max_retries : Z) (a : agent) :
  exists r a' extra errs,
    execute_step env task step_num max_steps max_retries a = (Ok r, a')
    /\ round_trips a <= round_trips a'
       <= round_trips a + Z.to_nat (max_retries + 1)
    /\ history a' = (history a ++ extra)%list /\ List.length extra <= 1
    /\ response_errors a' = (response_errors a ++ errs)%list
    /\ List.length errs <= 1.
Proof.
  pose proof (execute_step_grown env task step_num max_steps max_retries a)
    as H.
  apply wp_run in H.
  destruct H as (r & a' & Hrun & [v ->]
                 & (_ & (extra & Hh & Lh) & (errs & He & Le) & Hn)).
  exists v, a', extra, errs. repeat split; try assumption; lia.
Qed.

Lemma solve_task_never_true_witness :
  fst (solve_task TaskLoopSpec.finishing "serve" 20
         (TaskLoopSpec.serving None))
  <> Ok true.
Proof.
  apply (@solve_task_never_true TaskLoopSpec.finishing "serve" 20
           (TaskLoopSpec.serving None)).
  reflexivity.
Defined.

End BudgetSpec.

(* ================================================================== *)
(** * The registry against the handlers *)
(* ================================================================== *)

Module RegistrySpec.
Import PyStr World Terminal Registry DispatchSpec.

Lemma keys_mem {V} (k : string) (d : Dict.t V) :
  In k (Dict.keys d) -> Dict.mem k d = true.
Proof.
  unfold Dict.keys. intros H. apply in_map_iff in H.
  destruct H as ([k' v] & <- & Hin). eapply CleanupSpec.In_mem. exact Hin.
Qed.

(** X21: what the registry advertises can be called.  For every tool that
    [get_available_tools] describes, a call that passes exactly the
    parameter names of its ["parameters"] entry finds a registered handler
    and binds to that handler's signature: no argument is unexpected and
    no required one is missing. *)
Theorem advertised_parameters_bind (function_name : string)
  (info : Dict.t pyval) (advertised : Dict.t pyval)
  (parameters_ : Dict.t string) (s : term) :
  Dict.get function_name get_available_tools = Some (VDict info) ->
  Dict.get "parameters" info = Some (VDict advertised) ->
  Dict.keys parameters_ = Dict.keys advertised ->
  exists method signature,
    Dict.get function_name Tools.available_tools = Some (method, signature)
    /\ Tools.bind_arguments method signature parameters_ s = (Ok tt, s).
Proof.
  intros Htool Hinfo Hkeys.
  assert (Hbind : forall method signature,
            (forall k, In k (Dict.keys advertised) ->
                       Dict.mem k signature = true) ->
            (forall k, In (k, true) signature ->
                       In k (Dict.keys advertised)) ->
            Tools.bind_arguments method signature parameters_ s = (Ok tt, s)).
  { intros method signature Hknown Hgiven. apply bind_arguments_ok.
    - intros k Hk. apply Hknown. now rewrite <- Hkeys.
    - intros k Hk. apply keys_mem. rewrite Hkeys. now apply Hgiven. }
  revert Htool.
  let tools := eval vm_compute in get_available_tools in
  change get_available_tools with tools.
  cbn [Dict.get].
  repeat match goal with
         | |- context [String.eqb function_name ?k] =>
             destruct (String.eqb_spec function_name k) as [->|_]
         end;
    try discriminate.
  all: intros [= <-]; cbn in Hinfo; injection Hinfo as <-.
  all: do 2 eexists; (split; [reflexivity|]).
  all: apply Hbind; cbn;
    [ intros k Hk; repeat destruct Hk as [<-|Hk]; try reflexivity;
      contradiction
    | intros k Hk; repeat destruct Hk as [[= <-]|Hk]; try contradiction;
      tauto ].
Qed.

Lemma advertised_parameters_bind_witness :
  exists method signature,
    Dict.get "terminal.write_file" Tools.available_tools
    = Some (method, signature)
    /\ Tools.bind_arguments method signature
         [("path", "notes.txt"); ("content", "hello")]
         Scenario.fresh_terminal
       = (Ok tt, Scenario.fresh_terminal).
Proof.
  apply (@advertised_parameters_bind "terminal.write_file"
           [("description",
             VStr "Write content to a file (overwriting any existing content)");
            ("parameters",
             VDict [("path", VStr "string"); ("content", VStr "string")])]
           [("path", VStr "string"); ("content", VStr "string")]
           [("path", "notes.txt"); ("content", "hello")]
           Scenario.fresh_terminal);
    reflexivity.
Defined.

End RegistrySpec.

(* ================================================================== *)
(** * The tools that inspect files *)
(* ================================================================== *)

Module InspectSpec.
Import PyStr World Terminal Inspect TextFacts TerminalSpec.

(** ** The scan of [get_functions_and_classes] *)

(** Names only accumulate along the scan. *)
Lemma scan_line_keeps (line : string) (functions classes : list string) :
  (forall x, In x functions -> In x (fst (scan_line line functions classes)))
  /\ (forall x, In x classes -> In x (snd (scan_line line functions classes))).
Proof.
  unfold scan_line.
  repeat match goal with
         | |- context [if ?b then _ else _] => destruct b
         end;
    cbn [fst snd]; split; intros x Hx; auto; apply in_or_app; now left.
Qed.

Lemma scan_lines_keeps (lines : list string) :
  forall functions classes,
    (forall x, In x functions ->
               In x (fst (scan_lines lines functions classes)))
    /\ (forall x, In x classes ->
                  In x (snd (scan_lines lines functions classes))).
Proof.
  induction lines as [|line rest IH]; intros functions classes;
    cbn [scan_lines]; [now split|].
  destruct (scan_line_keeps line functions classes) as [Hf Hc].
  destruct (scan_line line functions classes) as [functions' classes'].
  cbn [fst snd] in *. destruct (IH functions' classes') as [Hf' Hc'].
  split; auto.
Qed.

(** What is left of a line when it is stripped: the indentation goes, and
    nothing up to a character that is not white space is touched. *)
Lemma strip_header (indent : string) (c : ascii) (header : string)
  (p : ascii) (rest : string) :
  lstrip indent = "" -> is_space c = false -> is_space p = false ->
  strip (indent ++ String c header ++ String p rest)
  = String c header ++ String p (rstrip rest).
Proof.
  intros Hi Hc Hp. unfold strip.
  rewrite <- PyStrFacts.append_assoc, rstrip_app.
  - rewrite rstrip_cons_nonspace by assumption.
    rewrite PyStrFacts.append_assoc, lstrip_app_space by assumption.
    cbn [append lstrip]. now rewrite Hc.
  - now rewrite rstrip_cons_nonspace.
Qed.

Lemma slice_middle (a b t : string) :
  slice (a ++ b ++ t) (len a) (len a + len b) = b.
Proof.
  unfold len. rewrite PyStrFacts.slice_window
    by (rewrite length_append; lia).
  replace (String.length a) with (String.length a + 0) at 1 by lia.
  rewrite drop_app. cbn [drop]. apply take_app.
Qed.

Lemma scan_line_def (indent name rest : string)
  (functions classes : list string) :
  lstrip indent = "" -> contains "(" name = false ->
  scan_line (indent ++ "def " ++ name ++ "(" ++ rest) functions classes
  = ((functions ++ [strip name])%list, classes).
Proof.
  intros Hi Hn. unfold scan_line.
  change (indent ++ "def " ++ name ++ "(" ++ rest)
    with (indent ++ String "d" ("ef " ++ name) ++ String "(" rest).
  rewrite strip_header by (assumption || reflexivity).
  change (String "d" ("ef " ++ name) ++ String "(" (rstrip rest))
    with ("def " ++ (name ++ String "(" (rstrip rest))) at 1.
  rewrite startswith_app.
  change (String "d" ("ef " ++ name)) with ("def " ++ name).
  rewrite char_in_found. cbn [andb].
  unfold find_or_len. rewrite find_char_first
    by (rewrite char_in_app, Hn; reflexivity).
  rewrite PyStrFacts.append_assoc.
  replace (Z.of_nat (String.length ("def " ++ name)))
    with (len "def " + len name)%Z
    by (unfold len; rewrite length_append; lia).
  change 4%Z with (len "def ").
  now rewrite (slice_middle "def " name).
Qed.

(** X22: [get_functions_and_classes] lists a function under the text
    between [def ] and the first opening parenthesis, stripped.  A line
    made of white space, [def ], a name without parenthesis, an opening
    parenthesis and anything else puts that name, stripped, among the
    functions of its file, wherever the line stands and however it is
    indented (a method counts as a function). *)
Theorem scan_finds_def (lines : list string)
  (indent name rest : string) :
  In (indent ++ "def " ++ name ++ "(" ++ rest) lines ->
  lstrip indent = "" -> contains "(" name = false ->
  In (strip name) (fst (scan_lines lines [] [])).
Proof.
  intros Hin Hi Hn.
  assert (H : forall functions classes,
            In (strip name) (fst (scan_lines lines functions classes))).
  { induction lines as [|line lines IH]; intros functions classes;
      [contradiction|].
    cbn [scan_lines]. destruct Hin as [->|Hin].
    - rewrite scan_line_def by assumption.
      apply (scan_lines_keeps lines). apply in_or_app. right. now left.
    - destruct (scan_line line functions classes). now apply IH. }
  apply H.
Qed.

Lemma scan_finds_def_witness :
  In (strip "m")
     (fst (scan_lines ["class A:" ++ nl; "    def m(self):" ++ nl] [] [])).
Proof.
  apply (@scan_finds_def ["class A:" ++ nl; "    def m(self):" ++ nl]
           "    " "m" ("self):" ++ nl));
    [right; left; reflexivity | reflexivity | reflexivity].
Defined.

Lemma find_or_len_lower (c : ascii) (a t : string) :
  contains (String c "") a = false ->
  (len a <= find_or_len (String c "") (a ++ t))%Z.
Proof.
  unfold find_or_len, find, len. induction a as [|x a IH]; intros H.
  - cbn [append String.length]. destruct (index 0 (String c "") t); lia.
  - rewrite char_in_cons in H. apply orb_false_iff in H. destruct H as [Hx Ha].
    specialize (IH Ha). cbn [append index prefix String.length].
    destruct (ascii_dec c x) as [->|_]; [now rewrite Ascii.eqb_refl in Hx|].
    destruct (index 0 (String c "") (a ++ t)); cbn [String.length]; lia.
Qed.

Lemma find_or_len_first (c : ascii) (a t : string) :
  contains (String c "") a = false ->
  find_or_len (String c "") (a ++ String c t) = len a.
Proof.
  intros H. unfold find_or_len. now rewrite find_char_first.
Qed.

(** The two characters that end the name of a class. *)
Definition ends_class_name (p : ascii) : Prop := p = "("%char \/ p = ":"%char.

Lemma scan_line_class (indent name : string) (p : ascii) (rest : string)
  (functions classes : list string) :
  ends_class_name p ->
  lstrip indent = "" ->
  contains "(" name = false -> contains ":" name = false ->
  scan_line (indent ++ "class " ++ name ++ String p rest) functions classes
  = (functions, (classes ++ [strip name])%list).
Proof.
  intros Hp Hi Hparen Hcolon. unfold scan_line.
  assert (Hsp : is_space p = false) by (destruct Hp as [->| ->]; reflexivity).
  change (indent ++ "class " ++ name ++ String p rest)
    with (indent ++ String "c" ("lass " ++ name) ++ String p rest).
  rewrite strip_header by (assumption || reflexivity).
  change (String "c" ("lass " ++ name)) with ("class " ++ name).
  set (line := ("class " ++ name) ++ String p (rstrip rest)).
  assert (Hdef : startswith "def " line = false) by reflexivity.
  assert (Hclass : startswith "class " line = true)
    by (unfold line; rewrite PyStrFacts.append_assoc; apply startswith_app).
  assert (Hopen : contains ":" line || contains "(" line = true)
    by (unfold line; destruct Hp as [->| ->]; rewrite char_in_found;
        [apply orb_true_r | reflexivity]).
  rewrite Hdef, Hclass, Hopen. cbn [andb].
  assert (Hend : Z.min (find_or_len "(" line) (find_or_len ":" line)
                 = (len "class " + len name)%Z).
  { assert (H1 : contains "(" ("class " ++ name) = false)
      by (rewrite char_in_app, Hparen; reflexivity).
    assert (H2 : contains ":" ("class " ++ name) = false)
      by (rewrite char_in_app, Hcolon; reflexivity).
    pose proof (@find_or_len_lower _ _ (String p (rstrip rest)) H1) as L1.
    pose proof (@find_or_len_lower _ _ (String p (rstrip rest)) H2) as L2.
    fold line in L1, L2.
    assert (Hlen : len ("class " ++ name) = (len "class " + len name)%Z)
      by (unfold len; rewrite length_append; lia).
    destruct Hp as [->| ->]; unfold line.
    - rewrite (@find_or_len_first _ _ (rstrip rest) H1). fold line. lia.
    - rewrite (@find_or_len_first _ _ (rstrip rest) H2). fold line. lia. }
  rewrite Hend. unfold line. rewrite PyStrFacts.append_assoc.
  change 6%Z with (len "class ").
  now rewrite (slice_middle "class " name).
Qed.

(** X23: a class is listed under the text between [class ] and the first
    parenthesis or colon, stripped: a line made of white space, [class ], a
    name with neither character, then [(] or [:] and anything else, puts
    that name among the classes of its file. *)
Theorem scan_finds_class (lines : list string) (indent name : string)
  (p : ascii) (rest : string) :
  In (indent ++ "class " ++ name ++ String p rest) lines ->
  ends_class_name p ->
  lstrip indent = "" ->
  contains "(" name = false -> contains ":" name = false ->
  In (strip name) (snd (scan_lines lines [] [])).
Proof.
  intros Hin Hp Hi Hparen Hcolon.
  assert (H : forall functions classes,
            In (strip name) (snd (scan_lines lines functions classes))).
  { induction lines as [|line lines IH]; intros functions classes;
      [contradiction|].
    cbn [scan_lines]. destruct Hin as [->|Hin].
    - rewrite scan_line_class by assumption.
      apply (scan_lines_keeps lines). apply in_or_app. right. now left.
    - destruct (scan_line line functions classes). now apply IH. }
  apply H.
Qed.

Lemma scan_finds_class_witness :
  In (strip "A") (snd (scan_lines ["class A(B):" ++ nl] [] [])).
Proof.
  apply (@scan_finds_class ["class A(B):" ++ nl] "" "A" "("%char
           ("B):" ++ nl));
    [left; reflexivity | left; reflexivity | reflexivity | reflexivity
    | reflexivity].
Defined.

(** ** [get_function_content] and [get_file_contents_of_type] *)

Lemma split_char_cons (c : ascii) (s : string) :
  exists first rest, split_char c s = first :: rest.
Proof.
  destruct s as [|x s]; cbn [split_char]; [eauto|].
  destruct (Ascii.eqb x c); [eauto|]. destruct (split_char c s); eauto.
Qed.

(** The terminal after [n] ticks of its clock. *)
Definition later (n : nat) (s : term) : term :=
  Terminal_for_agent (cwd s) (background_processes s) (n + clock s)
                     (files s) (trace s).

(** The file is there and can be read. *)
Definition readable (env : Env) (path_exists : nat -> string -> bool)
  (path content : string) (s : term) : Prop :=
  path_exists (clock s) path = true
  /\ io env (S (clock s)) path = NoFault
  /\ Dict.get path (files s) = Some content.

Lemma get_function_content_found (env : Env)
  (path_exists : nat -> string -> bool)
  (path function_name content : string) (start_pos : nat)
  (indentation first : string) (rest : list string) (s : term) :
  readable env path_exists path content s ->
  search_def function_name content = Some (start_pos, indentation) ->
  split_char newline (strip (drop start_pos content)) = first :: rest ->
  get_function_content env path_exists path function_name s
  = (Ok (VStr (join nl (first :: keep_lines indentation rest))), later 2 s).
Proof.
  intros (Hexists & Hio & Hfile) Hsearch Hsplit.
  apply wp_eq. unfold get_function_content, read_file.
  wp_step. wp_step. wp_step. rewrite Hexists. cbn [negb].
  wp_step. wp_step. wp_step. rewrite Hio. wp_step. wp_step. rewrite Hfile.
  wp_step. rewrite Hsearch, Hsplit. wp_step. split; reflexivity.
Qed.

Lemma keep_lines_blank (indentation : string) (lines : list string) :
  contains nl indentation = true ->
  Forall (fun l => contains nl l = false) lines ->
  Forall (fun l => strip l = "") (keep_lines indentation lines).
Proof.
  intros Hind Hlines. induction Hlines as [|line rest Hline _ IH];
    [constructor|].
  cbn [keep_lines].
  assert (Hno : forall p, contains nl (indentation ++ p) = true
                          -> startswith (indentation ++ p) line = false).
  { intros p Hp. destruct (startswith (indentation ++ p) line) eqn:E;
      [|reflexivity].
    unfold nl in *. rewrite (@prefix_char_in _ _ _ E Hp) in Hline.
    discriminate. }
  assert (Hin : forall p, contains nl (indentation ++ p) = true)
    by (intros p; unfold nl in *; now rewrite char_in_app, Hind).
  rewrite !Hno by apply Hin. rewrite !orb_false_r.
  destruct (String.eqb_spec (strip line) "") as [E|_].
  - constructor; assumption.
  - cbn [negb andb].
    assert (Hstart : startswith indentation line = false).
    { destruct (startswith indentation line) eqn:E; [|reflexivity].
      unfold nl in *. rewrite (@prefix_char_in _ _ _ E Hind) in Hline.
      discriminate. }
    rewrite Hstart. constructor.
Qed.

(** X24: a function that follows a blank line is cut to its first line.
    The second group of the pattern takes line breaks too, so when the
    match starts before a blank line the indentation it yields contains a
    line break, and no line of the split text starts with it: the result
    is the first line of the match followed by blank lines only, and the
    body of the function is not in it. *)
Theorem function_after_blank_line (env : Env)
  (path_exists : nat -> string -> bool)
  (path function_name content : string) (start_pos : nat)
  (indentation : string) (s : term) :
  readable env path_exists path content s ->
  search_def function_name content = Some (start_pos, indentation) ->
  contains nl indentation = true ->
  exists first rest kept,
    split_char newline (strip (drop start_pos content)) = first :: rest
    /\ get_function_content env path_exists path function_name s
       = (Ok (VStr (join nl (first :: kept))), later 2 s)
    /\ Forall (fun line => strip line = "") kept.
Proof.
  intros Hread Hsearch Hind.
  destruct (split_char_cons newline (strip (drop start_pos content)))
    as (first & rest & Hsplit).
  exists first, rest, (keep_lines indentation rest).
  split; [exact Hsplit|]. split.
  - now apply get_function_content_found with (content := content)
                                               (start_pos := start_pos).
  - apply keep_lines_blank; [exact Hind|].
    pose proof (split_char_clean newline (strip (drop start_pos content)))
      as Hclean.
    rewrite Hsplit in Hclean. now inversion Hclean.
Qed.

Definition everywhere : nat -> string -> bool := fun _ _ => true.

Definition spaced_module : string :=
  "import os" ++ nl ++ nl ++ nl ++ "def foo(x):" ++ nl ++ "    return x"
  ++ nl.

Definition holding (path content : string) : term :=
  Terminal_for_agent "/work" [] 0 [(path, content)] [].

Lemma function_after_blank_line_witness :
  exists first rest kept,
    split_char newline (strip (drop 9 spaced_module)) = first :: rest
    /\ get_function_content RunCommandSpec.sleepy everywhere "m.py" "foo"
         (holding "m.py" spaced_module)
       = (Ok (VStr (join nl (first :: kept))),
          later 2 (holding "m.py" spaced_module))
    /\ Forall (fun line => strip line = "") kept.
Proof.
  apply (@function_after_blank_line RunCommandSpec.sleepy everywhere
           "m.py" "foo" spaced_module 9 (nl ++ nl)
           (holding "m.py" spaced_module));
    [repeat split | reflexivity | reflexivity].
Defined.

(** A line that is blank or indented. *)
Definition blank_or_indented (line : string) : bool :=
  String.eqb (strip line) "" || startswith " " line || startswith tab line.

Lemma keep_lines_top (lines : list string) :
  keep_lines "" lines = filter blank_or_indented lines.
Proof.
  induction lines as [|line rest IH]; [reflexivity|].
  cbn [keep_lines filter append]. fold (blank_or_indented line).
  destruct (blank_or_indented line); [now rewrite IH|].
  unfold startswith at 1. rewrite prefix_nil_l, andb_false_r. exact IH.
Qed.

(** X25: the extraction of a top-level function never stops.  When the
    indentation of the match is empty every line starts with it, so the
    loop has no [break]: the result is the first line followed by every
    later line of the file that is blank or starts with a space or a tab,
    the bodies of the functions that follow included. *)
Theorem function_at_top_level (env : Env)
  (path_exists : nat -> string -> bool)
  (path function_name content : string) (start_pos : nat) (s : term) :
  readable env path_exists path content s ->
  search_def function_name content = Some (start_pos, "") ->
  exists first rest,
    split_char newline (strip (drop start_pos content)) = first :: rest
    /\ get_function_content env path_exists path function_name s
       = (Ok (VStr (join nl (first :: filter blank_or_indented rest))),
          later 2 s).
Proof.
  intros Hread Hsearch.
  destruct (split_char_cons newline (strip (drop start_pos content)))
    as (first & rest & Hsplit).
  exists first, rest. split; [exact Hsplit|].
  rewrite <- keep_lines_top.
  now apply get_function_content_found with (content := content)
                                             (start_pos := start_pos).
Qed.

Definition two_functions : string :=
  "def f():" ++ nl ++ "    a" ++ nl ++ "def g():" ++ nl ++ "    b" ++ nl.

Lemma function_at_top_level_witness :
  exists first rest,
    split_char newline (strip (drop 0 two_functions)) = first :: rest
    /\ get_function_content RunCommandSpec.sleepy everywhere "m.py" "f"
         (holding "m.py" two_functions)
       = (Ok (VStr (join nl (first :: filter blank_or_indented rest))),
          later 2 (holding "m.py" two_functions)).
Proof.
  apply (@function_at_top_level RunCommandSpec.sleepy everywhere
           "m.py" "f" two_functions 0 (holding "m.py" two_functions));
    [repeat split | reflexivity].
Defined.

Lemma first_of_type_run (env : Env) (path file_type : string)
  (names : list string) (s : term) :
  first_of_type env path file_type (map VStr names) s
  = match List.find (endswith file_type) names with
    | Some file =>
        let (r, s') := get_file_contents env (path_join path file) s in
        (match r with
         | Ok v => Ok (Some v)
         | Raise e => Raise e
         | OutOfFuel => OutOfFuel
         end, s')
    | None => (Ok None, s)
    end.
Proof.
  induction names as [|f names IH]; [reflexivity|].
  cbn [map first_of_type List.find file_endswith file_name].
  unfold bind at 1, ret at 1.
  destruct (endswith file_type f); [|exact IH].
  unfold bind, ret.
  destruct (get_file_contents env (path_join path f) s) as [[v|e|] s'];
    reflexivity.
Qed.

(** X26: [get_file_contents_of_type] answers with one file, the first
    entry of the listing whose name ends with the given type, read as
    [get_file_contents] reads it at the joined path; when no entry ends
    with it the result is the error payload that names the type and the
    path. *)
Theorem file_of_type_is_first_listed (env : Env)
  (listdir : nat -> string -> listing) (path file_type : string)
  (names : list string) (s : term) :
  listdir (clock s) path = Entries names ->
  get_file_contents_of_type env listdir path file_type s
  = match List.find (endswith file_type) names with
    | Some file => get_file_contents env (path_join path file) (later 1 s)
    | None =>
        (Ok (error_result ("No files with type " ++ file_type
                           ++ " found at " ++ path)),
         later 1 s)
    end.
Proof.
  intros Hlist.
  unfold get_file_contents_of_type, get_files_and_dirs_at_path.
  unfold try_except at 1, bind at 1, try_except at 1, bind at 1, tick at 1.
  rewrite Hlist. cbn [ret is_error iterate].
  unfold bind at 1, ret at 1. unfold bind at 1.
  change (Terminal_for_agent (cwd s) (background_processes s) (S (clock s))
            (files s) (trace s)) with (later 1 s).
  rewrite first_of_type_run.
  destruct (List.find (endswith file_type) names) as [file|]; [|reflexivity].
  pose proof (get_file_contents_total env (path_join path file) (later 1 s))
    as H.
  apply wp_run in H. destruct H as (r & s' & Hrun & [v ->] & _).
  rewrite Hrun. reflexivity.
Qed.

Definition three_entries : nat -> string -> listing :=
  fun _ _ => Entries ["a.txt"; "b.py"; "c.py"].

Lemma file_of_type_is_first_listed_witness :
  get_file_contents_of_type RunCommandSpec.sleepy three_entries "/work"
    ".py" Scenario.fresh_terminal
  = match List.find (endswith ".py") ["a.txt"; "b.py"; "c.py"] with
    | Some file =>
        get_file_contents RunCommandSpec.sleepy (path_join "/work" file)
          (later 1 Scenario.fresh_terminal)
    | None =>
        (Ok (error_result ("No files with type " ++ ".py"
                           ++ " found at " ++ "/work")),
         later 1 Scenario.fresh_terminal)
    end.
Proof.
  apply (@file_of_type_is_first_listed RunCommandSpec.sleepy three_entries
           "/work" ".py" ["a.txt"; "b.py"; "c.py"] Scenario.fresh_terminal).
  reflexivity.
Defined.

End InspectSpec.
